(** * A shallow embedding of the backend of the engineering-firm site

    The development follows the JavaScript sources of the Express backend:
    the two flat-file record stores ([projectService.js], [articleService.js]),
    the admin gate ([middleware/adminAuth.js]), the contact limiter and the
    origin check of [config/security.js], the sanitizer, the per-email
    limiter, the detection of attack patterns and the e-mail format of
    [utils/validators.js], the handler of [routes/contact.js], the escaping
    of [templates/emailTemplates.js], the redaction of [utils/logger.js] and
    the update handler of [routes/articles.js].

    Conventions.
    - JavaScript values are the inductive [Js.value]; a number is an IEEE
      754 double, written exactly as an integer or as an odd integer over a
      power of two, an infinity or [NaN]; arithmetic rounds to the nearest
      double, ties to even, and [Number(text)] follows the grammar of
      numeric literals.  The decimal notation of a number
      ([Number::toString]) is left open.
    - A JavaScript object used as a record is a finite map from property
      names to values; a property that is present with value [undefined]
      is a binding to [VUndefined], distinct from an absent property.
    - [async] methods are run to completion one at a time: effects are
      threaded through a state-and-exception monad whose state survives a
      [throw], as the heap of the JavaScript program does.
    - Strings are sequences of 8-bit code units. *)

From Stdlib Require Import ZArith Ascii String List Bool Lia.
From stdpp Require Import base option list gmap strings pretty sorting.

Local Open Scope string_scope.
Local Open Scope list_scope.

(** ** JavaScript values and objects *)

Module Js.

(** The values the program handles.  A number is an IEEE 754 double, as
    in JavaScript, and is written exactly: [VNum n] is the integer [n],
    [VFrac m k], with [m] odd, is [m / 2^k], a finite number that is not an
    integer, [VInf] is an infinity and [VNaN] is [NaN].  The two zeros are
    both [VNum 0]: no operation of the program tells them apart. *)
Inductive value : Type :=
| VUndefined
| VNull
| VBool (b : bool)
| VNum (n : Z)
| VNaN
| VStr (s : string)
| VFrac (m : Z) (k : positive)
| VInf (negative : bool).

#[global] Instance value_eq_dec : EqDecision value.
Proof. solve_decision. Defined.

(** An object literal: own enumerable properties. *)
Abbreviation record := (gmap string value).

(** Property read [o.k]: [undefined] when the property is absent. *)
Definition get (o : record) (k : string) : value :=
  default VUndefined (o !! k).

(** Object spread [{...a, ...b}]: every own property of [b], whatever its
    value, overrides the property of [a] with the same name. *)
Definition spread (a b : record) : record := b ∪ a.

(** ToBoolean. *)
Definition truthy (v : value) : bool :=
  match v with
  | VUndefined | VNull | VNaN => false
  | VBool b => b
  | VNum n => negb (n =? 0)%Z
  | VStr s => negb (String.eqb s "")
  | VFrac _ _ | VInf _ => true
  end.

(** [a || b] *)
Definition or_else (a b : value) : value := if truthy a then a else b.

(** [a === b]: same type and same value; [NaN] equals nothing. *)
Definition strict_eq (a b : value) : bool :=
  match a, b with
  | VUndefined, VUndefined => true
  | VNull, VNull => true
  | VBool x, VBool y => Bool.eqb x y
  | VNum x, VNum y => (x =? y)%Z
  | VStr x, VStr y => String.eqb x y
  | VFrac x j, VFrac y k => (x =? y)%Z && (j =? k)%positive
  | VInf x, VInf y => Bool.eqb x y
  | _, _ => false
  end.

(** White space of [String.prototype.trim], of StringToNumber and of the
    regular-expression class [\s], among 8-bit code units: TAB, LF, VT, FF,
    CR, SPACE, NBSP. *)
Definition is_space (c : ascii) : bool :=
  let n := nat_of_ascii c in
  (((9 <=? n) && (n <=? 13)) || (n =? 32) || (n =? 160))%nat.

Fixpoint trimStart (l : list ascii) : list ascii :=
  match l with
  | c :: l' => if is_space c then trimStart l' else l
  | [] => []
  end.

Definition trim_chars (l : list ascii) : list ascii :=
  rev (trimStart (rev (trimStart l))).

Definition trim (s : string) : string :=
  string_of_list_ascii (trim_chars (list_ascii_of_string s)).

Definition is_digit (c : ascii) : bool :=
  let n := nat_of_ascii c in ((48 <=? n) && (n <=? 57))%nat.

(** [- v] for a number [v]. *)
Definition neg (v : value) : value :=
  match v with
  | VNum n => VNum (- n)
  | VFrac m k => VFrac (- m) k
  | VInf b => VInf (negb b)
  | _ => v
  end.

(** [halve m k]: [m / 2^k] in lowest terms, as a numerator and what is
    left of the exponent of the denominator. *)
Fixpoint halve (m : positive) (k : nat) : positive * nat :=
  match k, m with
  | S k', xO m' => halve m' k'
  | _, _ => (m, k)
  end.

(** The number [m * 2^e], for [0 <= m]. *)
Definition dyadic (m e : Z) : value :=
  match m with
  | Zpos p =>
      if (0 <=? e)%Z then VNum (m * 2 ^ e)
      else
        match halve p (Z.to_nat (- e)) with
        | (p', O) => VNum (Zpos p')
        | (p', S k) => VFrac (Zpos p') (Pos.of_succ_nat k)
        end
  | _ => VNum 0
  end.

(** [n / d / 2^e] as a fraction of two integers. *)
Definition scaled (n d e : Z) : Z * Z :=
  if (0 <=? e)%Z then (n, d * 2 ^ e)%Z else (n * 2 ^ (- e), d)%Z.

(** The double nearest to [n / d], for [0 < n] and [0 < d]: round to
    nearest, ties to even.  An integer up to [2^53] is a double.  Otherwise
    [2^E <= n / d < 2^(E + 1)], the unit in the last place is [2^e], and
    [n / d] is rounded to a multiple [q * 2^e] of it; from [2^1024] on the
    result is [Infinity]. *)
Definition nearest (n d : Z) : value :=
  if ((n mod d =? 0) && (n / d <=? 2 ^ 53))%Z then VNum (n / d)
  else
    let l := (Z.log2 n - Z.log2 d)%Z in
    let E := let '(a, b) := scaled n d l in if (b <=? a)%Z then l else (l - 1)%Z in
    let e := Z.max (E - 52) (-1074) in
    let '(a, b) := scaled n d e in
    let q := (a / b)%Z in
    let r := (a mod b)%Z in
    let q := if ((b <? 2 * r) || ((2 * r =? b) && Z.odd q))%Z then (q + 1)%Z else q in
    if (2 ^ 1024 <=? q * 2 ^ e)%Z then VInf false else dyadic q e.

(** The double nearest to [n / d], for [0 < d]. *)
Definition number (n d : Z) : value :=
  match n with
  | Z0 => VNum 0
  | Zpos _ => nearest n d
  | Zneg _ => neg (nearest (- n) d)
  end.

Fixpoint span (p : ascii -> bool) (l : list ascii) : list ascii * list ascii :=
  match l with
  | c :: l' =>
      if p c then let '(a, b) := span p l' in (c :: a, b) else ([], l)
  | [] => ([], [])
  end.

Definition in_range (a b : nat) (c : ascii) : bool :=
  let n := nat_of_ascii c in ((a <=? n) && (n <=? b))%nat.

Definition is_hex (c : ascii) : bool :=
  is_digit c || in_range 97 102 c || in_range 65 70 c.
Definition is_octal (c : ascii) : bool := in_range 48 55 c.
Definition is_binary (c : ascii) : bool := in_range 48 49 c.

Definition digit_value (c : ascii) : Z :=
  let n := Z.of_nat (nat_of_ascii c) in
  if is_digit c then (n - 48)%Z
  else if in_range 97 102 c then (n - 87)%Z
  else (n - 55)%Z.

(** The value of a run of digits in a base. *)
Definition digits_value (base : Z) (ds : list ascii) : Z :=
  fold_left (fun acc c => (base * acc + digit_value c)%Z) ds 0%Z.

Definition all_digits (p : ascii -> bool) (ds : list ascii) : bool :=
  match ds with
  | [] => false
  | _ :: _ => forallb p ds
  end.

(** ExponentPart, or nothing, up to the end of the literal. *)
Definition exponent (l : list ascii) : option Z :=
  match l with
  | [] => Some 0%Z
  | c :: l' =>
      if Ascii.eqb c "e" || Ascii.eqb c "E"
      then
        let '(sign, ds) :=
          match l' with
          | "+"%char :: ds => (1%Z, ds)
          | "-"%char :: ds => ((-1)%Z, ds)
          | _ => (1%Z, l')
          end in
        if all_digits is_digit ds then Some (sign * digits_value 10 ds)%Z else None
      else None
  end.

(** StrUnsignedDecimalLiteral: [Infinity], or digits with an optional
    fraction and an optional exponent, one digit at least. *)
Definition unsigned_decimal (l : list ascii) : option value :=
  if bool_decide (l = list_ascii_of_string "Infinity") then Some (VInf false)
  else
    let '(ip, r) := span is_digit l in
    let '(fp, r) :=
      match r with
      | "."%char :: r' => span is_digit r'
      | _ => ([], r)
      end in
    match ip ++ fp, exponent r with
    | _ :: _, Some x =>
        let n := digits_value 10 (ip ++ fp) in
        let x := (x - Z.of_nat (length fp))%Z in
        Some (if (0 <=? x)%Z then number (n * 10 ^ x) 1 else number n (10 ^ (- x)))
    | _, _ => None
    end.

(** StrNumericLiteral: a literal in base 16, 8 or 2, which takes no sign,
    or a decimal literal with an optional sign. *)
Definition numeric_literal (l : list ascii) : option value :=
  let based (base : Z) (p : ascii -> bool) (ds : list ascii) :=
    if all_digits p ds then Some (number (digits_value base ds) 1) else None in
  match l with
  | "0"%char :: "x"%char :: ds | "0"%char :: "X"%char :: ds => based 16%Z is_hex ds
  | "0"%char :: "o"%char :: ds | "0"%char :: "O"%char :: ds => based 8%Z is_octal ds
  | "0"%char :: "b"%char :: ds | "0"%char :: "B"%char :: ds => based 2%Z is_binary ds
  | "+"%char :: l' => unsigned_decimal l'
  | "-"%char :: l' => neg <$> unsigned_decimal l'
  | _ => unsigned_decimal l
  end.

(** StringToNumber: surrounding white space is dropped; the empty string
    is 0; a numeric literal is the double nearest to its value; anything
    else is [NaN]. *)
Definition StringToNumber (s : string) : value :=
  match trim_chars (list_ascii_of_string s) with
  | [] => VNum 0
  | l => default VNaN (numeric_literal l)
  end.

(** [Number(v)] *)
Definition Number_ (v : value) : value :=
  match v with
  | VUndefined => VNaN
  | VNull => VNum 0
  | VBool b => VNum (if b then 1 else 0)
  | VStr s => StringToNumber s
  | VNum _ | VNaN | VFrac _ _ | VInf _ => v
  end.

(** A finite number as a fraction [m / 2^k]. *)
Definition fraction (v : value) : Z * Z :=
  match v with
  | VNum n => (n, 0%Z)
  | VFrac m k => (m, Zpos k)
  | _ => (0%Z, 0%Z)
  end.

(** [a < b] for two numbers other than [NaN]. *)
Definition less (a b : value) : bool :=
  match a, b with
  | VInf true, VInf true => false
  | VInf true, _ => true
  | _, VInf true => false
  | VInf false, _ => false
  | _, VInf false => true
  | _, _ =>
      let '(m, k) := fraction a in
      let '(m', k') := fraction b in
      (m * 2 ^ k' <? m' * 2 ^ k)%Z
  end.

(** [Math.max(v, ...vs)] on a non-empty argument list: every argument is
    converted with ToNumber, and one [NaN] makes the result [NaN]. *)
Fixpoint Math_max (v : value) (vs : list value) : value :=
  match vs with
  | [] => Number_ v
  | v' :: vs' =>
      match Number_ v, Math_max v' vs' with
      | VNaN, _ | _, VNaN => VNaN
      | VNum a, VNum b => VNum (Z.max a b)
      | a, b => if less a b then b else a
      end
  end.

(** [v + 1] for a number [v]: the double nearest to the sum. *)
Definition plus_one (v : value) : value :=
  match v with
  | VNum n => number (n + 1) 1
  | VFrac m k => number (m + 2 ^ Zpos k) (2 ^ Zpos k)
  | VInf b => VInf b
  | _ => VNaN
  end.

(** [arr.findIndex(pred)]; [None] stands for [-1]. *)
Fixpoint findIndex {A} (pred : A -> bool) (l : list A) : option nat :=
  match l with
  | [] => None
  | x :: l' => if pred x then Some 0%nat else S <$> findIndex pred l'
  end.

(** [arr.find(pred)]; [None] stands for [undefined]. *)
Fixpoint find {A} (pred : A -> bool) (l : list A) : option A :=
  match l with
  | [] => None
  | x :: l' => if pred x then Some x else find pred l'
  end.

End Js.

Import Js.

(** ** The world of a service: files, console, clock *)

Module Sys.

Inductive event : Type :=
| ConsoleLog (msg : string)
| ConsoleError (msg : string)
| FsMkdir (path : string)
| FsRead (path : string) (ok : bool)
| FsWrite (path content : string) (ok : bool).

(** [files] maps a path to the text of the file; [disk_ok] tells whether
    [writeFile] succeeds; [now_iso] is what [new Date().toISOString()]
    returns; [trace] records console output and file-system calls, most
    recent last. *)
Record World : Type := mkWorld {
  files : gmap string string;
  disk_ok : bool;
  now_iso : string;
  trace : list event
}.

Definition emit (e : event) (w : World) : World :=
  mkWorld (files w) (disk_ok w) (now_iso w) (trace w ++ [e]).

Definition store_file (p c : string) (w : World) : World :=
  mkWorld (<[p := c]> (files w)) (disk_ok w) (now_iso w) (trace w).

(** A computation of a method of an object of type [T]: it may change the
    object and the world and either returns or throws.  The state reached
    when an exception is thrown is kept. *)
Inductive outcome (A : Type) : Type :=
| Return (a : A)
| Throw (err : string).
Arguments Return {A} a.
Arguments Throw {A} err.

Definition M (T A : Type) : Type := T * World -> outcome A * (T * World).

Definition ret {T A} (a : A) : M T A := fun s => (Return a, s).

Definition bind {T A B} (m : M T A) (k : A -> M T B) : M T B :=
  fun s =>
    match m s with
    | (Return a, s') => k a s'
    | (Throw e, s') => (Throw e, s')
    end.

Definition throw {T A} (e : string) : M T A := fun s => (Throw e, s).

(** [try { m } catch (error) { h error }] *)
Definition try_catch {T A} (m : M T A) (h : string -> M T A) : M T A :=
  fun s =>
    match m s with
    | (Return a, s') => (Return a, s')
    | (Throw e, s') => h e s'
    end.

Definition this {T} : M T T := fun s => (Return (fst s), s).

Definition assign {T} (f : T -> T) : M T unit :=
  fun s => (Return tt, (f (fst s), snd s)).

Definition console_log {T} (msg : string) : M T unit :=
  fun s => (Return tt, (fst s, emit (ConsoleLog msg) (snd s))).

Definition console_error {T} (msg : string) : M T unit :=
  fun s => (Return tt, (fst s, emit (ConsoleError msg) (snd s))).

Definition date_now_iso {T} : M T string :=
  fun s => (Return (now_iso (snd s)), s).

(** [fs.existsSync(p)] *)
Definition existsSync {T} (p : string) : M T bool :=
  fun s => (Return (bool_decide (is_Some (files (snd s) !! p))), s).

(** [fs.promises.mkdir(dir, { recursive: true })]: directories are not
    part of the model, the call is recorded only. *)
Definition mkdir {T} (p : string) : M T unit :=
  fun s => (Return tt, (fst s, emit (FsMkdir p) (snd s))).

(** [fs.promises.readFile(p, 'utf-8')]: rejects when the file is absent. *)
Definition readFile {T} (p : string) : M T string :=
  fun s =>
    match files (snd s) !! p with
    | Some c => (Return c, (fst s, emit (FsRead p true) (snd s)))
    | None => (Throw "ENOENT", (fst s, emit (FsRead p false) (snd s)))
    end.

(** [fs.promises.writeFile(p, c, 'utf-8')]: replaces the whole file, or
    rejects and leaves it as it was. *)
Definition writeFile {T} (p c : string) : M T unit :=
  fun s =>
    if disk_ok (snd s)
    then (Return tt, (fst s, emit (FsWrite p c true) (store_file p c (snd s))))
    else (Throw "EIO", (fst s, emit (FsWrite p c false) (snd s))).

End Sys.

Import Sys.

Notation "'let*' x ':=' m 'in' k" := (Sys.bind m (fun x => k))
  (at level 10, x name, m at level 100, k at level 200).
Notation "'exec' m 'in' k" := (Sys.bind m (fun _ => k))
  (at level 10, m at level 100, k at level 200).

(** [JSON.parse] and [JSON.stringify(_, null, 2)] on arrays of records.
    [JSON_parse] is [None] where [JSON.parse] throws a [SyntaxError]. *)
Class JSON : Type := {
  JSON_parse : string -> option (list record);
  JSON_stringify : list record -> string;
  JSON_parse_empty_array : JSON_parse "[]" = Some []
}.

Definition parse {T} `{JSON} (data : string) : M T (list record) :=
  match JSON_parse data with
  | Some l => Sys.ret l
  | None => Sys.throw "SyntaxError"
  end.

(** ** services/projectService.js *)

Module ProjectService.

Record t : Type := mk { projects : list record; initialized : bool }.

Definition DATA_FILE_PATH : string := "src/data/projects.json".

(** The constructor: [this.projects = []; this.initialized = false]. *)
Definition new : t := mk [] false.

Definition set_projects (l : list record) (o : t) : t := mk l (initialized o).
Definition set_initialized (b : bool) (o : t) : t := mk (projects o) b.

(** The console messages are written without the leading pictograph. *)
Definition init `{JSON} : M t unit :=
  let* o := this in
  if initialized o then ret tt
  else
    try_catch
      (let* data := readFile DATA_FILE_PATH in
       let* parsed := parse data in
       exec assign (set_projects parsed) in
       exec assign (set_initialized true) in
       console_log "Bolt: Projects loaded into memory for fast access.")
      (fun error =>
         exec console_error "Failed to load projects.json:" in
         exec assign (set_projects []) in
         assign (set_initialized true)).

Definition getProjects : M t (list record) :=
  let* o := this in ret (projects o).

Definition getProjectById (id : value) : M t (option record) :=
  let* o := this in
  ret (find (fun p => strict_eq (get p "id") (Number_ id)) (projects o)).

Definition _save `{JSON} : M t unit :=
  try_catch
    (let* o := this in
     writeFile DATA_FILE_PATH (JSON_stringify (projects o)))
    (fun error =>
       exec console_error "Failed to save projects to disk:" in
       throw "Failed to save project data").

Definition addProject `{JSON} (projectData : record) : M t record :=
  let* o := this in
  let newId :=
    match map (fun p => get p "id") (projects o) with
    | [] => VNum 1
    | v :: vs => plus_one (Math_max v vs)
    end in
  let newProject := spread {[ "id" := newId ]} projectData in
  exec assign (fun o => set_projects (projects o ++ [newProject]) o) in
  exec _save in
  ret newProject.

(** The result [None] is [null]; [Some (updatedProject, oldProject)] is the
    object [{ updatedProject, oldProject }].  The element at an index that
    [findIndex] returned is always there: the inner [None] case stands for
    an [undefined] that cannot arise. *)
Definition updateProject `{JSON} (id : value) (updateData : record)
  : M t (option (record * record)) :=
  let projectId := Number_ id in
  let* o := this in
  match findIndex (fun p => strict_eq (get p "id") projectId) (projects o) with
  | None => ret None
  | Some index =>
      match projects o !! index with
      | None => ret None
      | Some oldProject =>
          let updatedProject := spread oldProject updateData in
          exec assign (fun o => set_projects (<[index := updatedProject]> (projects o)) o) in
          exec _save in
          ret (Some (updatedProject, oldProject))
      end
  end.

(** [splice(index, 1)] removes the element at [index] and yields it. *)
Definition deleteProject `{JSON} (id : value) : M t (option record) :=
  let projectId := Number_ id in
  let* o := this in
  match findIndex (fun p => strict_eq (get p "id") projectId) (projects o) with
  | None => ret None
  | Some index =>
      match projects o !! index with
      | None => ret None
      | Some deletedProject =>
          exec assign (fun o => set_projects (delete index (projects o)) o) in
          exec _save in
          ret (Some deletedProject)
      end
  end.

End ProjectService.

(** ** services/articleService.js *)

Module ArticleService.

Record t : Type := mk { articles : list record; initialized : bool }.

Definition DATA_FILE_PATH : string := "src/data/articles.json".
Definition DATA_DIR : string := "src/data".

Definition new : t := mk [] false.

Definition set_articles (l : list record) (o : t) : t := mk l (initialized o).
Definition set_initialized (b : bool) (o : t) : t := mk (articles o) b.

Definition init `{JSON} : M t unit :=
  let* o := this in
  if initialized o then ret tt
  else
    try_catch
      (let* present := existsSync DATA_FILE_PATH in
       exec (if negb present
             then exec mkdir DATA_DIR in writeFile DATA_FILE_PATH "[]"
             else ret tt) in
       let* data := readFile DATA_FILE_PATH in
       let* parsed := parse data in
       exec assign (set_articles parsed) in
       exec assign (set_initialized true) in
       console_log "Bolt: Articles loaded into memory for fast access.")
      (fun error =>
         exec console_error "Failed to load articles.json:" in
         exec assign (set_articles []) in
         assign (set_initialized true)).

Definition getArticles : M t (list record) :=
  let* o := this in ret (articles o).

Definition getArticleById (id : value) : M t (option record) :=
  let* o := this in
  ret (find (fun a => strict_eq (get a "id") (Number_ id)) (articles o)).

Definition _save `{JSON} : M t unit :=
  try_catch
    (let* o := this in
     writeFile DATA_FILE_PATH (JSON_stringify (articles o)))
    (fun error =>
       exec console_error "Failed to save articles to disk:" in
       throw "Failed to save article data").

Definition addArticle `{JSON} (articleData : record) : M t record :=
  let* o := this in
  let newId :=
    match map (fun a => get a "id") (articles o) with
    | [] => VNum 1
    | v :: vs => plus_one (Math_max v vs)
    end in
  let* now := date_now_iso in
  let newArticle :=
    spread (spread {[ "id" := newId ]} articleData)
           {[ "date" := or_else (get articleData "date") (VStr now) ]} in
  exec assign (fun o => set_articles (articles o ++ [newArticle]) o) in
  exec _save in
  ret newArticle.

Definition updateArticle `{JSON} (id : value) (updateData : record)
  : M t (option (record * record)) :=
  let articleId := Number_ id in
  let* o := this in
  match findIndex (fun a => strict_eq (get a "id") articleId) (articles o) with
  | None => ret None
  | Some index =>
      match articles o !! index with
      | None => ret None
      | Some oldArticle =>
          let updatedArticle := spread oldArticle updateData in
          exec assign (fun o => set_articles (<[index := updatedArticle]> (articles o)) o) in
          exec _save in
          ret (Some (updatedArticle, oldArticle))
      end
  end.

Definition deleteArticle `{JSON} (id : value) : M t (option record) :=
  let articleId := Number_ id in
  let* o := this in
  match findIndex (fun a => strict_eq (get a "id") articleId) (articles o) with
  | None => ret None
  | Some index =>
      match articles o !! index with
      | None => ret None
      | Some deletedArticle =>
          exec assign (fun o => set_articles (delete index (articles o)) o) in
          exec _save in
          ret (Some deletedArticle)
      end
  end.

End ArticleService.

(** ** String helpers shared by the middleware *)

Module Str.

(** [s.split(sep)] for a one-character separator. *)
Fixpoint split_chars (sep : ascii) (cur : list ascii) (l : list ascii)
  : list (list ascii) :=
  match l with
  | [] => [rev cur]
  | c :: l' =>
      if Ascii.eqb c sep
      then rev cur :: split_chars sep [] l'
      else split_chars sep (c :: cur) l'
  end.

Definition split (sep : ascii) (s : string) : list string :=
  map string_of_list_ascii (split_chars sep [] (list_ascii_of_string s)).

(** [s.startsWith(p)] *)
Definition startsWith (s p : string) : bool := String.prefix p s.

(** Truthiness of a possibly undefined string: [undefined] and the empty
    string are falsy. *)
Definition truthy (o : option string) : bool :=
  match o with
  | Some s => negb (String.eqb s "")
  | None => false
  end.

(** [a || b] on possibly undefined strings. *)
Definition or_else (a b : option string) : option string :=
  if truthy a then a else b.

(** [arr.includes(x)] for an array of strings and a possibly undefined [x]. *)
Definition includes (arr : list string) (x : option string) : bool :=
  match x with
  | Some s => existsb (String.eqb s) arr
  | None => false
  end.

(** [toLowerCase] on 8-bit code units read as Latin-1: A-Z, and the
    accented capitals 192-222 except the multiplication sign 215. *)
Definition lower_char (c : ascii) : ascii :=
  let n := nat_of_ascii c in
  if (((65 <=? n) && (n <=? 90))
      || ((192 <=? n) && (n <=? 222) && negb (n =? 215)))%nat
  then ascii_of_nat (n + 32)
  else c.

Definition toLowerCase (s : string) : string :=
  string_of_list_ascii (map lower_char (list_ascii_of_string s)).

End Str.

(** ** middleware/adminAuth.js *)

Module AdminAuth.

(** [process.env]; [None] is [undefined]. *)
Record Env : Type := mkEnv {
  ADMIN_ALLOWED_IPS : option string;
  NODE_ENV : option string;
  ADMIN_TOKEN : option string
}.

Record Request : Type := mkRequest {
  ip : option string;               (* req.ip *)
  remoteAddress : option string;    (* req.connection.remoteAddress *)
  path : string;                    (* req.path *)
  authorization : option string     (* req.headers.authorization *)
}.

(** The two module-level variables. *)
Record State : Type := mkState {
  allowedIpsStr : string;
  allowedIps : list string
}.

Definition initial : State := mkState "" [].

(** [logSecurityEvent(name, { ip, path })] *)
Inductive SecurityEvent : Type :=
| Event (name : string) (ip : option string) (path : string).

(** [res.status(code).json({ success: false, message })], or [next()]. *)
Inductive Outcome : Type :=
| Respond (status : nat) (message : string)
| Next.

Definition nonempty (s : string) : bool := negb (String.eqb s "").

(** The lazy initialisation at the head of [adminAuth]. *)
Definition lazy_init (env : Env) (st : State) : State :=
  match ADMIN_ALLOWED_IPS env with
  | Some v =>
      if negb (nonempty (allowedIpsStr st))
      then mkState v (filter (fun ip => nonempty ip = true)
                             (map Js.trim (Str.split "," v)))
      else st
  | None => st
  end.

Definition clientIp (req : Request) : option string :=
  Str.or_else (ip req) (remoteAddress req).

Definition isLocalhost (c : option string) : bool :=
  match c with
  | Some s => String.eqb s "127.0.0.1" || String.eqb s "::1"
              || String.eqb s "::ffff:127.0.0.1"
  | None => false
  end.

Definition isLocalDev (env : Env) : bool :=
  negb (bool_decide (NODE_ENV env = Some "production")).

(** Step 2 of the gate, the bearer token. *)
Definition tokenCheck (env : Env) (req : Request) : Outcome * list SecurityEvent :=
  let c := clientIp req in
  match authorization req with
  | Some authHeader =>
      if nonempty authHeader && Str.startsWith authHeader "Bearer "
      then
        let token := Str.split " " authHeader !! 1%nat in
        let expectedToken :=
          if isLocalDev env
          then Str.or_else (ADMIN_TOKEN env) (Some "admin_secret_token")
          else ADMIN_TOKEN env in
        if negb (Str.truthy expectedToken)
           || negb (bool_decide (token = expectedToken))
        then (Respond 401 "Unauthorized: Invalid token",
              [Event "admin_auth_failed" c (path req)])
        else (Next, [])
      else (Respond 401 "Unauthorized: Missing or invalid token format",
            [Event "admin_auth_missing" c (path req)])
  | None => (Respond 401 "Unauthorized: Missing or invalid token format",
             [Event "admin_auth_missing" c (path req)])
  end.

(** Step 1 of the gate: is the request stopped at the IP whitelist? *)
Definition ipBlocked (env : Env) (st : State) (req : Request) : bool :=
  let c := clientIp req in
  let bypassIpCheck := isLocalDev env && isLocalhost c in
  negb bypassIpCheck
  && negb (String.eqb (allowedIpsStr st) "*")
  && (negb (nonempty (allowedIpsStr st)) || negb (Str.includes (allowedIps st) c)).

(** [adminAuth(req, res, next)], lines 15-59 of the file. *)
Definition adminAuth (env : Env) (req : Request) (st : State)
  : Outcome * list SecurityEvent * State :=
  let st' := lazy_init env st in
  if ipBlocked env st' req
  then (Respond 403 "Forbidden: IP not authorized",
        [Event "admin_ip_blocked" (clientIp req) (path req)], st')
  else (tokenCheck env req, st').

(** The same file carries a second definition of the gate (lines 75-111)
    that has neither the localhost bypass nor the development token. *)
Definition tokenCheck_strict (env : Env) (req : Request)
  : Outcome * list SecurityEvent :=
  let c := clientIp req in
  match authorization req with
  | Some authHeader =>
      if nonempty authHeader && Str.startsWith authHeader "Bearer "
      then
        let token := Str.split " " authHeader !! 1%nat in
        let expectedToken := ADMIN_TOKEN env in
        if negb (Str.truthy expectedToken)
           || negb (bool_decide (token = expectedToken))
        then (Respond 401 "Unauthorized: Invalid token",
              [Event "admin_auth_failed" c (path req)])
        else (Next, [])
      else (Respond 401 "Unauthorized: Missing or invalid token format",
            [Event "admin_auth_missing" c (path req)])
  | None => (Respond 401 "Unauthorized: Missing or invalid token format",
             [Event "admin_auth_missing" c (path req)])
  end.

Definition adminAuth_strict (env : Env) (req : Request) (st : State)
  : Outcome * list SecurityEvent * State :=
  let st' := lazy_init env st in
  if negb (String.eqb (allowedIpsStr st') "*")
     && (negb (nonempty (allowedIpsStr st'))
         || negb (Str.includes (allowedIps st') (clientIp req)))
  then (Respond 403 "Forbidden: IP not authorized",
        [Event "admin_ip_blocked" (clientIp req) (path req)], st')
  else (tokenCheck_strict env req, st').

End AdminAuth.

(** ** config/security.js: the contact limiter *)

Module Security.

(** What the limiter and the route read of a request. *)
Record Request : Type := mkRequest {
  ip : option string;               (* req.ip *)
  remoteAddress : option string;    (* req.connection.remoteAddress *)
  body : option record              (* req.body, parsed before the route *)
}.

(** [res.status(code).json(...)] *)
Inductive Reply : Type :=
| Json (status : nat) (message : string).






(** The handler of the limiter: [res.status(429).json(options.message)];
    the message is written here without its accents. *)
Definition handler (req : Request) : Reply :=
  Json 429 "Limite de envios atingido. Voce pode enviar ate 5 mensagens por hora.".




End Security.

(** ** Regular expressions of utils/validators.js

    A backtracking matcher for the constructs the sanitizer uses, with the
    priorities of ECMAScript: a greedy star tries the longest run first, a
    lazy star the shortest, alternatives are tried left to right.  The
    matcher yields the length of the match found at the head of the input. *)

Module Regex.

Inductive atom : Type :=
| Lit (s : string)             (* literal text; letters match in either case *)
| Class (p : ascii -> bool)    (* one character of a class *)
| Star (p : ascii -> bool)     (* [p*] *)
| Plus (p : ascii -> bool)     (* [p+] *)
| LazyStar (p : ascii -> bool) (* [p*?] *)
| Group (alts : list string)   (* [(a|b|...)], the capture group 1 *)
| Backref.                     (* [\1] *)

Definition regex : Type := list atom.

(** Case folding of the flag [i]: only A-Z and a-z are identified. *)
Definition fold_case (c : ascii) : ascii :=
  let n := nat_of_ascii c in
  if ((65 <=? n) && (n <=? 90))%nat then ascii_of_nat (n + 32) else c.

Definition eq_ci (a b : ascii) : bool := Ascii.eqb (fold_case a) (fold_case b).

Fixpoint strip_prefix_ci (p s : list ascii) : option (list ascii) :=
  match p, s with
  | [], _ => Some s
  | a :: p', c :: s' => if eq_ci a c then strip_prefix_ci p' s' else None
  | _ :: _, [] => None
  end.

Section Repetition.

Variable p : ascii -> bool.
Variable k : list ascii -> option nat.

(** [p*] followed by [k]: the longest run first. *)
Fixpoint greedy (s : list ascii) : option nat :=
  match s with
  | c :: s' =>
      if p c
      then match greedy s' with
           | Some n => Some (S n)
           | None => k s
           end
      else k s
  | [] => k []
  end.

(** [p*?] followed by [k]: the shortest run first. *)
Fixpoint lazy (s : list ascii) : option nat :=
  match k s with
  | Some n => Some n
  | None =>
      match s with
      | c :: s' => if p c then S <$> lazy s' else None
      | [] => None
      end
  end.

End Repetition.

Fixpoint alternatives (ws : list string)
    (k : list ascii -> list ascii -> option nat) (s : list ascii) : option nat :=
  match ws with
  | [] => None
  | w :: ws' =>
      let lw := list_ascii_of_string w in
      match strip_prefix_ci lw s with
      | Some s' =>
          match k (take (length lw) s) s' with
          | Some n => Some (length lw + n)%nat
          | None => alternatives ws' k s
          end
      | None => alternatives ws' k s
      end
  end.

(** [match_here r cap s]: the length of the match of [r] at the head of
    [s], where [cap] is the text captured by group 1 so far. *)
Fixpoint match_here (r : regex) (cap : list ascii) (s : list ascii) : option nat :=
  match r with
  | [] => Some 0%nat
  | Lit l :: r' =>
      let ll := list_ascii_of_string l in
      match strip_prefix_ci ll s with
      | Some s' => (fun n => length ll + n)%nat <$> match_here r' cap s'
      | None => None
      end
  | Class p :: r' =>
      match s with
      | c :: s' => if p c then S <$> match_here r' cap s' else None
      | [] => None
      end
  | Star p :: r' => greedy p (match_here r' cap) s
  | Plus p :: r' =>
      match s with
      | c :: s' => if p c then S <$> greedy p (match_here r' cap) s' else None
      | [] => None
      end
  | LazyStar p :: r' => lazy p (match_here r' cap) s
  | Group ws :: r' => alternatives ws (fun captured s' => match_here r' captured s') s
  | Backref :: r' =>
      match strip_prefix_ci cap s with
      | Some s' => (fun n => length cap + n)%nat <$> match_here r' cap s'
      | None => None
      end
  end.

(** [s.replace(/r/g, rep)]: the input is scanned from the left; [skip] is
    the number of characters still covered by the last match.  After an
    empty match the scan moves on by one character. *)
Fixpoint replace_from (r : regex) (rep : list ascii) (skip : nat)
    (s : list ascii) : list ascii :=
  match s with
  | [] =>
      match skip, match_here r [] [] with
      | O, Some _ => rep
      | _, _ => []
      end
  | c :: s' =>
      match skip with
      | S k => replace_from r rep k s'
      | O =>
          match match_here r [] s with
          | Some (S n) => rep ++ replace_from r rep n s'
          | Some O => rep ++ c :: replace_from r rep 0 s'
          | None => c :: replace_from r rep 0 s'
          end
      end
  end.

Definition replace (r : regex) (rep : string) (s : list ascii) : list ascii :=
  replace_from r (list_ascii_of_string rep) 0 s.

(** [r.test(s)] without the sticky flag: is there a match somewhere? *)
Fixpoint test (r : regex) (s : list ascii) : bool :=
  match match_here r [] s with
  | Some _ => true
  | None => match s with
            | [] => false
            | _ :: s' => test r s'
            end
  end.

End Regex.

(** ** utils/validators.js *)

Module Validators.

Import Regex.

Definition dquote : ascii := ascii_of_nat 34.
Definition squote : ascii := ascii_of_nat 39.

Definition any_char (c : ascii) : bool := true.                 (* [\s\S] *)
Definition not_gt (c : ascii) : bool := negb (Ascii.eqb c ">"). (* [^>] *)
Definition is_quote (c : ascii) : bool :=      (* the class of both quotes *)
  Ascii.eqb c dquote || Ascii.eqb c squote.
Definition not_quote (c : ascii) : bool := negb (is_quote c). (* its complement *)
Definition is_word (c : ascii) : bool :=                         (* \w *)
  let n := nat_of_ascii c in
  (((48 <=? n) && (n <=? 57)) || ((65 <=? n) && (n <=? 90))
   || ((97 <=? n) && (n <=? 122)) || (n =? 95))%nat.
Definition is_lt (c : ascii) : bool := Ascii.eqb c "<".
Definition is_gt (c : ascii) : bool := Ascii.eqb c ">".
Definition is_nul (c : ascii) : bool := Ascii.eqb c zero.

(** [/<script[^>]*>[\s\S]*?<\/script>/gi] *)
Definition re_script_block : regex :=
  [Lit "<script"; Star not_gt; Lit ">"; LazyStar any_char; Lit "</script>"].

(** [/\s*on\w+\s*=\s*Q[^Q]*Q/gi], where Q stands for the class of the
    double and the single quote. *)
Definition re_event_handler : regex :=
  [Star is_space; Lit "on"; Plus is_word; Star is_space; Lit "=";
   Star is_space; Class is_quote; Star not_quote; Class is_quote].

(** [/(javascript|data):/gi] *)
Definition re_protocol : regex :=
  [Group ["javascript"; "data"]; Lit ":"].

(** [/<(iframe|object|embed|form)[^>]*>[\s\S]*?<\/\1>/gi] *)
Definition re_embed_block : regex :=
  [Lit "<"; Group ["iframe"; "object"; "embed"; "form"]; Star not_gt; Lit ">";
   LazyStar any_char; Lit "</"; Backref; Lit ">"].

(** [/<style[^>]*>[\s\S]*?<\/style>/gi] *)
Definition re_style_block : regex :=
  [Lit "<style"; Star not_gt; Lit ">"; LazyStar any_char; Lit "</style>"].

(** [/<(script|iframe|object|embed|form|input|textarea|button|link|meta)[^>]*>/gi] *)
Definition dangerousTags : regex :=
  [Lit "<";
   Group ["script"; "iframe"; "object"; "embed"; "form"; "input"; "textarea";
          "button"; "link"; "meta"];
   Star not_gt; Lit ">"].

(** The body of [sanitizeMessage] on the characters of a non-empty string. *)
Definition sanitize_chars (text : list ascii) : list ascii :=
  let sanitized := text in
  let sanitized := replace re_script_block "" sanitized in
  let sanitized := replace re_event_handler "" sanitized in
  let sanitized := replace re_protocol "" sanitized in
  let sanitized := replace re_embed_block "" sanitized in
  let sanitized := replace re_style_block "" sanitized in
  let sanitized := replace dangerousTags "" sanitized in
  let sanitized := replace [Class is_gt] "&gt;"
                     (replace [Class is_lt] "&lt;" sanitized) in
  let sanitized := replace [Class is_nul] "" sanitized in
  let sanitized := trim_chars (replace [Plus is_space] " " sanitized) in
  sanitized.

(** [sanitizeMessage(text)]: [''] unless [text] is a non-empty string. *)
Definition sanitizeMessage (text : value) : string :=
  match text with
  | VStr s =>
      if String.eqb s "" then ""
      else string_of_list_ascii (sanitize_chars (list_ascii_of_string s))
  | _ => ""
  end.

(** The object returned by [checkEmailRateLimit]; [resetTime] is [null]
    when the submission is allowed. *)
Record Limit : Type := mkLimit {
  allowed : bool;
  remaining : Z;
  resetTime : value
}.

(** [checkEmailRateLimit(email, maxSubmissions, windowMs)] at the instant
    [now] read from [Date.now()], on the module-level map
    [emailSubmissions]. *)
Definition checkEmailRateLimit (now : Z) (email : string)
    (maxSubmissions : nat) (windowMs : Z)
    (emailSubmissions : gmap string (list Z)) : Limit * gmap string (list Z) :=
  let key := Str.toLowerCase email in
  let emailSubmissions :=
    match emailSubmissions !! key with
    | Some _ => emailSubmissions
    | None => <[key := []]> emailSubmissions
    end in
  let submissions := default [] (emailSubmissions !! key) in
  let validSubmissions :=
    List.filter (fun time => (now - time <? windowMs)%Z) submissions in
  if (maxSubmissions <=? length validSubmissions)%nat
  then (mkLimit false 0
          match validSubmissions !! 0%nat with
          | Some t => VNum (t + windowMs)
          | None => VNaN
          end,
        emailSubmissions)
  else
    let validSubmissions := validSubmissions ++ [now] in
    (mkLimit true (Z.of_nat maxSubmissions - Z.of_nat (length validSubmissions)) VNull,
     <[key := validSubmissions]> emailSubmissions).

End Validators.

(** ** routes/contact.js: the handler of POST /api/contact *)

Module Contact.

Import Validators.

Inductive Reply : Type :=
| TooMany (retryAfter : value)      (* 429 with [retryAfter] *)
| Sent (messageId : string)          (* 200 with [data.messageId] *)
| Failed (message : string).         (* 500 *)

(** [Math.ceil((resetTime - now) / 1000)] *)
Definition retryAfter (resetTime : value) (now : Z) : value :=
  match resetTime with
  | VNum r => VNum (- ((- (r - now)) / 1000))
  | VNull => VNum (- ((- (0 - now)) / 1000))
  | _ => VNaN
  end.

(** The handler after validation.  [t_check] is the instant read by
    [checkEmailRateLimit], [t_reply] the one read afterwards by the handler
    itself when it builds the 429 answer; [send] is the outcome of
    [sendContactEmail], a message id or the message of the error thrown. *)
Definition handler (t_check t_reply : Z) (email : string)
    (send : string + string)
    (emailSubmissions : gmap string (list Z)) : Reply * gmap string (list Z) :=
  let '(emailLimit, emailSubmissions) :=
    checkEmailRateLimit t_check email 5 3600000 emailSubmissions in
  if negb (allowed emailLimit)
  then (TooMany (retryAfter (resetTime emailLimit) t_reply), emailSubmissions)
  else
    match send with
    | inl messageId => (Sent messageId, emailSubmissions)
    | inr error => (Failed error, emailSubmissions)
    end.

End Contact.

(** ** templates/emailTemplates.js: escaping of the interpolated fields *)

Module Templates.

Import Regex Validators.

Definition is_amp (c : ascii) : bool := Ascii.eqb c "&".
Definition is_dquote (c : ascii) : bool := Ascii.eqb c dquote.
Definition is_squote (c : ascii) : bool := Ascii.eqb c squote.

(** The five replacements, in the order of the source: the ampersand
    first, so that the ampersands of the entities written afterwards are
    not escaped again. *)
Definition escape_chars (text : list ascii) : list ascii :=
  let text := replace [Class is_amp] "&amp;" text in
  let text := replace [Class is_lt] "&lt;" text in
  let text := replace [Class is_gt] "&gt;" text in
  let text := replace [Class is_dquote] "&quot;" text in
  let text := replace [Class is_squote] "&#039;" text in
  text.

(** [escapeHtml(text)]: [''] for a falsy [text]; a string goes through the
    replacements; any other truthy value has no method [replace], and the
    call throws a TypeError ([None]). *)
Definition escapeHtml (text : value) : option string :=
  if negb (truthy text) then Some ""
  else
    match text with
    | VStr s => Some (string_of_list_ascii (escape_chars (list_ascii_of_string s)))
    | _ => None
    end.

End Templates.

(** ** utils/validators.js: detection of attack patterns *)

Module AttackPatterns.

Import Regex Validators.

(** A literal text in a regular expression without the flag [i]: every
    character matches itself only. *)
Definition literal (s : string) : regex :=
  map (fun a => Class (Ascii.eqb a)) (list_ascii_of_string s).

(** [r1|r2|...].test(s): one of the alternatives matches somewhere. *)
Definition test_any (rs : list regex) (s : list ascii) : bool :=
  existsb (fun r => test r s) rs.

Definition starts_with_word (s : list ascii) : bool :=
  match s with
  | c :: _ => is_word c
  | [] => false
  end.

(** [\b] at a position: exactly one of the character before it
    ([before] tells whether it is a word character; there is none at the
    start of the text) and the character after it is a word character. *)
Definition boundary (before : bool) (s : list ascii) : bool :=
  xorb before (starts_with_word s).

Definition sql_keywords : list string :=
  ["SELECT"; "INSERT"; "UPDATE"; "DELETE"; "DROP"; "UNION"; "EXEC"; "SCRIPT"].

(** [\b(SELECT|...|SCRIPT)\b] with the flag [i], at the head of [s]. *)
Definition keyword_here (before : bool) (s : list ascii) : bool :=
  boundary before s
  && existsb
       (fun w =>
          let lw := list_ascii_of_string w in
          match strip_prefix_ci lw s with
          | Some s' => boundary (starts_with_word (rev (take (length lw) s))) s'
          | None => false
          end)
       sql_keywords.

(** The same, somewhere in [s]. *)
Fixpoint test_keyword (before : bool) (s : list ascii) : bool :=
  keyword_here before s
  || match s with
     | c :: s' => test_keyword (is_word c) s'
     | [] => false
     end.

(** [/(\b(SELECT|INSERT|UPDATE|DELETE|DROP|UNION|EXEC|SCRIPT)\b)|(--|#|\/\*|\*\/)/i] *)
Definition sqlInjection (s : list ascii) : bool :=
  test_keyword false s
  || test_any [literal "--"; literal "#"; literal "/*"; literal "*/"] s.

(** [/<script|javascript:|on\w+\s*=|alert\s*\(|eval\s*\(/i] *)
Definition xss : list regex :=
  [ [Lit "<script"];
    [Lit "javascript:"];
    [Lit "on"; Plus is_word; Star is_space; Lit "="];
    [Lit "alert"; Star is_space; Lit "("];
    [Lit "eval"; Star is_space; Lit "("] ].

Definition is_dot (c : ascii) : bool := Ascii.eqb c ".".
Definition is_slash (c : ascii) : bool :=       (* slash or backslash *)
  Ascii.eqb c "/" || Ascii.eqb c (ascii_of_nat 92).

(** [/\.\.[\/\\]|%2e%2e|\.%00/] *)
Definition pathTraversal : list regex :=
  [ [Class is_dot; Class is_dot; Class is_slash];
    literal "%2e%2e";
    literal ".%00" ].

(** The class of [commandInjection]: semicolon, ampersand, bar, backquote,
    dollar, the three pairs of brackets and the backslash. *)
Definition is_shell_meta (c : ascii) : bool :=
  existsb (Ascii.eqb c) (list_ascii_of_string ";&|`$(){}[]")
  || Ascii.eqb c (ascii_of_nat 92).

(** The class, then [\|\|] and [&&]. *)
Definition commandInjection : list regex :=
  [ [Class is_shell_meta]; literal "||"; literal "&&" ].

(** [/\$\{|\$where|\$gt|\$lt|\$ne|\$regex|\$eq/i] *)
Definition noSqlInjection : list regex :=
  [ [Lit "${"]; [Lit "$where"]; [Lit "$gt"]; [Lit "$lt"]; [Lit "$ne"];
    [Lit "$regex"]; [Lit "$eq"] ].

Definition patterns : list (string * (list ascii -> bool)) :=
  [ ("sqlInjection", sqlInjection);
    ("xss", test_any xss);
    ("pathTraversal", test_any pathTraversal);
    ("commandInjection", test_any commandInjection);
    ("noSqlInjection", test_any noSqlInjection) ].

(** [detectAttackPatterns(text)] for a string: the names of the patterns
    that match, in the order of the object [patterns]. *)
Definition detectAttackPatterns (text : string) : list string :=
  map fst (List.filter (fun entry => snd entry (list_ascii_of_string text)) patterns).

(** The values of a query string or of a JSON body.  An object is the list
    of its entries in the order of [Object.entries]. *)
#[warnings="-register-all"] Inductive jsonValue : Type :=
| JNull
| JBool (b : bool)
| JNum (n : Z)
| JStr (s : string)
| JArr (items : list jsonValue)
| JObj (entries : list (string * jsonValue)).

(** What [console.error] is given at a detection, beside the [ip] and the
    [path] of the request. *)
Record Report : Type := mkReport {
  field : string;
  attacks : list string;
  logged : string        (* [value.substring(0, 100)] *)
}.

(** [checkValue(value, path)] for a string: [Some] report stands for the
    call of [console.error] followed by [return true], [None] for
    [return false]. *)
Definition checkValue (value : string) (path : string) : option Report :=
  let attacks := detectAttackPatterns value in
  if (0 <? length attacks)%nat
  then Some (mkReport path attacks (String.substring 0 100 value))
  else None.

(** [prefix ? `${prefix}.${key}` : key] *)
Definition join (prefix key : string) : string :=
  if negb (String.eqb prefix "") then prefix +:+ "." +:+ key else key.

(** One turn of the loop of [checkObject] on the entry [key, value], whose
    path is [path]: a string is checked, an object or an array is entered
    (the keys of an array are its indices), anything else is skipped.  The
    loop stops at the first detection. *)
Fixpoint checkEntry (value : jsonValue) (path : string) : option Report :=
  match value with
  | JStr s => checkValue s path
  | JObj entries =>
      (fix loop (es : list (string * jsonValue)) : option Report :=
         match es with
         | [] => None
         | (key, value) :: es' =>
             match checkEntry value (join path key) with
             | Some r => Some r
             | None => loop es'
             end
         end) entries
  | JArr items =>
      (fix loop (i : nat) (xs : list jsonValue) : option Report :=
         match xs with
         | [] => None
         | value :: xs' =>
             match checkEntry value (join path (pretty i)) with
             | Some r => Some r
             | None => loop (S i) xs'
             end
         end) 0%nat items
  | JNull | JBool _ | JNum _ => None
  end.

(** [checkObject(obj, prefix)] for an object [obj]. *)
Definition checkObject (obj : list (string * jsonValue)) (prefix : string)
  : option Report :=
  checkEntry (JObj obj) prefix.

Inductive Verdict : Type :=
| Block403     (* 403, [Requisicao bloqueada por seguranca] *)
| CallNext.    (* [next()] *)

(** [attackPatternCheck(req, res, next)]: the verdict and what was written
    to the console. *)
Definition attackPatternCheck (query body : list (string * jsonValue))
  : Verdict * list Report :=
  match checkObject query "" with
  | Some r => (Block403, [r])
  | None =>
      match checkObject body "" with
      | Some r => (Block403, [r])
      | None => (CallNext, [])
      end
  end.

End AttackPatterns.

(** ** utils/validators.js: the format of an e-mail address *)

Module EmailFormat.

Import Regex Validators.

Definition is_at (c : ascii) : bool := Ascii.eqb c "@".

(** The class of what is neither white space nor an at sign. *)
Definition plain (c : ascii) : bool := negb (is_space c) && negb (is_at c).

(** [match_end r cap s]: as [match_here], for [r] followed by the anchor
    of the end of the text. *)
Fixpoint match_end (r : regex) (cap : list ascii) (s : list ascii) : option nat :=
  match r with
  | [] =>
      match s with
      | [] => Some 0%nat
      | _ :: _ => None
      end
  | Lit l :: r' =>
      let ll := list_ascii_of_string l in
      match strip_prefix_ci ll s with
      | Some s' => (fun n => length ll + n)%nat <$> match_end r' cap s'
      | None => None
      end
  | Class p :: r' =>
      match s with
      | c :: s' => if p c then S <$> match_end r' cap s' else None
      | [] => None
      end
  | Star p :: r' => greedy p (match_end r' cap) s
  | Plus p :: r' =>
      match s with
      | c :: s' => if p c then S <$> greedy p (match_end r' cap) s' else None
      | [] => None
      end
  | LazyStar p :: r' => lazy p (match_end r' cap) s
  | Group ws :: r' => alternatives ws (fun captured s' => match_end r' captured s') s
  | Backref :: r' =>
      match strip_prefix_ci cap s with
      | Some s' => (fun n => length cap + n)%nat <$> match_end r' cap s'
      | None => None
      end
  end.

(** [r.test(s)] for a pattern [r] written between the two anchors. *)
Definition test_whole (r : regex) (s : list ascii) : bool :=
  match match_end r [] s with
  | Some _ => true
  | None => false
  end.

(** The pattern of [isValidEmail]: a run of the class, an at sign, a run
    of the class, a dot, a run of the class, from the start to the end. *)
Definition emailRegex : regex :=
  [Plus plain; Class is_at; Plus plain; Class AttackPatterns.is_dot; Plus plain].

Definition disposableDomains : list string :=
  ["tempmail.com"; "throwaway.com"; "mailinator.com"; "guerrillamail.com";
   "yopmail.com"; "fakeemail.com"; "sharklasers.com"; "getairmail.com"].

(** [isValidEmail(email)] for a string; [None] stands for the TypeError of
    [toLowerCase] on an undefined second piece. *)
Definition isValidEmail (email : string) : option bool :=
  if negb (test_whole emailRegex (list_ascii_of_string email)) then Some false
  else
    match Str.split "@" email !! 1%nat with
    | Some piece =>
        let domain := Str.toLowerCase piece in
        if Str.includes disposableDomains (Some domain) then Some false
        else Some true
    | None => None
    end.

End EmailFormat.

(** ** utils/logger.js: redaction of sensitive fields *)

Module Logger.

Import AttackPatterns.

Definition SENSITIVE_FIELDS : list string :=
  ["password"; "pass"; "token"; "secret"; "authorization"; "cookie";
   "credit_card"; "cvv"; "ssn"; "smtp_pass"; "api_key"].

(** [s.includes(t)] on strings. *)
Fixpoint includes (s t : string) : bool :=
  String.prefix t s
  || match s with
     | String _ s' => includes s' t
     | EmptyString => false
     end.

(** [SENSITIVE_FIELDS.some(field => lowerKey.includes(field))] *)
Definition sensitive (key : string) : bool :=
  let lowerKey := Str.toLowerCase key in
  existsb (fun field => includes lowerKey field) SENSITIVE_FIELDS.

(** The assignment [sanitized[key] = v] at the end of the entries written
    so far.  The key [__proto__] names the prototype: assigning to it adds
    no property. *)
Definition assign_entry (key : string) (v : jsonValue)
    (rest : list (string * jsonValue)) : list (string * jsonValue) :=
  if String.eqb key "__proto__" then rest else (key, v) :: rest.

(** [typeof v === 'object' && v !== null] *)
Definition is_object (v : jsonValue) : bool :=
  match v with
  | JArr _ | JObj _ => true
  | _ => false
  end.

(** [sanitizeObject(obj)]: anything but an object is returned as it is; an
    object, or an array, whose keys are its indices, gives a new object. *)
Fixpoint sanitizeObject (obj : jsonValue) : jsonValue :=
  match obj with
  | JObj entries =>
      JObj
        ((fix loop (es : list (string * jsonValue)) : list (string * jsonValue) :=
            match es with
            | [] => []
            | (key, value) :: es' =>
                assign_entry key
                  (if sensitive key then JStr "[REDACTED]"
                   else if is_object value then sanitizeObject value
                   else value)
                  (loop es')
            end) entries)
  | JArr items =>
      JObj
        ((fix loop (i : nat) (xs : list jsonValue) : list (string * jsonValue) :=
            match xs with
            | [] => []
            | value :: xs' =>
                assign_entry (pretty i)
                  (if sensitive (pretty i) then JStr "[REDACTED]"
                   else if is_object value then sanitizeObject value
                   else value)
                  (loop (S i) xs')
            end) 0%nat items)
  | JNull | JBool _ | JNum _ | JStr _ => obj
  end.

(** ToBoolean on the values of a log entry. *)
Definition json_truthy (v : jsonValue) : bool :=
  match v with
  | JNull => false
  | JBool b => b
  | JNum n => negb (n =? 0)%Z
  | JStr s => negb (String.eqb s "")
  | JArr _ | JObj _ => true
  end.

(** [sanitizeFormat]: the transformation of a log entry [info], an object
    given by its entries.  The property [metadata], if truthy, is replaced
    by its sanitized value; then every property whose value is an object is
    replaced by its sanitized value. *)
Definition sanitizeFormat (info : list (string * jsonValue))
  : list (string * jsonValue) :=
  let info :=
    map (fun e => if String.eqb (fst e) "metadata" && json_truthy (snd e)
                  then (fst e, sanitizeObject (snd e)) else e) info in
  map (fun e => if is_object (snd e) then (fst e, sanitizeObject (snd e)) else e)
      info.

End Logger.

(** ** routes/articles.js: the handler of PUT /api/admin/articles/:id *)

Module ArticlesRoute.

(** What the handler reads of a request: the parameter [id], the fields of
    the body, and the name under which the uploaded image was stored, if an
    image was uploaded. *)
Record PutRequest : Type := mkPutRequest {
  params_id : value;
  body : record;
  file : option string
}.

(** The answer: the status, the message and the data, if any. *)
Inductive Answer : Type :=
| Answer_json (status : nat) (message : string) (data : option record).

(** The image of the request: the uploaded file, else a truthy [imageUrl]
    of the body, else [undefined]. *)
Definition image_of (req : PutRequest) : value :=
  match file req with
  | Some filename => VStr ("/images/articles/" +:+ filename)
  | None =>
      if truthy (get (body req) "imageUrl") then get (body req) "imageUrl"
      else VUndefined
  end.

(** [v && { k: v }] under a spread: a falsy [v] spreads to nothing. *)
Definition when_truthy (k : string) (v : value) : record :=
  if truthy v then {[ k := v ]} else ∅.

Definition updateData (req : PutRequest) : record :=
  let b := body req in
  spread (spread (spread (spread (spread (spread ∅
    (when_truthy "title" (get b "title")))
    (when_truthy "content" (get b "content")))
    (when_truthy "author" (get b "author")))
    (when_truthy "category" (get b "category")))
    (when_truthy "date" (get b "date")))
    (when_truthy "imageUrl" (image_of req)).

(** The stored image to remove after the update: the old [imageUrl] when a
    new image is given, the old one is one of the uploaded images and
    differs from the new one.  A truthy old [imageUrl] that is not a string
    has no method [startsWith]: the call throws. *)
Definition old_image {T} (image oldUrl : value) : M T (option string) :=
  if truthy image && truthy oldUrl
  then
    match oldUrl with
    | VStr s =>
        Sys.ret (if Str.startsWith s "/images/articles/" && negb (strict_eq oldUrl image)
                 then Some s else None)
    | _ => Sys.throw "oldArticle.imageUrl.startsWith is not a function"
    end
  else Sys.ret None.

(** The handler: the answer and the image file whose removal is started.
    The security event written through the logger is left out. *)
Definition put `{JSON} (req : PutRequest)
  : M ArticleService.t (Answer * option string) :=
  Sys.try_catch
    (let id := params_id req in
     let image := image_of req in
     let* result := ArticleService.updateArticle id (updateData req) in
     match result with
     | None => Sys.ret (Answer_json 404 "Article not found" None, None)
     | Some (updatedArticle, oldArticle) =>
         let* unlinked := old_image image (get oldArticle "imageUrl") in
         Sys.ret (Answer_json 200 "Article updated successfully" (Some updatedArticle),
                  unlinked)
     end)
    (fun error =>
       exec Sys.console_error "Update article error:" in
       Sys.ret (Answer_json 500
                  (if String.eqb error "" then "Error updating article" else error)
                  None,
                None)).

End ArticlesRoute.

(** ** config/security.js: the origin check of the CORS options *)

Module Cors.

(** [callback(null, true)], or the warning written to the console followed
    by [callback(new Error('Not allowed by CORS'))]. *)
Inductive Decision : Type :=
| Allow
| Deny (warning : string).

(** The list read from [process.env.CORS_ORIGIN] at every request. *)
Definition allowedOrigins (CORS_ORIGIN : option string) : list string :=
  match CORS_ORIGIN with
  | Some v =>
      if Str.truthy CORS_ORIGIN then map Js.trim (Str.split "," v)
      else ["http://localhost:5173"]
  | None => ["http://localhost:5173"]
  end.

(** [corsOptions.origin(origin, callback)] *)
Definition origin (CORS_ORIGIN : option string) (origin : option string)
  : Decision :=
  let allowedOrigins := allowedOrigins CORS_ORIGIN in
  if negb (Str.truthy origin) then Allow
  else if Str.includes allowedOrigins origin then Allow
  else Deny ("CORS blocked request from: " +:+ default "" origin).

End Cors.

(** ** Sample data on which the statements are evaluated *)

Module Sample.

(** A [JSON] instance for examples: every array is printed to a fixed
    text, and only the text of the empty array is read back. *)
Definition json : JSON :=
  {| JSON_parse := fun s => if String.eqb s "[]" then Some [] else None;
     JSON_stringify := fun l => match l with [] => "[]" | _ :: _ => "[...]" end;
     JSON_parse_empty_array := eq_refl |}.

(** A [JSON] instance for examples that, besides the empty array, prints
    one list to a text of its own and reads that text back. *)
Definition json_knowing (known : list record) (text : string) : JSON :=
  {| JSON_parse := fun s =>
       if String.eqb s "[]" then Some []
       else if String.eqb s text then Some known else None;
     JSON_stringify := fun l =>
       match l with
       | [] => "[]"
       | _ :: _ => if bool_decide (l = known) then text else "[...]"
       end;
     JSON_parse_empty_array := eq_refl |}.


Definition project (id : Z) (title : string) : record :=
  {[ "id" := VNum id; "title" := VStr title ]}.

Definition world (fs : gmap string string) (ok : bool) : World :=
  mkWorld fs ok "2024-01-01T00:00:00.000Z" [].

Definition two_projects : ProjectService.t :=
  ProjectService.mk [project 1 "Ponte X"; project 2 "Torre Y"] true.

Definition two_articles : ArticleService.t :=
  ArticleService.mk [project 1 "Nota A"; project 2 "Nota B"] true.

End Sample.

(** ** The vocabulary of the statements *)

Import Regex.

(** The id carried by a record. *)
Definition ident (p : record) : value := get p "id".

(** No record of the list answers to [id]. *)
Definition absent (id : value) (l : list record) : Prop :=
  Forall (fun p => strict_eq (ident p) (Number_ id) = false) l.

(** The records of [l] carry, in order, the numeric ids [zs]. *)
Definition numbered (l : list record) (zs : list Z) : Prop :=
  map ident l = map VNum zs.

(** [n] is one more than the greatest of [zs], or 1 when there is none. *)
Definition next_id (zs : list Z) (n : Z) : Prop :=
  (zs = [] /\ n = 1%Z)
  \/ (exists m, m ∈ zs /\ (forall z, z ∈ zs -> (z <= m)%Z) /\ n = (m + 1)%Z).

(** [Number.isSafeInteger(z)]: an integer whose neighbours are doubles
    too. *)
Definition safe (z : Z) : Prop := (- 2 ^ 53 < z < 2 ^ 53)%Z.

(** The merge in the words of the specification: a field of the patch
    whose value is [undefined] does not overwrite the field of the record. *)
Definition merge_defined (old patch : record) : record :=
  filter (fun kv => kv.2 <> VUndefined) patch ∪ old.

Import AdminAuth.

(** The request [req] with another [Authorization] header, and the
    environment [env] with another [ADMIN_TOKEN]. *)
Definition with_authorization (req : Request) (a : option string) : Request :=
  mkRequest (ip req) (remoteAddress req) (path req) a.

Definition with_token (env : Env) (t : option string) : Env :=
  mkEnv (ADMIN_ALLOWED_IPS env) (NODE_ENV env) t.





Import Validators.

(** The instants recorded for a key. *)
Definition stored (m : gmap string (list Z)) (k : string) : list Z :=
  default [] (m !! k).

(** The checks of a sequence of submissions [(instant, email)], one after
    the other, with the configuration of the contact handler. *)
Fixpoint check_all (subs : list (Z * string)) (m : gmap string (list Z))
  : list Limit * gmap string (list Z) :=
  match subs with
  | [] => ([], m)
  | (t, e) :: subs' =>
      let '(l, m') := checkEmailRateLimit t e 5 3600000 m in
      let '(ls, m'') := check_all subs' m' in
      (l :: ls, m'')
  end.

(** [Math.ceil(x / 1000)] on integers. *)
Definition ceil_seconds (x : Z) : Z := (- ((- x) / 1000))%Z.

(** The characters of a sanitized text: no angle bracket and no NUL. *)
Definition harmless (c : ascii) : Prop :=
  is_lt c = false /\ is_gt c = false /\ is_nul c = false.

(** Does the text begin with white space? *)
Definition starts_with_space (l : list ascii) : bool :=
  match l with
  | c :: _ => is_space c
  | [] => false
  end.

(** Every white-space character is a space, followed by a character that
    is not white space or by the end of the text. *)
Fixpoint single_spaced (l : list ascii) : bool :=
  match l with
  | [] => true
  | c :: l' =>
      (if is_space c then Ascii.eqb c " " && negb (starts_with_space l') else true)
      && single_spaced l'
  end.

(** The length of the white-space run at the head of a text. *)
Fixpoint run (p : ascii -> bool) (s : list ascii) : nat :=
  match s with
  | c :: s' => if p c then S (run p s') else 0%nat
  | [] => 0%nat
  end.

(** The token the gate compares the bearer token with. *)
Definition expected_token (env : Env) : option string :=
  if isLocalDev env
  then Str.or_else (ADMIN_TOKEN env) (Some "admin_secret_token")
  else ADMIN_TOKEN env.

Import Templates.

(** The text a mail client displays for an escaped text: each of the five
    entities stands for its character. *)
Fixpoint unescape (l : list ascii) : list ascii :=
  match l with
  | "&" :: "a" :: "m" :: "p" :: ";" :: r => "&" :: unescape r
  | "&" :: "l" :: "t" :: ";" :: r => "<" :: unescape r
  | "&" :: "g" :: "t" :: ";" :: r => ">" :: unescape r
  | "&" :: "q" :: "u" :: "o" :: "t" :: ";" :: r => dquote :: unescape r
  | "&" :: "#" :: "0" :: "3" :: "9" :: ";" :: r => squote :: unescape r
  | c :: r => c :: unescape r
  | [] => []
  end%char.

(** The characters that open or close markup or an attribute value. *)
Definition markup_char (c : ascii) : bool :=
  is_lt c || is_gt c || is_dquote c || is_squote c.

(** The entity written for a character, or the character itself. *)
Definition escape_char (c : ascii) : list ascii :=
  if is_amp c then list_ascii_of_string "&amp;"
  else if is_lt c then list_ascii_of_string "&lt;"
  else if is_gt c then list_ascii_of_string "&gt;"
  else if is_dquote c then list_ascii_of_string "&quot;"
  else if is_squote c then list_ascii_of_string "&#039;"
  else [c].

Import AttackPatterns.

(** The string values of a query or body, at any depth, each with its
    path, in the order in which [checkObject] meets them. *)
Fixpoint leaves (v : jsonValue) (path : string) : list (string * string) :=
  match v with
  | JStr s => [(path, s)]
  | JObj entries =>
      (fix loop (es : list (string * jsonValue)) : list (string * string) :=
         match es with
         | [] => []
         | (key, value) :: es' => leaves value (join path key) ++ loop es'
         end) entries
  | JArr items =>
      (fix loop (i : nat) (xs : list jsonValue) : list (string * string) :=
         match xs with
         | [] => []
         | value :: xs' => leaves value (join path (pretty i)) ++ loop (S i) xs'
         end) 0%nat items
  | JNull | JBool _ | JNum _ => []
  end.

(** A string in which some pattern is detected. *)
Definition flagged (s : string) : bool :=
  (0 <? length (detectAttackPatterns s))%nat.

(** The first flagged leaf, if there is one. *)
Fixpoint first_flagged (l : list (string * string)) : option (string * string) :=
  match l with
  | [] => None
  | (p, s) :: l' => if flagged s then Some (p, s) else first_flagged l'
  end.

(** What is reported about a flagged leaf. *)
Definition report_of (leaf : string * string) : Report :=
  mkReport (fst leaf) (detectAttackPatterns (snd leaf))
           (String.substring 0 100 (snd leaf)).

(** The characters one of which every pattern other than the SQL keywords
    needs: the twelve of the command class, and the less-than sign, the
    colon, the equals sign, the hyphen, the hash, the slash, the asterisk
    and the percent sign. *)
Definition loud (c : ascii) : bool :=
  is_shell_meta c || existsb (Ascii.eqb c) (list_ascii_of_string "<:=-#/*%").

Definition all_ascii : list ascii := map ascii_of_nat (seq 0 256).

(** The atom matches no text without a character of the class [q]. *)
Definition demands (q : ascii -> bool) (a : atom) : bool :=
  match a with
  | Lit l =>
      existsb (fun c => forallb (fun x => implb (eq_ci c x) (q x)) all_ascii)
              (list_ascii_of_string l)
  | Class p => forallb (fun x => implb (p x) (q x)) all_ascii
  | _ => false
  end.

Import EmailFormat.

(** The shape of an accepted address: a local part, an at sign, and a
    domain with a dot inside; no part is empty and none holds white space
    or a further at sign. *)
Definition address_shape (s local a b : list ascii) : Prop :=
  s = local ++ "@"%char :: a ++ "."%char :: b
  /\ local <> [] /\ a <> [] /\ b <> []
  /\ Forall (fun c => plain c = true) (local ++ a ++ b).

Import Logger.

Definition is_redacted (v : jsonValue) : bool :=
  match v with
  | JStr s => String.eqb s "[REDACTED]"
  | _ => false
  end.

(** Some entry of the value, at any depth, has a sensitive key and another
    value than the text that stands for a redacted one. *)
Fixpoint exposes (v : jsonValue) : bool :=
  match v with
  | JObj entries =>
      existsb (fun e => (sensitive (fst e) && negb (is_redacted (snd e)))
                        || exposes (snd e)) entries
  | JArr items => existsb exposes items
  | JNull | JBool _ | JNum _ | JStr _ => false
  end.

(** The keys of an object, in order. *)
Definition keys (v : jsonValue) : list string :=
  match v with
  | JObj entries => map fst entries
  | _ => []
  end.

(** The value written for an entry, and the entries written for the
    entries of an object and for the items of an array from index [i] on:
    the loop of [sanitizeObject]. *)
Definition sanitize_value (key : string) (value : jsonValue) : jsonValue :=
  if sensitive key then JStr "[REDACTED]"
  else if is_object value then sanitizeObject value
  else value.

Fixpoint sanitize_entries (es : list (string * jsonValue))
  : list (string * jsonValue) :=
  match es with
  | [] => []
  | (key, value) :: es' =>
      assign_entry key (sanitize_value key value) (sanitize_entries es')
  end.

Fixpoint sanitize_items (i : nat) (xs : list jsonValue)
  : list (string * jsonValue) :=
  match xs with
  | [] => []
  | value :: xs' =>
      assign_entry (pretty i) (sanitize_value (pretty i) value)
                   (sanitize_items (S i) xs')
  end.

(** The fields that PUT may write, and the value the request gives for
    each. *)
Definition article_fields : list string :=
  ["title"; "content"; "author"; "category"; "date"; "imageUrl"].

Definition new_value (req : ArticlesRoute.PutRequest) (k : string) : value :=
  if String.eqb k "imageUrl" then ArticlesRoute.image_of req
  else get (ArticlesRoute.body req) k.

(** Does the request write the field [k]? *)
Definition writes (req : ArticlesRoute.PutRequest) (k : string) : bool :=
  existsb (String.eqb k) article_fields && truthy (new_value req k).

(** * Properties *)

(** ** Arrays *)

Lemma findIndex_None {A} (pred : A -> bool) (l : list A) :
  findIndex pred l = None <-> Forall (fun x => pred x = false) l.
Proof.
  induction l as [|x l IH]; simpl.
  - split; [constructor | reflexivity].
  - destruct (pred x) eqn:E.
    + split; [discriminate | intros HF; inversion HF; congruence].
    + rewrite fmap_None, IH. split.
      * intros HF; constructor; assumption.
      * intros HF; inversion HF; assumption.
Qed.

Lemma findIndex_Some {A} (pred : A -> bool) (l : list A) (i : nat) :
  findIndex pred l = Some i ->
  exists x, l !! i = Some x /\ pred x = true
            /\ Forall (fun y => pred y = false) (take i l).
Proof.
  revert i; induction l as [|x l IH]; simpl; intros i Hi; [discriminate|].
  destruct (pred x) eqn:E.
  - injection Hi as <-. exists x. repeat split; [assumption | constructor].
  - apply fmap_Some in Hi as (j & Hj & ->).
    destruct (IH j Hj) as (y & Hy & Hp & Hf).
    exists y. simpl. repeat split; try assumption. constructor; assumption.
Qed.

Lemma find_None {A} (pred : A -> bool) (l : list A) :
  Forall (fun x => pred x = false) l -> find pred l = None.
Proof.
  induction 1 as [|x l Hx _ IH]; simpl; [reflexivity|]. now rewrite Hx.
Qed.

(** ** The record stores *)

(** The scenario of a delete of an unknown project: the store answers
    [null], from which the route makes its 404. *)
Example delete_unknown_project :
  fst (ProjectService.deleteProject (H := Sample.json) (VStr "9999")
         (Sample.two_projects, Sample.world ∅ true)) = Return None.
Proof. reflexivity. Qed.

(** The first record of an empty store gets the id 1. *)
Example first_project_gets_id_1 :
  fst (ProjectService.addProject (H := Sample.json) {[ "title" := VStr "Ponte X" ]}
         (ProjectService.new, Sample.world ∅ true))
  = Return {[ "id" := VNum 1; "title" := VStr "Ponte X" ]}.
Proof. vm_compute. reflexivity. Qed.

(** [Number] reads every spelling of a numeric literal, and rounds it to
    the nearest double. *)
Example Number_of_a_text :
  Number_ (VStr "1e0") = VNum 1 /\ Number_ (VStr "1.0") = VNum 1
  /\ Number_ (VStr "0x1") = VNum 1 /\ Number_ (VStr "2.") = VNum 2
  /\ Number_ (VStr " +2 ") = VNum 2 /\ Number_ (VStr "") = VNum 0
  /\ Number_ (VStr "-1.5e1") = VNum (-15) /\ Number_ (VStr ".5") = VFrac 1 1
  /\ Number_ (VStr "0.1") = VFrac 3602879701896397 55
  /\ Number_ (VStr "9007199254740993") = VNum 9007199254740992
  /\ Number_ (VStr "1e400") = VInf false /\ Number_ (VStr "-Infinity") = VInf true
  /\ Number_ (VStr "1e-400") = VNum 0
  /\ Number_ (VStr "2a") = VNaN /\ Number_ (VStr "0x") = VNaN
  /\ Number_ (VStr "-0x1") = VNaN /\ Number_ (VStr "1e") = VNaN
  /\ Number_ (VStr ".") = VNaN /\ Number_ (VStr "1 2") = VNaN.
Proof. vm_compute. repeat split. Qed.

(** A record is found under every spelling of its id: the id of the route
    is a text, and [update] converts it with [Number]. *)
Example update_under_another_spelling_of_the_id :
  fst (ProjectService.updateProject (H := Sample.json) (VStr "1e0")
         {[ "title" := VStr "Ponte Z" ]}
         (Sample.two_projects, Sample.world ∅ true))
  = Return (Some (Sample.project 1 "Ponte Z", Sample.project 1 "Ponte X")).
Proof. vm_compute. reflexivity. Qed.

(** From [2^53] on, [max + 1] is no longer above [max]: the sum is rounded
    back to [2^53], and [add] gives the new record the id of a record of
    the store. *)
Example id_beyond_the_safe_integers_is_assigned_twice :
  plus_one (VNum 9007199254740992) = VNum 9007199254740992
  /\ fst (ProjectService.addProject (H := Sample.json)
            {[ "title" := VStr "Casa Z" ]}
            (ProjectService.mk [Sample.project 9007199254740992 "Ponte X"] true,
             Sample.world ∅ true))
     = Return {[ "id" := VNum 9007199254740992; "title" := VStr "Casa Z" ]}.
Proof. split; vm_compute; reflexivity. Qed.

(** C10. For every store and every id that no record of the store carries,
    [update] and [delete] (of the project store and of the article store)
    return [null] and leave the service object and the world, with the
    trace of its file-system calls, exactly as they were: the in-memory list
    is untouched and no write is issued. *)
Theorem not_found_mutations_are_pure_reads `{JSON}
    (id : value) (patch : record)
    (ps : ProjectService.t) (ars : ArticleService.t) (w : World) :
  absent id (ProjectService.projects ps) ->
  absent id (ArticleService.articles ars) ->
  ProjectService.updateProject id patch (ps, w) = (Return None, (ps, w))
  /\ ProjectService.deleteProject id (ps, w) = (Return None, (ps, w))
  /\ ArticleService.updateArticle id patch (ars, w) = (Return None, (ars, w))
  /\ ArticleService.deleteArticle id (ars, w) = (Return None, (ars, w)).
Proof.
  intros Hp Ha.
  apply findIndex_None in Hp. apply findIndex_None in Ha.
  unfold ident in Hp, Ha.
  unfold ProjectService.updateProject, ProjectService.deleteProject,
    ArticleService.updateArticle, ArticleService.deleteArticle.
  unfold Sys.bind, Sys.this; simpl.
  rewrite Hp, Ha. repeat split.
Qed.

Lemma not_found_mutations_are_pure_reads_witness :
  absent (VStr "9999") (ProjectService.projects Sample.two_projects)
  /\ ProjectService.deleteProject (H := Sample.json) (VStr "9999")
       (Sample.two_projects, Sample.world ∅ true)
     = (Return None, (Sample.two_projects, Sample.world ∅ true)).
Proof.
  assert (Hp : absent (VStr "9999") (ProjectService.projects Sample.two_projects))
    by (repeat constructor).
  assert (Ha : absent (VStr "9999") (ArticleService.articles Sample.two_articles))
    by (repeat constructor).
  split; [exact Hp|].
  exact (proj1 (proj2 (not_found_mutations_are_pure_reads (H := Sample.json)
           (VStr "9999") ∅ Sample.two_projects Sample.two_articles
           (Sample.world ∅ true) Hp Ha))).
Defined.

(** C5. When the rewrite of the file fails, [add] throws the error of
    [_save] to its caller, the new record is nevertheless the last element
    of the in-memory list, and the file on disk is what it was: memory and
    disk differ.  Both stores behave so. *)
Theorem add_keeps_record_when_write_fails `{JSON}
    (data : record) (ps : ProjectService.t) (ars : ArticleService.t) (w : World) :
  disk_ok w = false ->
  (exists newProject w',
      ProjectService.addProject data (ps, w)
      = (Throw "Failed to save project data",
         (ProjectService.mk (ProjectService.projects ps ++ [newProject])
                            (ProjectService.initialized ps), w'))
      /\ data ⊆ newProject
      /\ files w' = files w)
  /\ (exists newArticle w',
      ArticleService.addArticle data (ars, w)
      = (Throw "Failed to save article data",
         (ArticleService.mk (ArticleService.articles ars ++ [newArticle])
                            (ArticleService.initialized ars), w'))
      /\ (forall k, k <> "date" -> is_Some (data !! k) -> newArticle !! k = data !! k)
      /\ files w' = files w).
Proof.
  intros Hw. split.
  - unfold ProjectService.addProject, ProjectService._save, Sys.bind, Sys.this,
      Sys.assign, Sys.try_catch, Sys.writeFile, Sys.console_error, Sys.throw.
    simpl. rewrite Hw. simpl.
    eexists _, _. split; [reflexivity|]. split; [|reflexivity].
    unfold spread. apply map_union_subseteq_l.
  - unfold ArticleService.addArticle, ArticleService._save, Sys.bind, Sys.this,
      Sys.assign, Sys.try_catch, Sys.writeFile, Sys.console_error, Sys.throw,
      Sys.date_now_iso.
    simpl. rewrite Hw. simpl.
    eexists _, _. split; [reflexivity|]. split; [|reflexivity].
    intros k Hk [v Hv]. unfold spread.
    rewrite lookup_union_r by (apply lookup_singleton_ne; congruence).
    rewrite (lookup_union_Some_l _ _ _ _ Hv). symmetry; exact Hv.
Qed.

Lemma add_keeps_record_when_write_fails_witness :
  disk_ok (Sample.world ∅ false) = false
  /\ exists newProject w',
      ProjectService.addProject (H := Sample.json) {[ "title" := VStr "Casa Z" ]}
        (Sample.two_projects, Sample.world ∅ false)
      = (Throw "Failed to save project data",
         (ProjectService.mk
            (ProjectService.projects Sample.two_projects ++ [newProject]) true, w'))
      /\ files w' = files (Sample.world ∅ false).
Proof.
  split; [reflexivity|].
  destruct (add_keeps_record_when_write_fails (H := Sample.json)
              {[ "title" := VStr "Casa Z" ]} Sample.two_projects
              Sample.two_articles (Sample.world ∅ false) eq_refl)
    as [(p & w' & Hrun & _ & Hfiles) _].
  exists p, w'. split; assumption.
Defined.

Lemma map_is_fmap {A B} (f : A -> B) (l : list A) : map f l = f <$> l.
Proof. reflexivity. Qed.

Lemma numbered_lookup l zs i p :
  numbered l zs -> l !! i = Some p -> exists z, zs !! i = Some z /\ ident p = VNum z.
Proof.
  unfold numbered. rewrite !map_is_fmap. intros Hn Hp.
  assert (Hi : (ident <$> l) !! i = Some (ident p))
    by (rewrite list_lookup_fmap, Hp; reflexivity).
  rewrite Hn, list_lookup_fmap in Hi.
  destruct (zs !! i) as [z|]; simpl in Hi; [|discriminate].
  exists z. split; [reflexivity | congruence].
Qed.

Lemma numbered_elem l zs p :
  numbered l zs -> p ∈ l -> exists z, z ∈ zs /\ ident p = VNum z.
Proof.
  intros Hn Hp. apply list_elem_of_lookup in Hp as [i Hi].
  destruct (numbered_lookup _ _ _ _ Hn Hi) as (z & Hz & Hid).
  exists z. split; [|assumption]. apply list_elem_of_lookup. eauto.
Qed.

Lemma numbered_delete l zs i :
  numbered l zs -> numbered (delete i l) (delete i zs).
Proof.
  unfold numbered. rewrite !map_is_fmap, !list_fmap_delete. intros ->. reflexivity.
Qed.

Lemma numbered_app l zs p z :
  numbered l zs -> ident p = VNum z -> numbered (l ++ [p]) (zs ++ [z]).
Proof.
  unfold numbered. rewrite !map_app. simpl. intros -> ->. reflexivity.
Qed.

Lemma strict_eq_num v z : strict_eq (VNum z) v = true <-> v = VNum z.
Proof.
  destruct v; simpl; split; try discriminate; intros Hv.
  - apply Z.eqb_eq in Hv. congruence.
  - injection Hv as ->. apply Z.eqb_refl.
Qed.

Lemma Math_max_numbers z zs :
  exists m, Math_max (VNum z) (map VNum zs) = VNum m
            /\ m ∈ z :: zs /\ forall y, y ∈ z :: zs -> (y <= m)%Z.
Proof.
  revert z; induction zs as [|z' zs IH]; intros z; simpl.
  - exists z. split; [reflexivity|]. split; [left|].
    intros y Hy. apply list_elem_of_singleton in Hy. lia.
  - destruct (IH z') as (m & -> & Hm & Hle).
    exists (Z.max z m). split; [reflexivity|]. split.
    + destruct (Z.max_spec z m) as [[_ ->]|[_ ->]]; [right; exact Hm | left].
    + intros y Hy. apply elem_of_cons in Hy as [->|Hy]; [lia|].
      specialize (Hle y Hy). lia.
Qed.

Lemma number_integer (z : Z) :
  (- 2 ^ 53 <= z <= 2 ^ 53)%Z -> number z 1 = VNum z.
Proof.
  intros Hz. unfold number, nearest.
  destruct z as [|p|p]; [reflexivity| |].
  - rewrite Z.mod_1_r, Z.div_1_r. simpl (0 =? 0)%Z.
    destruct (Z.leb_spec (Z.pos p) (2 ^ 53)) as [_|Hgt]; [reflexivity | lia].
  - change (- Z.neg p)%Z with (Z.pos p).
    rewrite Z.mod_1_r, Z.div_1_r. simpl (0 =? 0)%Z.
    destruct (Z.leb_spec (Z.pos p) (2 ^ 53)) as [_|Hgt]; [reflexivity | lia].
Qed.

Lemma plus_one_safe (z : Z) : safe z -> plus_one (VNum z) = VNum (z + 1).
Proof. intros Hz. unfold safe in Hz. apply number_integer. lia. Qed.

Lemma newId_next_id l zs :
  numbered l zs -> Forall safe zs ->
  exists n,
    match map (fun p => get p "id") l with
    | [] => VNum 1
    | v :: vs => plus_one (Math_max v vs)
    end = VNum n
    /\ next_id zs n.
Proof.
  unfold numbered, ident. intros -> Hsafe.
  destruct zs as [|z zs]; simpl.
  - exists 1%Z. split; [reflexivity | left; split; reflexivity].
  - destruct (Math_max_numbers z zs) as (m & Hm & Hin & Hle).
    simpl in Hm. fold (@map Z value VNum) in Hm.
    exists (m + 1)%Z. split.
    + change (plus_one (Math_max (VNum z) (map VNum zs)) = VNum (m + 1)).
      rewrite Hm. apply plus_one_safe.
      exact (proj1 (Forall_forall _ _) Hsafe m Hin).
    + right. exists m. repeat split; assumption.
Qed.

Lemma next_id_functional zs a b : next_id zs a -> next_id zs b -> a = b.
Proof.
  intros [[-> ->]|(m & Hm & Hle & ->)] [[Hz ->]|(m' & Hm' & Hle' & ->)];
    try reflexivity.
  - inversion Hm'.
  - subst zs. inversion Hm.
  - pose proof (Hle m' Hm'). pose proof (Hle' m Hm). lia.
Qed.

Lemma safe_delete (zs : list Z) (i : nat) : Forall safe zs -> Forall safe (delete i zs).
Proof. apply Forall_delete. Qed.

Lemma next_id_above zs n z : next_id zs n -> z ∈ zs -> (z < n)%Z.
Proof.
  intros [[-> _]|(m & _ & Hle & ->)] Hz.
  - inversion Hz.
  - specialize (Hle z Hz). lia.
Qed.

Lemma next_id_fresh zs n : next_id zs n -> NoDup zs -> NoDup (zs ++ [n]).
Proof.
  intros Hn Hd. apply NoDup_app. split; [assumption|]. split.
  - intros z Hz Hz'. apply list_elem_of_singleton in Hz' as ->.
    pose proof (next_id_above _ _ _ Hn Hz). lia.
  - apply NoDup_singleton.
Qed.

Lemma spread_id_fresh (data : record) (v : value) :
  data !! "id" = None -> spread {[ "id" := v ]} data = <["id" := v]> data.
Proof.
  intros Hd. unfold spread. apply map_eq. intros k.
  destruct (decide (k = "id")) as [->|Hk].
  - rewrite lookup_union_r by assumption.
    rewrite lookup_singleton_eq, lookup_insert_eq. reflexivity.
  - rewrite lookup_insert_ne by congruence.
    rewrite lookup_union, lookup_singleton_ne by congruence.
    destruct (data !! k); reflexivity.
Qed.

Lemma addProject_run `{JSON} (data : record) (ps : ProjectService.t) (w : World)
    (zs : list Z) :
  numbered (ProjectService.projects ps) zs -> Forall safe zs ->
  exists n, next_id zs n /\
    let newProject := spread {[ "id" := VNum n ]} data in
    let l' := ProjectService.projects ps ++ [newProject] in
    let text := JSON_stringify l' in
    let path := ProjectService.DATA_FILE_PATH in
    ProjectService.addProject data (ps, w)
    = if disk_ok w
      then (Return newProject,
            (ProjectService.mk l' (ProjectService.initialized ps),
             emit (FsWrite path text true) (store_file path text w)))
      else (Throw "Failed to save project data",
            (ProjectService.mk l' (ProjectService.initialized ps),
             emit (ConsoleError "Failed to save projects to disk:")
                  (emit (FsWrite path text false) w))).
Proof.
  intros Hn Hs. destruct (newId_next_id _ _ Hn Hs) as (n & Hid & Hnext).
  exists n. split; [assumption|].
  unfold ProjectService.addProject, ProjectService._save, Sys.bind, Sys.this,
    Sys.assign, Sys.try_catch, Sys.writeFile, Sys.console_error, Sys.throw, Sys.ret.
  simpl. rewrite Hid. destruct (disk_ok w); reflexivity.
Qed.

Lemma deleteProject_run `{JSON} (id : value) (ps : ProjectService.t) (w : World)
    (d : record) (ps1 : ProjectService.t) (w1 : World) :
  ProjectService.deleteProject id (ps, w) = (Return (Some d), (ps1, w1)) ->
  exists i,
    findIndex (fun p => strict_eq (get p "id") (Number_ id))
              (ProjectService.projects ps) = Some i
    /\ ProjectService.projects ps !! i = Some d
    /\ ps1 = ProjectService.mk (delete i (ProjectService.projects ps))
                               (ProjectService.initialized ps)
    /\ disk_ok w = true.
Proof.
  unfold ProjectService.deleteProject, ProjectService._save, Sys.bind, Sys.this,
    Sys.assign, Sys.try_catch, Sys.writeFile, Sys.console_error, Sys.throw, Sys.ret.
  simpl.
  destruct (findIndex _ _) as [i|] eqn:Hi; [|discriminate].
  destruct (ProjectService.projects ps !! i) as [p|] eqn:Hp; [|discriminate].
  simpl. destruct (disk_ok w) eqn:Hw; simpl; [|discriminate].
  intros [= <- <- <-]. exists i. repeat split; assumption.
Qed.

Lemma deleted_id_facts (l : list record) (zs : list Z) (id : value) (i : nat)
    (d : record) :
  numbered l zs -> NoDup zs ->
  findIndex (fun p => strict_eq (get p "id") (Number_ id)) l = Some i ->
  l !! i = Some d ->
  exists z, Number_ id = VNum z /\ ident d = VNum z /\ z ∈ zs
            /\ (z ∉ delete i zs) /\ absent id (delete i l).
Proof.
  intros Hn Hd Hi Hl.
  destruct (findIndex_Some _ _ _ Hi) as (x & Hx & Hpx & _).
  rewrite Hl in Hx. injection Hx as <-.
  destruct (numbered_lookup _ _ _ _ Hn Hl) as (z & Hz & Hid).
  fold (ident d) in Hpx. rewrite Hid in Hpx. apply strict_eq_num in Hpx.
  assert (Hnot : z ∉ delete i zs).
  { rewrite delete_take_drop.
    rewrite <- (take_drop_middle _ _ _ Hz) in Hd.
    apply NoDup_app in Hd as (_ & Hsep & Hd).
    apply NoDup_cons in Hd as [Hd _].
    intros Hin. apply elem_of_app in Hin as [Hin|Hin]; [|contradiction].
    apply (Hsep z Hin). left. }
  exists z. repeat split; try assumption.
  - apply list_elem_of_lookup. eauto.
  - apply Forall_forall. intros p Hp.
    destruct (numbered_elem _ _ _ (numbered_delete _ _ i Hn) Hp) as (y & Hy & Hidp).
    rewrite Hidp, Hpx. simpl. apply Z.eqb_neq. intros ->. contradiction.
Qed.

Lemma spread_lookup (old patch : record) (k : string) :
  spread old patch !! k = from_option Some (old !! k) (patch !! k).
Proof.
  unfold spread. rewrite lookup_union.
  destruct (patch !! k), (old !! k); reflexivity.
Qed.

Ltac run_method :=
  unfold Sys.bind, Sys.this, Sys.assign, Sys.try_catch, Sys.writeFile,
    Sys.readFile, Sys.existsSync, Sys.mkdir, Sys.console_error,
    Sys.console_log, Sys.throw, Sys.ret, Sys.date_now_iso, parse; simpl.

Lemma addArticle_run `{JSON} (data : record) (ars : ArticleService.t) (w : World)
    (zs : list Z) :
  numbered (ArticleService.articles ars) zs -> Forall safe zs ->
  exists n, next_id zs n /\
    let date := Js.or_else (get data "date") (VStr (now_iso w)) in
    let newArticle :=
      spread (spread {[ "id" := VNum n ]} data) {[ "date" := date ]} in
    let l' := ArticleService.articles ars ++ [newArticle] in
    let text := JSON_stringify l' in
    let path := ArticleService.DATA_FILE_PATH in
    ArticleService.addArticle data (ars, w)
    = if disk_ok w
      then (Return newArticle,
            (ArticleService.mk l' (ArticleService.initialized ars),
             emit (FsWrite path text true) (store_file path text w)))
      else (Throw "Failed to save article data",
            (ArticleService.mk l' (ArticleService.initialized ars),
             emit (ConsoleError "Failed to save articles to disk:")
                  (emit (FsWrite path text false) w))).
Proof.
  intros Hn Hs. destruct (newId_next_id _ _ Hn Hs) as (n & Hid & Hnext).
  exists n. split; [assumption|].
  unfold ArticleService.addArticle, ArticleService._save. run_method.
  rewrite Hid. destruct (disk_ok w); reflexivity.
Qed.

Lemma deleteArticle_run `{JSON} (id : value) (ars : ArticleService.t) (w : World)
    (d : record) (ars1 : ArticleService.t) (w1 : World) :
  ArticleService.deleteArticle id (ars, w) = (Return (Some d), (ars1, w1)) ->
  exists i,
    findIndex (fun p => strict_eq (get p "id") (Number_ id))
              (ArticleService.articles ars) = Some i
    /\ ArticleService.articles ars !! i = Some d
    /\ ars1 = ArticleService.mk (delete i (ArticleService.articles ars))
                                (ArticleService.initialized ars)
    /\ disk_ok w = true.
Proof.
  unfold ArticleService.deleteArticle, ArticleService._save. run_method.
  destruct (findIndex _ _) as [i|] eqn:Hi; [|discriminate].
  destruct (ArticleService.articles ars !! i) as [p|] eqn:Hp; [|discriminate].
  simpl. destruct (disk_ok w) eqn:Hw; simpl; [|discriminate].
  intros [= <- <- <-]. exists i. repeat split; assumption.
Qed.

Lemma new_article_ident (data : record) (n : Z) (date : value) :
  data !! "id" = None ->
  ident (spread (spread {[ "id" := VNum n ]} data) {[ "date" := date ]}) = VNum n.
Proof.
  intros Hd. unfold ident, get. rewrite !spread_lookup.
  rewrite (lookup_singleton_ne "date" "id") by (intros Hk; discriminate Hk). simpl.
  rewrite Hd. simpl. rewrite lookup_singleton_eq. reflexivity.
Qed.

(** C1 (as amended). In a store (of projects or of articles) whose records
    carry distinct ids that are safe integers (below [2^53] in magnitude),
    and for record data without an [id] field of its own:
    - [add] appends the data under the id [max + 1] ([1] in the empty
      store), which is above every id of the store, so ids stay distinct,
      and returns that record when the rewrite succeeds;
    - once [delete(id)] has succeeded, [getById(id)] finds nothing, the ids
      are still distinct, and the next [add] assigns one more than the
      greatest id left ([1] when none is left): it does not take the
      deleted id when a record with a greater id is left in the store, and
      it takes the deleted id again when that id is the one after the
      greatest id left. *)
Theorem add_takes_max_plus_one_delete_frees_id `{JSON}
    (ps : ProjectService.t) (ars : ArticleService.t) (w : World)
    (zs zs' : list Z) (data : record) (id : value) :
  numbered (ProjectService.projects ps) zs -> NoDup zs -> Forall safe zs ->
  numbered (ArticleService.articles ars) zs' -> NoDup zs' -> Forall safe zs' ->
  data !! "id" = None ->
  (exists n w',
      next_id zs n
      /\ snd (ProjectService.addProject data (ps, w))
         = (ProjectService.mk (ProjectService.projects ps ++ [<["id" := VNum n]> data])
                              (ProjectService.initialized ps), w')
      /\ (disk_ok w = true ->
          fst (ProjectService.addProject data (ps, w))
          = Return (<["id" := VNum n]> data))
      /\ (forall z, z ∈ zs -> (z < n)%Z)
      /\ numbered (ProjectService.projects ps ++ [<["id" := VNum n]> data]) (zs ++ [n])
      /\ NoDup (zs ++ [n]))
  /\ (forall d ps1 w1,
      ProjectService.deleteProject id (ps, w) = (Return (Some d), (ps1, w1)) ->
      exists z zs1,
        Number_ id = VNum z /\ ident d = VNum z /\ z ∈ zs
        /\ numbered (ProjectService.projects ps1) zs1 /\ NoDup zs1 /\ (z ∉ zs1)
        /\ ProjectService.getProjectById id (ps1, w1) = (Return None, (ps1, w1))
        /\ exists n w2,
              next_id zs1 n
              /\ snd (ProjectService.addProject data (ps1, w1))
                 = (ProjectService.mk
                      (ProjectService.projects ps1 ++ [<["id" := VNum n]> data])
                      (ProjectService.initialized ps1), w2)
              /\ ((exists y, y ∈ zs1 /\ (z < y)%Z) -> n <> z)
              /\ (next_id zs1 z -> n = z))
  /\ (exists n r w',
      next_id zs' n /\ ident r = VNum n
      /\ snd (ArticleService.addArticle data (ars, w))
         = (ArticleService.mk (ArticleService.articles ars ++ [r])
                              (ArticleService.initialized ars), w')
      /\ (disk_ok w = true ->
          fst (ArticleService.addArticle data (ars, w)) = Return r)
      /\ (forall z, z ∈ zs' -> (z < n)%Z)
      /\ numbered (ArticleService.articles ars ++ [r]) (zs' ++ [n])
      /\ NoDup (zs' ++ [n]))
  /\ (forall d ars1 w1,
      ArticleService.deleteArticle id (ars, w) = (Return (Some d), (ars1, w1)) ->
      exists z zs1,
        Number_ id = VNum z /\ ident d = VNum z /\ z ∈ zs'
        /\ numbered (ArticleService.articles ars1) zs1 /\ NoDup zs1 /\ (z ∉ zs1)
        /\ ArticleService.getArticleById id (ars1, w1) = (Return None, (ars1, w1))
        /\ exists n r w2,
              next_id zs1 n /\ ident r = VNum n
              /\ snd (ArticleService.addArticle data (ars1, w1))
                 = (ArticleService.mk (ArticleService.articles ars1 ++ [r])
                                      (ArticleService.initialized ars1), w2)
              /\ ((exists y, y ∈ zs1 /\ (z < y)%Z) -> n <> z)
              /\ (next_id zs1 z -> n = z)).
Proof.
  intros Hn Hd Hs Hn' Hd' Hs' Hdata. split; [|split; [|split]].
  - destruct (addProject_run data ps w zs Hn Hs) as (n & Hnext & Hrun).
    simpl in Hrun. rewrite (spread_id_fresh _ _ Hdata) in Hrun.
    assert (Hnum : numbered (ProjectService.projects ps ++ [<["id" := VNum n]> data])
                            (zs ++ [n])).
    { apply numbered_app; [assumption|].
      unfold ident, get. rewrite lookup_insert_eq. reflexivity. }
    pose proof (next_id_fresh _ _ Hnext Hd) as Hfresh.
    pose proof (fun z => next_id_above zs n z Hnext) as Habove.
    exists n. rewrite Hrun.
    destruct (disk_ok w); eexists;
      (split; [exact Hnext|]); (split; [reflexivity|]);
      (split; [intros Hw; first [reflexivity | discriminate]|]);
      (split; [exact Habove|]); (split; [exact Hnum | exact Hfresh]).
  - intros d ps1 w1 Hdel.
    destruct (deleteProject_run _ _ _ _ _ _ Hdel) as (i & Hi & Hl & -> & Hw).
    destruct (deleted_id_facts _ _ _ _ _ Hn Hd Hi Hl)
      as (z & Hnum & Hid & Hz & Hnot & Habs).
    exists z, (delete i zs). simpl.
    split; [assumption|]. split; [assumption|]. split; [assumption|].
    split; [apply numbered_delete; assumption|].
    split; [exact (sublist_NoDup _ _ Hd (sublist_delete zs i))|].
    split; [assumption|].
    split.
    + unfold ProjectService.getProjectById, Sys.bind, Sys.this, Sys.ret. simpl.
      rewrite (find_None (fun p => strict_eq (get p "id") (Number_ id)) _ Habs).
      reflexivity.
    + destruct (addProject_run data
                  (ProjectService.mk (delete i (ProjectService.projects ps))
                                     (ProjectService.initialized ps))
                  w1 (delete i zs) (numbered_delete _ _ i Hn) (safe_delete _ i Hs))
        as (n & Hnext & Hrun).
      simpl in Hrun. rewrite (spread_id_fresh _ _ Hdata) in Hrun.
      exists n. rewrite Hrun.
      destruct (disk_ok w1); eexists;
        (split; [exact Hnext|]); (split; [reflexivity|]);
        (split; [intros (y & Hy & Hlt);
                 pose proof (next_id_above _ _ _ Hnext Hy); lia
                | intros Hz'; exact (next_id_functional _ _ _ Hnext Hz')]).
  - destruct (addArticle_run data ars w zs' Hn' Hs') as (n & Hnext & Hrun).
    cbv zeta in Hrun.
    set (r := spread (spread {[ "id" := VNum n ]} data)
                     {[ "date" := Js.or_else (get data "date") (VStr (now_iso w)) ]})
      in *.
    assert (Hr : ident r = VNum n) by (apply new_article_ident; exact Hdata).
    pose proof (numbered_app _ _ _ _ Hn' Hr) as Hnum.
    pose proof (next_id_fresh _ _ Hnext Hd') as Hfresh.
    pose proof (fun z => next_id_above zs' n z Hnext) as Habove.
    exists n, r. rewrite Hrun.
    destruct (disk_ok w); eexists;
      (split; [exact Hnext|]); (split; [exact Hr|]); (split; [reflexivity|]);
      (split; [intros Hw; first [reflexivity | discriminate]|]);
      (split; [exact Habove|]); (split; [exact Hnum | exact Hfresh]).
  - intros d ars1 w1 Hdel.
    destruct (deleteArticle_run _ _ _ _ _ _ Hdel) as (i & Hi & Hl & -> & Hw).
    destruct (deleted_id_facts _ _ _ _ _ Hn' Hd' Hi Hl)
      as (z & Hnum & Hid & Hz & Hnot & Habs).
    exists z, (delete i zs'). simpl.
    split; [assumption|]. split; [assumption|]. split; [assumption|].
    split; [apply numbered_delete; assumption|].
    split; [exact (sublist_NoDup _ _ Hd' (sublist_delete zs' i))|].
    split; [assumption|].
    split.
    + unfold ArticleService.getArticleById, Sys.bind, Sys.this, Sys.ret. simpl.
      rewrite (find_None (fun p => strict_eq (get p "id") (Number_ id)) _ Habs).
      reflexivity.
    + destruct (addArticle_run data
                  (ArticleService.mk (delete i (ArticleService.articles ars))
                                     (ArticleService.initialized ars))
                  w1 (delete i zs') (numbered_delete _ _ i Hn') (safe_delete _ i Hs'))
        as (n & Hnext & Hrun).
      cbv zeta in Hrun.
      set (r := spread (spread {[ "id" := VNum n ]} data)
                       {[ "date" := Js.or_else (get data "date") (VStr (now_iso w1)) ]})
        in *.
      assert (Hr : ident r = VNum n) by (apply new_article_ident; exact Hdata).
      exists n, r. rewrite Hrun.
      destruct (disk_ok w1); eexists;
        (split; [exact Hnext|]); (split; [exact Hr|]); (split; [reflexivity|]);
        (split; [intros (y & Hy & Hlt);
                 pose proof (next_id_above _ _ _ Hnext Hy); lia
                | intros Hz'; exact (next_id_functional _ _ _ Hnext Hz')]).
Qed.

Lemma add_takes_max_plus_one_delete_frees_id_witness :
  numbered (ProjectService.projects Sample.two_projects) [1; 2]%Z
  /\ NoDup [1; 2]%Z
  /\ Forall safe [1; 2]%Z
  /\ numbered (ArticleService.articles Sample.two_articles) [1; 2]%Z
  /\ ({[ "title" := VStr "Casa Z" ]} : record) !! "id" = None
  /\ exists n w',
      next_id [1; 2]%Z n
      /\ snd (ProjectService.addProject (H := Sample.json)
                {[ "title" := VStr "Casa Z" ]}
                (Sample.two_projects, Sample.world ∅ true))
         = (ProjectService.mk
              (ProjectService.projects Sample.two_projects
               ++ [<["id" := VNum n]> {[ "title" := VStr "Casa Z" ]}])
              true, w').
Proof.
  assert (H1 : numbered (ProjectService.projects Sample.two_projects) [1; 2]%Z)
    by reflexivity.
  assert (H2 : NoDup [1; 2]%Z) by (apply (bool_decide_unpack _); vm_compute; exact I).
  assert (Hs : Forall safe [1; 2]%Z) by (repeat constructor).
  assert (H1' : numbered (ArticleService.articles Sample.two_articles) [1; 2]%Z)
    by reflexivity.
  assert (H3 : ({[ "title" := VStr "Casa Z" ]} : record) !! "id" = None)
    by reflexivity.
  split; [exact H1|]. split; [exact H2|]. split; [exact Hs|]. split; [exact H1'|].
  split; [exact H3|].
  destruct (add_takes_max_plus_one_delete_frees_id (H := Sample.json)
              Sample.two_projects Sample.two_articles (Sample.world ∅ true)
              [1; 2]%Z [1; 2]%Z
              {[ "title" := VStr "Casa Z" ]} (VStr "1") H1 H2 Hs H1' H2 Hs H3)
    as [(n & w' & Hnext & Hrun & _) _].
  exists n, w'. split; assumption.
Defined.

(** C1, the statement of the specification refuted: in the store of the
    records 1 and 2, [delete("2")] succeeds, [getById("2")] then finds
    nothing, and the next [add] returns a record that carries the id 2
    again. *)
Lemma deleted_id_is_assigned_again :
  let s0 := (Sample.two_projects, Sample.world ∅ true) in
  let s1 := snd (ProjectService.deleteProject (H := Sample.json) (VStr "2") s0) in
  fst (ProjectService.deleteProject (H := Sample.json) (VStr "2") s0)
  = Return (Some (Sample.project 2 "Torre Y"))
  /\ ProjectService.projects (fst s1) = [Sample.project 1 "Ponte X"]
  /\ fst (ProjectService.getProjectById (VStr "2") s1) = Return None
  /\ fst (ProjectService.addProject (H := Sample.json)
            {[ "title" := VStr "Casa Z" ]} s1)
     = Return {[ "id" := VNum 2; "title" := VStr "Casa Z" ]}.
Proof.
  split; [vm_compute; reflexivity|].
  split; [vm_compute; reflexivity|].
  split; [vm_compute; reflexivity|].
  vm_compute; reflexivity.
Qed.

(** The deleted id is not always the one assigned next: in the store of
    the records 1 and 5, after [delete("5")] the next [add] assigns the
    id 2. *)
Example id_after_the_greatest_left_is_assigned :
  let s0 := (ProjectService.mk [Sample.project 1 "Ponte X"; Sample.project 5 "Torre Y"]
               true, Sample.world ∅ true) in
  let s1 := snd (ProjectService.deleteProject (H := Sample.json) (VStr "5") s0) in
  ProjectService.projects (fst s1) = [Sample.project 1 "Ponte X"]
  /\ fst (ProjectService.addProject (H := Sample.json)
            {[ "title" := VStr "Casa Z" ]} s1)
     = Return {[ "id" := VNum 2; "title" := VStr "Casa Z" ]}.
Proof. split; vm_compute; reflexivity. Qed.

Lemma findIndex_first {A} (pred : A -> bool) (l : list A) (i : nat) (x : A) :
  l !! i = Some x -> pred x = true ->
  Forall (fun y => pred y = false) (take i l) ->
  findIndex pred l = Some i.
Proof.
  revert i; induction l as [|y l IH]; intros [|i]; simpl; try discriminate.
  - intros [= ->] -> _. reflexivity.
  - intros Hx Hp Hf. inversion Hf as [|? ? Hy Hf']; subst.
    rewrite Hy, (IH i Hx Hp Hf'). reflexivity.
Qed.

Lemma spread_merge_defined (old patch : record) :
  (forall k, patch !! k <> Some VUndefined) ->
  spread old patch = merge_defined old patch.
Proof.
  intros Hdef. unfold spread, merge_defined. f_equal.
  symmetry. apply map_filter_id. intros k v Hk. simpl. intros ->.
  exact (Hdef k Hk).
Qed.

(** C4 (as amended). When the store holds a record answering to [id]
    (the first such record, at index [i]), [update(id, patch)] puts in its
    place the object spread of the record and the patch, in which every own
    field of the patch, a field whose value is [undefined] included,
    overrides the field of the record, and, when the rewrite succeeds,
    returns the updated record together with the prior one.  When no record
    answers to [id] it returns [null].  For a patch without undefined
    fields the spread is the merge that leaves out undefined fields.  Both
    stores behave so. *)
Theorem update_spreads_patch_over_record `{JSON}
    (id : value) (patch : record)
    (ps : ProjectService.t) (ars : ArticleService.t) (w : World) :
  (forall i old,
      ProjectService.projects ps !! i = Some old ->
      strict_eq (ident old) (Number_ id) = true ->
      absent id (take i (ProjectService.projects ps)) ->
      exists w',
        snd (ProjectService.updateProject id patch (ps, w))
        = (ProjectService.mk (<[i := spread old patch]> (ProjectService.projects ps))
                             (ProjectService.initialized ps), w')
        /\ (disk_ok w = true ->
            fst (ProjectService.updateProject id patch (ps, w))
            = Return (Some (spread old patch, old))))
  /\ (absent id (ProjectService.projects ps) ->
      ProjectService.updateProject id patch (ps, w) = (Return None, (ps, w)))
  /\ (forall i old,
      ArticleService.articles ars !! i = Some old ->
      strict_eq (ident old) (Number_ id) = true ->
      absent id (take i (ArticleService.articles ars)) ->
      exists w',
        snd (ArticleService.updateArticle id patch (ars, w))
        = (ArticleService.mk (<[i := spread old patch]> (ArticleService.articles ars))
                             (ArticleService.initialized ars), w')
        /\ (disk_ok w = true ->
            fst (ArticleService.updateArticle id patch (ars, w))
            = Return (Some (spread old patch, old))))
  /\ (absent id (ArticleService.articles ars) ->
      ArticleService.updateArticle id patch (ars, w) = (Return None, (ars, w)))
  /\ (forall old k,
      spread old patch !! k = from_option Some (old !! k) (patch !! k))
  /\ ((forall k, patch !! k <> Some VUndefined) ->
      forall old, spread old patch = merge_defined old patch).
Proof.
  split; [|split; [|split; [|split; [|split]]]].
  - intros i old Hl Hp Hf.
    pose proof (findIndex_first
                  (fun p => strict_eq (get p "id") (Number_ id)) _ _ _ Hl Hp Hf) as Hi.
    unfold ProjectService.updateProject, ProjectService._save. run_method.
    rewrite Hi, Hl. simpl.
    destruct (disk_ok w); simpl; eexists;
      (split; [reflexivity | intros Hw; first [reflexivity | discriminate]]).
  - intros Ha. apply findIndex_None in Ha. unfold ident in Ha.
    unfold ProjectService.updateProject. run_method. rewrite Ha. reflexivity.
  - intros i old Hl Hp Hf.
    pose proof (findIndex_first
                  (fun p => strict_eq (get p "id") (Number_ id)) _ _ _ Hl Hp Hf) as Hi.
    unfold ArticleService.updateArticle, ArticleService._save. run_method.
    rewrite Hi, Hl. simpl.
    destruct (disk_ok w); simpl; eexists;
      (split; [reflexivity | intros Hw; first [reflexivity | discriminate]]).
  - intros Ha. apply findIndex_None in Ha. unfold ident in Ha.
    unfold ArticleService.updateArticle. run_method. rewrite Ha. reflexivity.
  - intros old k. apply spread_lookup.
  - intros Hdef old. apply spread_merge_defined. assumption.
Qed.

Lemma update_spreads_patch_over_record_witness :
  ProjectService.projects Sample.two_projects !! 1%nat = Some (Sample.project 2 "Torre Y")
  /\ strict_eq (ident (Sample.project 2 "Torre Y")) (Number_ (VStr "2")) = true
  /\ absent (VStr "2") (take 1 (ProjectService.projects Sample.two_projects))
  /\ exists w',
      snd (ProjectService.updateProject (H := Sample.json) (VStr "2")
             {[ "title" := VStr "Torre Z" ]}
             (Sample.two_projects, Sample.world ∅ true))
      = (ProjectService.mk
           (<[1%nat := spread (Sample.project 2 "Torre Y") {[ "title" := VStr "Torre Z" ]}]>
              (ProjectService.projects Sample.two_projects)) true, w').
Proof.
  assert (H1 : ProjectService.projects Sample.two_projects !! 1%nat
               = Some (Sample.project 2 "Torre Y")) by reflexivity.
  assert (H2 : strict_eq (ident (Sample.project 2 "Torre Y")) (Number_ (VStr "2")) = true)
    by reflexivity.
  assert (H3 : absent (VStr "2") (take 1 (ProjectService.projects Sample.two_projects)))
    by (repeat constructor).
  split; [exact H1|]. split; [exact H2|]. split; [exact H3|].
  destruct (proj1 (update_spreads_patch_over_record (H := Sample.json) (VStr "2")
                     {[ "title" := VStr "Torre Z" ]} Sample.two_projects
                     Sample.two_articles (Sample.world ∅ true))
                  1%nat _ H1 H2 H3) as (w' & Hrun & _).
  exists w'. exact Hrun.
Defined.

(** C4, the statement of the specification refuted: a patch whose [title]
    is [undefined] overwrites the title of the record, in both stores. *)
Lemma undefined_patch_field_overwrites :
  let patch : record := {[ "title" := VUndefined ]} in
  let w := Sample.world ∅ true in
  let old := Sample.project 1 "Ponte X" in
  let old' := Sample.project 1 "Nota A" in
  let updated : record := {[ "id" := VNum 1; "title" := VUndefined ]} in
  fst (ProjectService.updateProject (H := Sample.json) (VStr "1") patch
         (Sample.two_projects, w)) = Return (Some (updated, old))
  /\ merge_defined old patch = old
  /\ updated <> merge_defined old patch
  /\ fst (ArticleService.updateArticle (H := Sample.json) (VStr "1") patch
            (Sample.two_articles, w)) = Return (Some (updated, old'))
  /\ merge_defined old' patch = old'
  /\ updated <> merge_defined old' patch.
Proof.
  split; [vm_compute; reflexivity|].
  split; [vm_compute; reflexivity|].
  split; [intros Heq; apply (f_equal (fun r => get r "title")) in Heq;
          vm_compute in Heq; discriminate|].
  split; [vm_compute; reflexivity|].
  split; [vm_compute; reflexivity|].
  intros Heq; apply (f_equal (fun r => get r "title")) in Heq.
  vm_compute in Heq; discriminate.
Qed.

(** C7 (as amended). For both stores [init] is idempotent, never throws and
    leaves the store initialised.  When the backing file is missing, the
    article store creates it with the text of the empty array (when that
    write succeeds) and the project store does not create it; both go on
    with an empty list.  When the file is there but does not parse, both
    stores log the error and go on with an empty list, the file untouched. *)
Theorem init_idempotent_and_falls_back_to_empty `{JSON}
    (ps : ProjectService.t) (ars : ArticleService.t) (w : World) :
  (exec ProjectService.init in ProjectService.init) (ps, w)
    = ProjectService.init (ps, w)
  /\ (exec ArticleService.init in ArticleService.init) (ars, w)
    = ArticleService.init (ars, w)
  /\ fst (ProjectService.init (ps, w)) = Return tt
  /\ fst (ArticleService.init (ars, w)) = Return tt
  /\ ProjectService.initialized (fst (snd (ProjectService.init (ps, w)))) = true
  /\ ArticleService.initialized (fst (snd (ArticleService.init (ars, w)))) = true
  /\ (ProjectService.initialized ps = false ->
      files w !! ProjectService.DATA_FILE_PATH = None ->
      ProjectService.init (ps, w)
      = (Return tt,
         (ProjectService.mk [] true,
          emit (ConsoleError "Failed to load projects.json:")
               (emit (FsRead ProjectService.DATA_FILE_PATH false) w)))
      /\ files (snd (snd (ProjectService.init (ps, w))))
           !! ProjectService.DATA_FILE_PATH = None)
  /\ (ArticleService.initialized ars = false ->
      files w !! ArticleService.DATA_FILE_PATH = None ->
      exists w',
        ArticleService.init (ars, w) = (Return tt, (ArticleService.mk [] true, w'))
        /\ files w' !! ArticleService.DATA_FILE_PATH
           = if disk_ok w then Some "[]" else None)
  /\ (forall text,
      ProjectService.initialized ps = false ->
      files w !! ProjectService.DATA_FILE_PATH = Some text ->
      JSON_parse text = None ->
      ProjectService.init (ps, w)
      = (Return tt,
         (ProjectService.mk [] true,
          emit (ConsoleError "Failed to load projects.json:")
               (emit (FsRead ProjectService.DATA_FILE_PATH true) w))))
  /\ (forall text,
      ArticleService.initialized ars = false ->
      files w !! ArticleService.DATA_FILE_PATH = Some text ->
      JSON_parse text = None ->
      ArticleService.init (ars, w)
      = (Return tt,
         (ArticleService.mk [] true,
          emit (ConsoleError "Failed to load articles.json:")
               (emit (FsRead ArticleService.DATA_FILE_PATH true) w)))).
Proof.
  assert (HP : fst (ProjectService.init (ps, w)) = Return tt
               /\ ProjectService.initialized
                    (fst (snd (ProjectService.init (ps, w)))) = true).
  { unfold ProjectService.init. run_method.
    destruct (ProjectService.initialized ps) eqn:Hi; simpl;
      [split; [reflexivity|exact Hi]|].
    destruct (files w !! ProjectService.DATA_FILE_PATH) as [text|]; simpl;
      [|split; reflexivity].
    destruct (JSON_parse text); simpl; split; reflexivity. }
  assert (HA : fst (ArticleService.init (ars, w)) = Return tt
               /\ ArticleService.initialized
                    (fst (snd (ArticleService.init (ars, w)))) = true).
  { unfold ArticleService.init. run_method.
    destruct (ArticleService.initialized ars) eqn:Hi; simpl;
      [split; [reflexivity|exact Hi]|].
    destruct (files w !! ArticleService.DATA_FILE_PATH) as [text|] eqn:Hf; simpl.
    - try (rewrite bool_decide_eq_true_2 by eauto). simpl. rewrite Hf. simpl.
      destruct (JSON_parse text); simpl; split; reflexivity.
    - try (rewrite bool_decide_eq_false_2 by (intros [? ?]; discriminate)). simpl.
      destruct (disk_ok w); simpl; [|split; reflexivity].
      rewrite lookup_insert_eq. simpl. rewrite JSON_parse_empty_array. simpl.
      split; reflexivity. }
  destruct HP as [HP1 HP2], HA as [HA1 HA2].
  split; [|split; [|split; [exact HP1|split; [exact HA1|split;
    [exact HP2|split; [exact HA2|split; [|split; [|split]]]]]]]].
  - unfold Sys.bind at 1.
    destruct (ProjectService.init (ps, w)) as [[[]|e] [ps1 w1]] eqn:Hrun;
      simpl in HP1, HP2; [|discriminate].
    unfold ProjectService.init. run_method. rewrite HP2. reflexivity.
  - unfold Sys.bind at 1.
    destruct (ArticleService.init (ars, w)) as [[[]|e] [ars1 w1]] eqn:Hrun;
      simpl in HA1, HA2; [|discriminate].
    unfold ArticleService.init. run_method. rewrite HA2. reflexivity.
  - intros Hi Hf. unfold ProjectService.init. run_method. rewrite Hi. simpl.
    rewrite Hf. simpl.
    split; [reflexivity | exact Hf].
  - intros Hi Hf. unfold ArticleService.init. run_method. rewrite Hi. simpl.
    rewrite Hf.
    try (rewrite bool_decide_eq_false_2 by (intros [? ?]; discriminate)). simpl.
    destruct (disk_ok w); simpl.
    + rewrite lookup_insert_eq. simpl. rewrite JSON_parse_empty_array. simpl.
      eexists. split; [reflexivity|]. simpl. apply lookup_insert_eq.
    + eexists. split; [reflexivity|]. simpl. exact Hf.
  - intros text Hi Hf Hparse. unfold ProjectService.init. run_method.
    rewrite Hi. simpl. rewrite Hf. simpl. rewrite Hparse. reflexivity.
  - intros text Hi Hf Hparse. unfold ArticleService.init. run_method.
    rewrite Hi. simpl. rewrite Hf. try (rewrite bool_decide_eq_true_2 by eauto). simpl.
    rewrite Hf. simpl. rewrite Hparse. reflexivity.
Qed.

Lemma init_idempotent_and_falls_back_to_empty_witness :
  ArticleService.initialized ArticleService.new = false
  /\ files (Sample.world ∅ true) !! ArticleService.DATA_FILE_PATH = None
  /\ exists w',
      ArticleService.init (H := Sample.json)
        (ArticleService.new, Sample.world ∅ true)
      = (Return tt, (ArticleService.mk [] true, w'))
      /\ files w' !! ArticleService.DATA_FILE_PATH = Some "[]".
Proof.
  split; [reflexivity|]. split; [reflexivity|].
  exact (proj1 (proj2 (proj2 (proj2 (proj2 (proj2 (proj2 (proj2
          (init_idempotent_and_falls_back_to_empty (H := Sample.json)
             ProjectService.new ArticleService.new (Sample.world ∅ true)))))))))
          eq_refl eq_refl).
Defined.

(** C7, the statement of the specification refuted for the project store:
    with no [projects.json] on a writable disk, [init] ends with an empty
    list and the file is still missing, where the article store has created
    its file. *)
Lemma project_init_does_not_create_missing_file :
  let w := Sample.world ∅ true in
  exists o' w' a' wa',
    files w !! ProjectService.DATA_FILE_PATH = None
    /\ ProjectService.init (H := Sample.json) (ProjectService.new, w)
       = (Return tt, (o', w'))
    /\ ProjectService.projects o' = []
    /\ files w' !! ProjectService.DATA_FILE_PATH = None
    /\ files w' !! ProjectService.DATA_FILE_PATH <> Some "[]"
    /\ ArticleService.init (H := Sample.json) (ArticleService.new, w)
       = (Return tt, (a', wa'))
    /\ files wa' !! ArticleService.DATA_FILE_PATH = Some "[]".
Proof.
  simpl. eexists _, _, _, _.
  split; [reflexivity|].
  split; [vm_compute; reflexivity|].
  split; [reflexivity|].
  split; [reflexivity|].
  split; [discriminate|].
  split; [vm_compute; reflexivity|].
  reflexivity.
Qed.

(** ** The admin gate *)

Lemma eqb_false_neq (a b : string) : a <> b -> String.eqb a b = false.
Proof. intros Hne. apply String.eqb_neq. exact Hne. Qed.

(** C2 (as amended). Unless the server runs outside production and the
    client IP is a localhost address, a request whose client IP is not in
    the allowlist, the wildcard not being set, is answered 403 Forbidden
    with one security event, and that answer does not depend on the
    Authorization header or on the configured token: the token check is not
    performed.  Conversely the token check decides the outcome only when
    the IP is allowlisted, the wildcard is set, or the localhost bypass of
    development applies. *)
Theorem admin_gate_blocks_ip_before_token_check
    (env : Env) (req : Request) (st : State) :
  isLocalDev env && isLocalhost (clientIp req) = false ->
  Str.includes (allowedIps (lazy_init env st)) (clientIp req) = false ->
  allowedIpsStr (lazy_init env st) <> "*" ->
  (forall a t,
      adminAuth (with_token env t) (with_authorization req a) st
      = (Respond 403 "Forbidden: IP not authorized",
         [Event "admin_ip_blocked" (clientIp req) (path req)],
         lazy_init env st))
  /\ (forall env' req' st',
      adminAuth env' req' st' = (tokenCheck env' req', lazy_init env' st')
      \/ adminAuth env' req' st'
         = (Respond 403 "Forbidden: IP not authorized",
            [Event "admin_ip_blocked" (clientIp req') (path req')],
            lazy_init env' st'))
  /\ (forall env' req' st',
      ipBlocked env' (lazy_init env' st') req' = false ->
      adminAuth env' req' st' = (tokenCheck env' req', lazy_init env' st')
      /\ (isLocalDev env' && isLocalhost (clientIp req') = true
          \/ allowedIpsStr (lazy_init env' st') = "*"
          \/ Str.includes (allowedIps (lazy_init env' st')) (clientIp req') = true)).
Proof.
  intros Hby Hin Hwild. split; [|split].
  - intros a t. unfold adminAuth.
    change (lazy_init (with_token env t) st) with (lazy_init env st).
    change (clientIp (with_authorization req a)) with (clientIp req).
    change (path (with_authorization req a)) with (path req).
    unfold ipBlocked.
    change (clientIp (with_authorization req a)) with (clientIp req).
    change (isLocalDev (with_token env t)) with (isLocalDev env).
    rewrite Hby, Hin, (eqb_false_neq _ _ Hwild). simpl.
    rewrite orb_true_r. reflexivity.
  - intros env' req' st'. unfold adminAuth.
    destruct (ipBlocked env' (lazy_init env' st') req'); [right | left]; reflexivity.
  - clear Hby Hin Hwild. intros env' req' st' Hb. unfold adminAuth. rewrite Hb.
    split; [reflexivity|].
    unfold ipBlocked in Hb.
    destruct (isLocalDev env' && isLocalhost (clientIp req')); [left; reflexivity|].
    destruct (String.eqb_spec (allowedIpsStr (lazy_init env' st')) "*") as [->|_];
      [right; left; reflexivity|].
    destruct (Str.includes _ _); [right; right; reflexivity|].
    simpl in Hb. rewrite orb_true_r in Hb. discriminate.
Qed.

Lemma admin_gate_blocks_ip_before_token_check_witness :
  let env := mkEnv (Some "10.0.0.1, 10.0.0.2") (Some "production") (Some "s3cret") in
  let req := mkRequest (Some "203.0.113.7") None "/api/admin/projects"
               (Some "Bearer s3cret") in
  isLocalDev env && isLocalhost (clientIp req) = false
  /\ Str.includes (allowedIps (lazy_init env initial)) (clientIp req) = false
  /\ allowedIpsStr (lazy_init env initial) <> "*"
  /\ adminAuth env req initial
     = (Respond 403 "Forbidden: IP not authorized",
        [Event "admin_ip_blocked" (Some "203.0.113.7") "/api/admin/projects"],
        mkState "10.0.0.1, 10.0.0.2" ["10.0.0.1"; "10.0.0.2"]).
Proof.
  simpl.
  split; [reflexivity|]. split; [reflexivity|]. split; [discriminate|].
  exact (proj1 (admin_gate_blocks_ip_before_token_check
                  (mkEnv (Some "10.0.0.1, 10.0.0.2") (Some "production") (Some "s3cret"))
                  (mkRequest (Some "203.0.113.7") None "/api/admin/projects"
                     (Some "Bearer s3cret"))
                  initial eq_refl eq_refl ltac:(discriminate))
               (Some "Bearer s3cret") (Some "s3cret")).
Defined.

(** C2, the statement of the specification refuted: outside production a
    request from 127.0.0.1, which is not in the allowlist (no wildcard), is
    not answered 403; its bearer token is checked and it is let through. *)
Lemma localhost_in_development_skips_ip_check :
  let env := mkEnv (Some "10.0.0.1") None None in
  let req := mkRequest (Some "127.0.0.1") None "/api/admin/projects"
               (Some "Bearer admin_secret_token") in
  Str.includes (allowedIps (lazy_init env initial)) (clientIp req) = false
  /\ allowedIpsStr (lazy_init env initial) <> "*"
  /\ adminAuth env req initial = (Next, [], mkState "10.0.0.1" ["10.0.0.1"])
  /\ adminAuth env (with_authorization req (Some "Bearer wrong")) initial
     = (Respond 401 "Unauthorized: Invalid token",
        [Event "admin_auth_failed" (Some "127.0.0.1") "/api/admin/projects"],
        mkState "10.0.0.1" ["10.0.0.1"]).
Proof.
  simpl. split; [reflexivity|]. split; [discriminate|].
  split; vm_compute; reflexivity.
Qed.

(** The second definition of the gate carried by the file has no bypass:
    it answers 403 whenever the IP is not allowlisted and the wildcard is
    not set. *)
Lemma strict_gate_blocks_every_foreign_ip (env : Env) (req : Request) (st : State) :
  Str.includes (allowedIps (lazy_init env st)) (clientIp req) = false ->
  allowedIpsStr (lazy_init env st) <> "*" ->
  adminAuth_strict env req st
  = (Respond 403 "Forbidden: IP not authorized",
     [Event "admin_ip_blocked" (clientIp req) (path req)], lazy_init env st).
Proof.
  intros Hin Hwild. unfold adminAuth_strict.
  rewrite Hin, (eqb_false_neq _ _ Hwild). simpl. rewrite orb_true_r. reflexivity.
Qed.

(** ** The contact limiter *)







(** ** The per-email limiter *)

Lemma ceil_seconds_pos (x : Z) : (0 < x)%Z -> (0 < ceil_seconds x)%Z.
Proof.
  intros Hx. unfold ceil_seconds.
  assert ((- x) / 1000 < 0)%Z by (apply Z.div_lt_upper_bound; lia). lia.
Qed.

Lemma check_allowed (now : Z) (email : string) (max : nat) (W : Z)
    (m : gmap string (list Z)) :
  let k := Str.toLowerCase email in
  let valid := List.filter (fun time => (now - time <? W)%Z) (stored m k) in
  (length valid < max)%nat ->
  exists l m',
    checkEmailRateLimit now email max W m = (l, m')
    /\ allowed l = true
    /\ stored m' k = valid ++ [now].
Proof.
  intros k valid Hlen. unfold checkEmailRateLimit. fold k.
  assert (Hst : default [] (match m !! k with
                            | Some _ => m
                            | None => <[k := []]> m
                            end !! k) = stored m k).
  { unfold stored. destruct (m !! k) eqn:Hk; [rewrite Hk; reflexivity|].
    rewrite lookup_insert_eq. reflexivity. }
  rewrite Hst. fold valid.
  destruct (Nat.leb_spec max (length valid)) as [Hge|_]; [lia|].
  eexists _, _. split; [reflexivity|]. split; [reflexivity|].
  unfold stored. rewrite lookup_insert_eq. reflexivity.
Qed.

Lemma check_refused (now : Z) (email : string) (max : nat) (W : Z)
    (m : gmap string (list Z)) :
  let k := Str.toLowerCase email in
  let valid := List.filter (fun time => (now - time <? W)%Z) (stored m k) in
  is_Some (m !! k) ->
  (max <= length valid)%nat ->
  checkEmailRateLimit now email max W m
  = (mkLimit false 0 match valid !! 0%nat with
                     | Some t => VNum (t + W)
                     | None => VNaN
                     end, m).
Proof.
  intros k valid [l Hl] Hlen. unfold checkEmailRateLimit. fold k.
  assert (Hm : match m !! k with
               | Some _ => m
               | None => <[k := []]> m
               end = m) by (rewrite Hl; reflexivity).
  rewrite Hm. fold (stored m k). fold valid.
  destruct (Nat.leb_spec max (length valid)) as [_|Hlt]; [reflexivity | lia].
Qed.

Lemma check_verdict (now : Z) (email : string) (max : nat) (W : Z)
    (m : gmap string (list Z)) :
  let k := Str.toLowerCase email in
  let valid := List.filter (fun time => (now - time <? W)%Z) (stored m k) in
  allowed (fst (checkEmailRateLimit now email max W m))
  = negb (max <=? length valid)%nat.
Proof.
  intros k valid. unfold checkEmailRateLimit. fold k.
  assert (Hst : default [] (match m !! k with
                            | Some _ => m
                            | None => <[k := []]> m
                            end !! k) = stored m k).
  { unfold stored. destruct (m !! k) eqn:Hk; [rewrite Hk; reflexivity|].
    rewrite lookup_insert_eq. reflexivity. }
  rewrite Hst. fold valid. destruct (max <=? length valid)%nat; reflexivity.
Qed.

Lemma filter_all_pass {A} (f : A -> bool) (l : list A) :
  Forall (fun x => f x = true) l -> List.filter f l = l.
Proof.
  induction 1 as [|x l Hx _ IH]; simpl; [reflexivity|]. rewrite Hx, IH. reflexivity.
Qed.

Lemma filter_is_sublist {A} (f : A -> bool) (l : list A) :
  List.filter f l `sublist_of` l.
Proof.
  induction l as [|x l IH]; simpl; [constructor|].
  destruct (f x); [apply sublist_skip | apply sublist_cons]; exact IH.
Qed.

Lemma sublist_sorted (l1 l2 : list Z) :
  l1 `sublist_of` l2 -> StronglySorted Z.le l2 -> StronglySorted Z.le l1.
Proof.
  induction 1 as [|x l1 l2 Hs IH|x l1 l2 Hs IH]; intros Hsorted.
  - constructor.
  - apply StronglySorted_cons in Hsorted as [Hx Hsorted].
    apply StronglySorted_cons. split; [|auto].
    apply Forall_forall. intros y Hy.
    exact (proj1 (Forall_forall _ _) Hx y (elem_of_sublist _ _ _ Hy Hs)).
  - apply StronglySorted_cons in Hsorted as [_ Hsorted]. auto.
Qed.

(** Allowed submissions of one key pile up behind what is kept of the
    earlier record, as long as they stay within the window of [T]. *)
Lemma check_all_accumulates (k : string) (T : Z) (subs : list (Z * string)) :
  forall (m : gmap string (list Z)) (pre ts0 : list Z),
    Forall (fun s => Str.toLowerCase s.2 = k) subs ->
    Forall (fun s => (s.1 <= T)%Z /\ (T - s.1 < 3600000)%Z) subs ->
    Forall (fun x => (T - x < 3600000)%Z) ts0 ->
    stored m k = pre ++ ts0 ->
    Forall (fun l => allowed l = true) (fst (check_all subs m)) ->
    exists pre',
      pre' `sublist_of` pre
      /\ stored (snd (check_all subs m)) k = pre' ++ ts0 ++ map fst subs.
Proof.
  induction subs as [|[t e] subs IH]; intros m pre ts0 Hkey Hwin Hts0 Hst Hall.
  - exists pre. split; [reflexivity|]. simpl. rewrite app_nil_r. exact Hst.
  - apply Forall_cons in Hkey as [Hk Hkey']. simpl in Hk.
    apply Forall_cons in Hwin as [[Ht HtT] Hwin']. simpl in Ht, HtT.
    simpl in Hall |- *.
    pose proof (check_verdict t e 5 3600000 m) as Hv. cbv zeta in Hv.
    destruct (checkEmailRateLimit t e 5 3600000 m) as [l m1] eqn:Hrun.
    destruct (check_all subs m1) as [ls m2] eqn:Hrest.
    simpl in Hall. cbn [fst] in Hv. apply Forall_cons in Hall as [Hl Hall'].
    rewrite Hk in Hv. rewrite Hl in Hv. symmetry in Hv. apply negb_true_iff in Hv.
    apply Nat.leb_gt in Hv.
    destruct (check_allowed t e 5 3600000 m) as (l' & m1' & Hrun' & _ & Hst1);
      [rewrite Hk; exact Hv|].
    rewrite Hrun in Hrun'. injection Hrun' as <- <-. rewrite Hk in Hst1.
    rewrite Hst, List.filter_app in Hst1.
    rewrite (filter_all_pass _ ts0) in Hst1.
    2:{ apply Forall_forall. intros x Hx.
        pose proof (proj1 (Forall_forall _ _) Hts0 x Hx) as Hx'. simpl in Hx'.
        apply Z.ltb_lt. lia. }
    rewrite <- app_assoc in Hst1.
    assert (Hts1 : Forall (fun x => (T - x < 3600000)%Z) (ts0 ++ [t])).
    { apply Forall_app. split; [assumption|]. constructor; [lia | constructor]. }
    destruct (IH m1 _ (ts0 ++ [t]) Hkey' Hwin' Hts1 Hst1) as (pre' & Hsub & Hfin).
    { rewrite Hrest. exact Hall'. }
    rewrite Hrest in Hfin. simpl in Hfin.
    exists pre'. split.
    + etransitivity; [exact Hsub | apply filter_is_sublist].
    + simpl. rewrite Hfin, <- app_assoc. reflexivity.
Qed.

Lemma sorted_head_least (l : list Z) (o : Z) :
  StronglySorted Z.le l -> l !! 0%nat = Some o -> forall t, t ∈ l -> (o <= t)%Z.
Proof.
  destruct l as [|x l]; simpl; [discriminate|].
  intros Hs [= ->] t Ht. apply StronglySorted_cons in Hs as [Hx _].
  apply elem_of_cons in Ht as [->|Ht]; [lia|].
  exact (proj1 (Forall_forall _ _) Hx t Ht).
Qed.

(** C6 (as amended). With the configuration of the handler (5 per
    3600000 ms), after five allowed submissions of one email address, in
    any mix of upper and lower case, the next check within the window is
    refused and the handler answers 429 with [retryAfter] the number of
    seconds, rounded up, from the instant the handler reads when it builds
    the answer to the instant at which the oldest submission of the window
    leaves it.  That number is positive when the handler reads its instant
    before that expiry, in particular when the clock has not moved since the
    check. *)
Theorem sixth_submission_of_an_email_is_refused
    (m0 : gmap string (list Z)) (subs : list (Z * string)) (email : string)
    (t_check t_reply : Z) (send : string + string) :
  length subs = 5%nat ->
  Forall (fun s => Str.toLowerCase s.2 = Str.toLowerCase email) subs ->
  Forall (fun s => (s.1 <= t_check)%Z /\ (t_check - s.1 < 3600000)%Z) subs ->
  StronglySorted Z.le (stored m0 (Str.toLowerCase email) ++ map fst subs) ->
  Forall (fun l => allowed l = true) (fst (check_all subs m0)) ->
  let m5 := snd (check_all subs m0) in
  exists oldest,
    oldest ∈ stored m5 (Str.toLowerCase email)
    /\ (t_check - oldest < 3600000)%Z
    /\ (forall t, t ∈ stored m5 (Str.toLowerCase email) ->
                  (t_check - t < 3600000)%Z -> (oldest <= t)%Z)
    /\ Contact.handler t_check t_reply email send m5
       = (Contact.TooMany (VNum (ceil_seconds (oldest + 3600000 - t_reply))), m5)
    /\ ((t_reply < oldest + 3600000)%Z ->
        (0 < ceil_seconds (oldest + 3600000 - t_reply))%Z)
    /\ (0 < ceil_seconds (oldest + 3600000 - t_check))%Z.
Proof.
  intros Hlen Hkey Hwin Hsorted Hall m5.
  set (k := Str.toLowerCase email) in *.
  destruct (check_all_accumulates k t_check subs m0 (stored m0 k) []
              Hkey Hwin (List.Forall_nil _)) as (pre' & Hsub & Hst);
    [rewrite app_nil_r; reflexivity | exact Hall |].
  fold m5 in Hst. simpl in Hst.
  set (valid := List.filter (fun time => (t_check - time <? 3600000)%Z) (stored m5 k)).
  assert (Hvalid : valid = List.filter (fun time => (t_check - time <? 3600000)%Z) pre'
                           ++ map fst subs).
  { unfold valid. rewrite Hst, List.filter_app. f_equal.
    apply filter_all_pass. apply Forall_forall. intros x Hx.
    apply list_elem_of_fmap in Hx as (s & -> & Hs).
    destruct (proj1 (Forall_forall _ _) Hwin s Hs) as [_ Hw].
    apply Z.ltb_lt. exact Hw. }
  assert (Hlen5 : (5 <= length valid)%nat).
  { rewrite Hvalid, length_app, length_map, Hlen. lia. }
  assert (Hsome : is_Some (m5 !! k)).
  { destruct (m5 !! k) eqn:Hm; [eauto|]. unfold stored in Hst. rewrite Hm in Hst.
    simpl in Hst. apply (f_equal length) in Hst.
    rewrite length_app, length_map, Hlen in Hst. simpl in Hst. lia. }
  destruct (valid !! 0%nat) as [o|] eqn:Ho.
  2:{ apply lookup_ge_None in Ho. lia. }
  assert (Hin : o ∈ valid) by (apply list_elem_of_lookup; eauto).
  assert (Hino : o ∈ stored m5 k /\ (t_check - o < 3600000)%Z).
  { unfold valid in Hin. apply list_elem_of_In, List.filter_In in Hin as [Hin Hw].
    split; [apply list_elem_of_In; exact Hin | apply Z.ltb_lt; exact Hw]. }
  assert (Hvs : StronglySorted Z.le valid).
  { apply (sublist_sorted _ (stored m0 k ++ map fst subs)); [|exact Hsorted].
    rewrite Hvalid. apply sublist_app; [|reflexivity].
    etransitivity; [apply filter_is_sublist | exact Hsub]. }
  exists o. split; [apply Hino|]. split; [apply Hino|]. split; [|split; [|split]].
  - intros t Ht Hw. apply (sorted_head_least valid o Hvs Ho).
    unfold valid. apply list_elem_of_In, List.filter_In. split.
    + apply list_elem_of_In. exact Ht.
    + apply Z.ltb_lt. exact Hw.
  - unfold Contact.handler.
    rewrite (check_refused t_check email 5 3600000 m5 Hsome Hlen5).
    fold k. fold valid. rewrite Ho. simpl.
    unfold ceil_seconds. reflexivity.
  - intros Hlt. apply ceil_seconds_pos. lia.
  - apply ceil_seconds_pos. destruct Hino as [_ Hw]. lia.
Qed.

Lemma sixth_submission_of_an_email_is_refused_witness :
  let subs := [(0, "Ana@Example.com"); (1000, "ana@example.com");
               (2000, "ANA@EXAMPLE.COM"); (3000, "ana@example.com");
               (4000, "ana@Example.com")]%Z in
  let email := "ana@example.COM" in
  length subs = 5%nat
  /\ Forall (fun s => Str.toLowerCase s.2 = Str.toLowerCase email) subs
  /\ Forall (fun s => (s.1 <= 3599999)%Z /\ (3599999 - s.1 < 3600000)%Z) subs
  /\ StronglySorted Z.le (stored ∅ (Str.toLowerCase email) ++ map fst subs)
  /\ Forall (fun l => allowed l = true) (fst (check_all subs ∅))
  /\ exists oldest,
      Contact.handler 3599999 3599999 email (inl "id-1") (snd (check_all subs ∅))
      = (Contact.TooMany (VNum (ceil_seconds (oldest + 3600000 - 3599999))),
         snd (check_all subs ∅))
      /\ (0 < ceil_seconds (oldest + 3600000 - 3599999))%Z.
Proof.
  intros subs email.
  assert (H1 : length subs = 5%nat) by reflexivity.
  assert (H2 : Forall (fun s => Str.toLowerCase s.2 = Str.toLowerCase email) subs)
    by (repeat constructor).
  assert (H3 : Forall (fun s => (s.1 <= 3599999)%Z /\ (3599999 - s.1 < 3600000)%Z) subs)
    by (repeat constructor; simpl; lia).
  assert (H4 : StronglySorted Z.le (stored ∅ (Str.toLowerCase email) ++ map fst subs))
    by (apply (bool_decide_unpack _); vm_compute; exact I).
  assert (H5 : Forall (fun l => allowed l = true) (fst (check_all subs ∅)))
    by (vm_compute; repeat constructor).
  split; [exact H1|]. split; [exact H2|]. split; [exact H3|].
  split; [exact H4|]. split; [exact H5|].
  destruct (sixth_submission_of_an_email_is_refused ∅ subs email 3599999 3599999
              (inl "id-1") H1 H2 H3 H4 H5) as (o & _ & _ & _ & Hrun & _ & Hpos).
  exists o. split; assumption.
Defined.

(** C6, the statement of the specification refuted: five submissions at
    0..4000 ms are allowed, the check at 3599999 ms is refused, and when the
    handler reads the clock one millisecond later, at 3600000 ms, the
    [retryAfter] of its 429 answer is 0. *)
Lemma retry_after_can_be_zero :
  let subs := [(0, "ana@example.com"); (1000, "ana@example.com");
               (2000, "ana@example.com"); (3000, "ana@example.com");
               (4000, "ana@example.com")]%Z in
  Forall (fun l => allowed l = true) (fst (check_all subs ∅))
  /\ fst (Contact.handler 3599999 3600000 "ana@example.com" (inl "id-1")
            (snd (check_all subs ∅)))
     = Contact.TooMany (VNum 0).
Proof.
  simpl. split; [vm_compute; repeat constructor | vm_compute; reflexivity].
Qed.

(** ** The message sanitizer *)

Lemma replace_from_chars (r : regex) (rep : list ascii) (s : list ascii) :
  forall skip c, c ∈ replace_from r rep skip s -> c ∈ rep \/ c ∈ s.
Proof.
  induction s as [|c0 s IH]; intros skip c; simpl.
  - destruct skip; [destruct (match_here r [] [])|]; intros Hc;
      first [left; exact Hc | inversion Hc].
  - destruct skip as [|k].
    + destruct (match_here r [] (c0 :: s)) as [[|n]|]; intros Hc.
      * apply elem_of_app in Hc as [Hc|Hc]; [left; exact Hc|].
        apply elem_of_cons in Hc as [->|Hc]; [right; left|].
        destruct (IH _ _ Hc) as [?|?]; [left | right; right]; assumption.
      * apply elem_of_app in Hc as [Hc|Hc]; [left; exact Hc|].
        destruct (IH _ _ Hc) as [?|?]; [left | right; right]; assumption.
      * apply elem_of_cons in Hc as [->|Hc]; [right; left|].
        destruct (IH _ _ Hc) as [?|?]; [left | right; right]; assumption.
    + intros Hc. destruct (IH _ _ Hc) as [?|?]; [left | right; right]; assumption.
Qed.

Lemma replace_class (p : ascii -> bool) (rep : list ascii) (s : list ascii) :
  replace_from [Class p] rep 0 s = flat_map (fun c => if p c then rep else [c]) s.
Proof.
  induction s as [|c s IH]; simpl; [reflexivity|].
  destruct (p c); simpl; rewrite IH; reflexivity.
Qed.

Lemma replace_class_clean (p : ascii -> bool) (rep : list ascii) (s : list ascii) :
  Forall (fun c => p c = false) rep ->
  Forall (fun c => p c = false) (replace_from [Class p] rep 0 s).
Proof.
  intros Hrep. rewrite replace_class.
  induction s as [|c s IH]; simpl; [constructor|].
  apply Forall_app. split; [|exact IH].
  destruct (p c) eqn:Hc; [exact Hrep | constructor; [exact Hc | constructor]].
Qed.

Lemma replace_class_id (p : ascii -> bool) (rep : list ascii) (s : list ascii) :
  Forall (fun c => p c = false) s -> replace_from [Class p] rep 0 s = s.
Proof.
  rewrite replace_class.
  induction 1 as [|c s Hc _ IH]; simpl; [reflexivity|].
  rewrite Hc, IH. reflexivity.
Qed.

Lemma replace_keeps_clean (p : ascii -> bool) (r : regex) (rep : string)
    (s : list ascii) :
  Forall (fun c => p c = false) (list_ascii_of_string rep) ->
  Forall (fun c => p c = false) s ->
  Forall (fun c => p c = false) (replace r rep s).
Proof.
  intros Hrep Hs. apply Forall_forall. intros c Hc.
  destruct (replace_from_chars _ _ _ _ _ Hc) as [Hin|Hin].
  - exact (proj1 (Forall_forall _ _) Hrep c Hin).
  - exact (proj1 (Forall_forall _ _) Hs c Hin).
Qed.

Lemma trimStart_suffix (l : list ascii) :
  exists pre, l = pre ++ trimStart l /\ Forall (fun c => is_space c = true) pre.
Proof.
  induction l as [|c l (pre & Hl & Hpre)]; simpl.
  - exists []. split; [reflexivity | constructor].
  - destruct (is_space c) eqn:Hc.
    + exists (c :: pre). split; [simpl; congruence | constructor; assumption].
    + exists []. split; [reflexivity | constructor].
Qed.

Lemma trim_chars_prefix_suffix (l : list ascii) :
  exists pre post,
    l = pre ++ trim_chars l ++ post
    /\ Forall (fun c => is_space c = true) pre
    /\ Forall (fun c => is_space c = true) post.
Proof.
  unfold trim_chars.
  destruct (trimStart_suffix l) as (pre & Hl & Hpre).
  destruct (trimStart_suffix (rev (trimStart l))) as (post & Hr & Hpost).
  exists pre, (rev post). split; [|split].
  - rewrite <- rev_app_distr, <- Hr, rev_involutive. exact Hl.
  - exact Hpre.
  - apply Forall_forall. intros c Hc. apply list_elem_of_In, in_rev in Hc.
    exact (proj1 (Forall_forall _ _) Hpost c (proj2 (list_elem_of_In _ _) Hc)).
Qed.

Lemma trim_keeps_clean (p : ascii -> bool) (l : list ascii) :
  Forall (fun c => p c = false) l -> Forall (fun c => p c = false) (trim_chars l).
Proof.
  intros Hl. destruct (trim_chars_prefix_suffix l) as (pre & post & Heq & _).
  rewrite Heq in Hl. apply Forall_app in Hl as [_ Hl].
  apply Forall_app in Hl as [Hl _]. exact Hl.
Qed.

Lemma sanitize_chars_harmless (text : list ascii) :
  Forall harmless (sanitize_chars text).
Proof.
  unfold sanitize_chars.
  set (s6 := replace dangerousTags "" _).
  assert (Hlt : Forall (fun c => is_lt c = false) (replace [Class is_lt] "&lt;" s6))
    by (apply replace_class_clean; repeat constructor).
  set (s7 := replace [Class is_lt] "&lt;" s6) in *.
  assert (Hlt' : Forall (fun c => is_lt c = false) (replace [Class is_gt] "&gt;" s7))
    by (apply replace_keeps_clean; [repeat constructor | exact Hlt]).
  assert (Hgt : Forall (fun c => is_gt c = false) (replace [Class is_gt] "&gt;" s7))
    by (apply replace_class_clean; repeat constructor).
  set (s8 := replace [Class is_gt] "&gt;" s7) in *.
  assert (Hnul : Forall (fun c => is_nul c = false) (replace [Class is_nul] "" s8))
    by (apply replace_class_clean; constructor).
  assert (Hlt9 : Forall (fun c => is_lt c = false) (replace [Class is_nul] "" s8))
    by (apply replace_keeps_clean; [constructor | exact Hlt']).
  assert (Hgt9 : Forall (fun c => is_gt c = false) (replace [Class is_nul] "" s8))
    by (apply replace_keeps_clean; [constructor | exact Hgt]).
  set (s9 := replace [Class is_nul] "" s8) in *.
  set (s10 := replace [Plus is_space] " " s9).
  assert (H10 : Forall (fun c => is_lt c = false) s10
                /\ Forall (fun c => is_gt c = false) s10
                /\ Forall (fun c => is_nul c = false) s10).
  { repeat split; apply replace_keeps_clean; try assumption; repeat constructor. }
  destruct H10 as (Ha & Hb & Hc).
  apply (trim_keeps_clean is_lt) in Ha. apply (trim_keeps_clean is_gt) in Hb.
  apply (trim_keeps_clean is_nul) in Hc.
  apply Forall_forall. intros c Hin. unfold harmless.
  rewrite Forall_forall in Ha, Hb, Hc. auto.
Qed.

Lemma chars_of_append (a b : string) :
  list_ascii_of_string (a +:+ b) = list_ascii_of_string a ++ list_ascii_of_string b.
Proof. induction a as [|c a IH]; simpl; [reflexivity | rewrite IH; reflexivity]. Qed.

(** A script element is removed with its content; other markup is escaped. *)
Example sanitize_script_element :
  sanitizeMessage (VStr "Oi <script>alert(1)</script> <b>mundo</b>")
  = "Oi &lt;b&gt;mundo&lt;/b&gt;".
Proof. vm_compute. reflexivity. Qed.

(** An opening script tag without its closing tag is removed as a
    dangerous tag. *)
Example sanitize_unclosed_script :
  sanitizeMessage (VStr "a<SCRIPT src=x>b") = "ab".
Proof. vm_compute. reflexivity. Qed.

(** C9. Whatever the input, the sanitized message holds no angle bracket at
    all, every one left after the removals being written [&lt;] or [&gt;];
    hence no opening tag, in particular no [<script] in any spelling,
    occurs in it. *)
Theorem sanitized_message_has_no_script_tag (text : value) :
  (forall c, c ∈ list_ascii_of_string (sanitizeMessage text) ->
             c <> "<"%char /\ c <> ">"%char)
  /\ (forall pre tag post, sanitizeMessage text <> pre +:+ "<" +:+ tag +:+ post)
  /\ (forall pre post, sanitizeMessage text <> pre +:+ "<script" +:+ post).
Proof.
  assert (Hchars : forall c, c ∈ list_ascii_of_string (sanitizeMessage text) ->
                             c <> "<"%char /\ c <> ">"%char).
  { intros c Hc. unfold sanitizeMessage in Hc.
    destruct text as [| | | | |s| |]; try (inversion Hc; fail).
    destruct (String.eqb s ""); [inversion Hc|].
    rewrite list_ascii_of_string_of_list_ascii in Hc.
    pose proof (proj1 (Forall_forall _ _)
                  (sanitize_chars_harmless (list_ascii_of_string s)) c Hc)
      as (Hlt & Hgt & _).
    unfold is_lt in Hlt. unfold is_gt in Hgt.
    apply Ascii.eqb_neq in Hlt, Hgt. split; assumption. }
  assert (Htag : forall pre tag post,
             sanitizeMessage text <> pre +:+ "<" +:+ tag +:+ post).
  { intros pre tag post Heq.
    destruct (Hchars "<"%char) as [Hlt _]; [|congruence].
    rewrite Heq, chars_of_append. apply elem_of_app. right. simpl. left. }
  split; [exact Hchars|]. split; [exact Htag|].
  intros pre post. exact (Htag pre "script" post).
Qed.

Lemma replace_no_match (r : regex) (rep : list ascii) (s : list ascii) :
  test r s = false -> replace_from r rep 0 s = s.
Proof.
  induction s as [|c s IH]; simpl.
  - destruct (match_here r [] []); [discriminate | reflexivity].
  - destruct (match_here r [] (c :: s)); [discriminate|].
    intros Ht. rewrite (IH Ht). reflexivity.
Qed.

Lemma eq_ci_lt (c : ascii) : eq_ci "<" c = is_lt c.
Proof. destruct c as [[] [] [] [] [] [] [] []]; reflexivity. Qed.

Lemma lt_headed_no_match (l : string) (r : regex) (s : list ascii) :
  Forall (fun c => is_lt c = false) s ->
  test (Lit (String "<" l) :: r) s = false.
Proof.
  induction 1 as [|c s Hc _ IH]; [reflexivity|].
  cbn [test match_here list_ascii_of_string strip_prefix_ci].
  rewrite eq_ci_lt, Hc. exact IH.
Qed.

Lemma greedy_run (p : ascii -> bool) (k : list ascii -> option nat) (s : list ascii) :
  (forall t, k t = Some 0%nat) -> greedy p k s = Some (run p s).
Proof.
  intros Hk. induction s as [|c s IH]; simpl; [apply Hk|].
  destruct (p c); [rewrite IH; reflexivity | apply Hk].
Qed.

Lemma plus_match (p : ascii -> bool) (c : ascii) (s : list ascii) :
  match_here [Plus p] [] (c :: s) = if p c then Some (S (run p s)) else None.
Proof.
  simpl. destruct (p c); [|reflexivity].
  rewrite (greedy_run p _ s) by reflexivity. reflexivity.
Qed.

Lemma collapse_single_spaced (s : list ascii) :
  single_spaced (replace_from [Plus is_space] [" "%char] 0 s) = true
  /\ single_spaced (replace_from [Plus is_space] [" "%char] (run is_space s) s) = true
  /\ starts_with_space
       (replace_from [Plus is_space] [" "%char] (run is_space s) s) = false.
Proof.
  induction s as [|c s (IHa & IHb & IHc)]; [repeat split|].
  cbn [run replace_from]. rewrite plus_match.
  destruct (is_space c) eqn:Hc.
  - split; [|split; assumption].
    cbn [app single_spaced]. rewrite IHb, IHc. reflexivity.
  - cbn [single_spaced starts_with_space]. rewrite Hc, IHa. repeat split.
Qed.

Lemma collapse_id (s : list ascii) :
  single_spaced s = true -> replace_from [Plus is_space] [" "%char] 0 s = s.
Proof.
  induction s as [|c s IH]; [reflexivity|].
  cbn [single_spaced replace_from]. rewrite plus_match.
  intros Hs. apply andb_true_iff in Hs as [Hc Hs].
  destruct (is_space c) eqn:Hsp.
  - apply andb_true_iff in Hc as [Heq Hnext].
    apply Ascii.eqb_eq in Heq. subst c.
    apply negb_true_iff in Hnext.
    assert (Hrun : run is_space s = 0%nat).
    { destruct s as [|c' s']; [reflexivity|]. simpl in Hnext |- *.
      rewrite Hnext. reflexivity. }
    rewrite Hrun, (IH Hs). reflexivity.
  - rewrite (IH Hs). reflexivity.
Qed.

Lemma single_spaced_app (a b : list ascii) :
  single_spaced (a ++ b) = true -> single_spaced a = true /\ single_spaced b = true.
Proof.
  induction a as [|c a IH]; simpl; [intros Hb; split; [reflexivity | exact Hb]|].
  intros Hs. apply andb_true_iff in Hs as [Hc Hs].
  destruct (IH Hs) as [Ha Hb]. split; [|exact Hb].
  rewrite Ha, andb_true_r.
  destruct (is_space c); [|reflexivity].
  apply andb_true_iff in Hc as [Heq Hnext]. rewrite Heq. simpl.
  destruct a; [reflexivity | exact Hnext].
Qed.

Lemma trimStart_no_lead (l : list ascii) : starts_with_space (trimStart l) = false.
Proof.
  induction l as [|c l IH]; simpl; [reflexivity|].
  destruct (is_space c) eqn:Hc; [exact IH | simpl; exact Hc].
Qed.

Lemma trimStart_id (l : list ascii) : starts_with_space l = false -> trimStart l = l.
Proof. destruct l as [|c l]; simpl; [reflexivity|]. intros ->. reflexivity. Qed.

Lemma trim_chars_idempotent (l : list ascii) :
  trim_chars (trim_chars l) = trim_chars l.
Proof.
  unfold trim_chars.
  set (L := trimStart l). set (U := trimStart (rev L)).
  assert (Hlead : starts_with_space (rev U) = false).
  { destruct (trimStart_suffix (rev L)) as (pre & HR & _). fold U in HR.
    apply (f_equal (@rev ascii)) in HR.
    rewrite rev_involutive, rev_app_distr in HR.
    pose proof (trimStart_no_lead l) as HL. fold L in HL. rewrite HR in HL.
    destruct (rev U); [reflexivity | exact HL]. }
  rewrite (trimStart_id _ Hlead), rev_involutive.
  rewrite (trimStart_id U (trimStart_no_lead _)). reflexivity.
Qed.

Lemma sanitize_chars_fixed (y : list ascii) :
  Forall harmless y ->
  single_spaced y = true ->
  trim_chars y = y ->
  test re_event_handler y = false ->
  test re_protocol y = false ->
  sanitize_chars y = y.
Proof.
  intros Hh Hs Ht Hev Hpr.
  assert (Hlt : Forall (fun c => is_lt c = false) y)
    by (eapply Forall_impl; [exact Hh | intros c Hc; apply Hc]).
  assert (Hgt : Forall (fun c => is_gt c = false) y)
    by (eapply Forall_impl; [exact Hh | intros c Hc; apply Hc]).
  assert (Hnul : Forall (fun c => is_nul c = false) y)
    by (eapply Forall_impl; [exact Hh | intros c Hc; apply Hc]).
  unfold sanitize_chars, replace.
  rewrite (replace_no_match re_script_block _ y)
    by (apply lt_headed_no_match; exact Hlt).
  rewrite (replace_no_match re_event_handler _ y Hev).
  rewrite (replace_no_match re_protocol _ y Hpr).
  rewrite (replace_no_match re_embed_block _ y)
    by (apply lt_headed_no_match; exact Hlt).
  rewrite (replace_no_match re_style_block _ y)
    by (apply lt_headed_no_match; exact Hlt).
  rewrite (replace_no_match dangerousTags _ y)
    by (apply lt_headed_no_match; exact Hlt).
  rewrite (replace_class_id is_lt _ y Hlt).
  rewrite (replace_class_id is_gt _ y Hgt).
  rewrite (replace_class_id is_nul _ y Hnul).
  change (list_ascii_of_string " ") with [" "%char].
  rewrite (collapse_id y Hs). exact Ht.
Qed.

Lemma sanitize_chars_normal (text : list ascii) :
  single_spaced (sanitize_chars text) = true
  /\ trim_chars (sanitize_chars text) = sanitize_chars text.
Proof.
  unfold sanitize_chars.
  set (s9 := replace [Class is_nul] "" _).
  split; [|apply trim_chars_idempotent].
  destruct (trim_chars_prefix_suffix (replace [Plus is_space] " " s9))
    as (pre & post & Heq & _).
  pose proof (proj1 (collapse_single_spaced s9)) as Hs.
  change (replace_from [Plus is_space] [" "%char] 0 s9)
    with (replace [Plus is_space] " " s9) in Hs.
  rewrite Heq in Hs.
  apply single_spaced_app in Hs as [_ Hs].
  apply single_spaced_app in Hs as [Hs _]. exact Hs.
Qed.

(** Sanitizing a sanitized message changes nothing unless the first pass has
    left in it an inline event-handler attribute or a [javascript:] or
    [data:] scheme, which a single pass leaves behind when the removal of
    one match joins the pieces of another: the sanitizer fails to be
    idempotent only where it has failed to remove what it is written to
    remove. *)
Theorem sanitizer_idempotent_without_residue (x : string) :
  let y := sanitizeMessage (VStr x) in
  test re_event_handler (list_ascii_of_string y) = false ->
  test re_protocol (list_ascii_of_string y) = false ->
  sanitizeMessage (VStr y) = y.
Proof.
  intros y Hev Hpr. unfold sanitizeMessage in y.
  destruct (String.eqb x "") eqn:Hx; [reflexivity|].
  unfold sanitizeMessage. destruct (String.eqb_spec y "") as [Hy|_];
    [symmetry; exact Hy|].
  subst y. rewrite list_ascii_of_string_of_list_ascii in *.
  destruct (sanitize_chars_normal (list_ascii_of_string x)) as [Hs Ht].
  rewrite (sanitize_chars_fixed _ (sanitize_chars_harmless _) Hs Ht Hev Hpr).
  reflexivity.
Qed.

Lemma sanitizer_idempotent_without_residue_witness :
  let x := "Preciso de um   <b>orcamento</b> para  <script>alert(1)</script> casa " in
  test re_event_handler (list_ascii_of_string (sanitizeMessage (VStr x))) = false
  /\ test re_protocol (list_ascii_of_string (sanitizeMessage (VStr x))) = false
  /\ sanitizeMessage (VStr x)
     = "Preciso de um &lt;b&gt;orcamento&lt;/b&gt; para casa"
  /\ sanitizeMessage (VStr (sanitizeMessage (VStr x))) = sanitizeMessage (VStr x).
Proof.
  intros x.
  assert (H1 : test re_event_handler
                 (list_ascii_of_string (sanitizeMessage (VStr x))) = false)
    by (vm_compute; reflexivity).
  assert (H2 : test re_protocol
                 (list_ascii_of_string (sanitizeMessage (VStr x))) = false)
    by (vm_compute; reflexivity).
  split; [exact H1|]. split; [exact H2|].
  split; [vm_compute; reflexivity|].
  exact (sanitizer_idempotent_without_residue x H1 H2).
Defined.


(** * Further properties of the record stores *)

Lemma find_app_last {A} (pred : A -> bool) (l : list A) (x : A) :
  find pred (l ++ [x])
  = match find pred l with
    | Some y => Some y
    | None => if pred x then Some x else None
    end.
Proof.
  induction l as [|y l IH]; simpl; [reflexivity|].
  destruct (pred y); [reflexivity | exact IH].
Qed.

Lemma find_some_app {A} (pred : A -> bool) (l : list A) (x y : A) :
  find pred l = Some y -> find pred (l ++ [x]) = Some y.
Proof. intros Hf. rewrite find_app_last, Hf. reflexivity. Qed.

Lemma absent_above (l : list record) (zs : list Z) (n : Z) :
  numbered l zs -> (forall z, z ∈ zs -> (z < n)%Z) -> absent (VNum n) l.
Proof.
  intros Hn Habove. apply Forall_forall. intros p Hp.
  destruct (numbered_elem _ _ _ Hn Hp) as (z & Hz & ->).
  simpl. apply Z.eqb_neq. specialize (Habove z Hz). lia.
Qed.

(** X1. In a store whose records carry ids that are safe integers (below
    [2^53] in magnitude), and for data without an [id] field, the record
    that [add] has appended is the one [getById] returns for its id, and
    every lookup that found a record before the [add] finds the same record
    after it, whether or not the rewrite of the file succeeded.  Both
    stores behave so. *)
Theorem added_record_is_found_by_its_id `{JSON}
    (ps : ProjectService.t) (ars : ArticleService.t) (w : World)
    (zs zs' : list Z) (data : record) :
  numbered (ProjectService.projects ps) zs -> Forall safe zs ->
  numbered (ArticleService.articles ars) zs' -> Forall safe zs' ->
  data !! "id" = None ->
  (exists r,
      last (ProjectService.projects
              (fst (snd (ProjectService.addProject data (ps, w))))) = Some r
      /\ fst (ProjectService.getProjectById (ident r)
                (snd (ProjectService.addProject data (ps, w)))) = Return (Some r)
      /\ forall id p,
          fst (ProjectService.getProjectById id (ps, w)) = Return (Some p) ->
          fst (ProjectService.getProjectById id
                 (snd (ProjectService.addProject data (ps, w)))) = Return (Some p))
  /\ (exists r,
      last (ArticleService.articles
              (fst (snd (ArticleService.addArticle data (ars, w))))) = Some r
      /\ fst (ArticleService.getArticleById (ident r)
                (snd (ArticleService.addArticle data (ars, w)))) = Return (Some r)
      /\ forall id p,
          fst (ArticleService.getArticleById id (ars, w)) = Return (Some p) ->
          fst (ArticleService.getArticleById id
                 (snd (ArticleService.addArticle data (ars, w)))) = Return (Some p)).
Proof.
  intros Hn Hs Hn' Hs' Hdata. split.
  - destruct (addProject_run data ps w zs Hn Hs) as (n & Hnext & Hrun).
    cbv zeta in Hrun.
    set (r := spread {[ "id" := VNum n ]} data) in *.
    assert (Hr : ident r = VNum n).
    { unfold r. rewrite (spread_id_fresh _ _ Hdata).
      unfold ident, get. rewrite lookup_insert_eq. reflexivity. }
    pose proof (absent_above _ _ _ Hn (fun z => next_id_above zs n z Hnext)) as Habs.
    assert (Hst : fst (snd (ProjectService.addProject data (ps, w)))
                  = ProjectService.mk (ProjectService.projects ps ++ [r])
                                      (ProjectService.initialized ps))
      by (rewrite Hrun; destruct (disk_ok w); reflexivity).
    exists r. split; [rewrite Hst; simpl; apply last_snoc|]. split.
    + unfold ProjectService.getProjectById. run_method. rewrite Hst. simpl.
      rewrite find_app_last, Hr.
      rewrite (find_None (fun p => strict_eq (get p "id") (Number_ (VNum n))) _ Habs).
      fold (ident r). rewrite Hr. simpl. rewrite Z.eqb_refl. reflexivity.
    + intros id p. unfold ProjectService.getProjectById. run_method.
      rewrite Hst. simpl. intros [= Hf]. rewrite (find_some_app _ _ _ _ Hf).
      reflexivity.
  - destruct (addArticle_run data ars w zs' Hn' Hs') as (n & Hnext & Hrun).
    cbv zeta in Hrun.
    set (r := spread (spread {[ "id" := VNum n ]} data)
                     {[ "date" := Js.or_else (get data "date") (VStr (now_iso w)) ]})
      in *.
    assert (Hr : ident r = VNum n) by (apply new_article_ident; exact Hdata).
    pose proof (absent_above _ _ _ Hn' (fun z => next_id_above zs' n z Hnext)) as Habs.
    assert (Hst : fst (snd (ArticleService.addArticle data (ars, w)))
                  = ArticleService.mk (ArticleService.articles ars ++ [r])
                                      (ArticleService.initialized ars))
      by (rewrite Hrun; destruct (disk_ok w); reflexivity).
    exists r. split; [rewrite Hst; simpl; apply last_snoc|]. split.
    + unfold ArticleService.getArticleById. run_method. rewrite Hst. simpl.
      rewrite find_app_last, Hr.
      rewrite (find_None (fun p => strict_eq (get p "id") (Number_ (VNum n))) _ Habs).
      fold (ident r). rewrite Hr. simpl. rewrite Z.eqb_refl. reflexivity.
    + intros id p. unfold ArticleService.getArticleById. run_method.
      rewrite Hst. simpl. intros [= Hf]. rewrite (find_some_app _ _ _ _ Hf).
      reflexivity.
Qed.

Lemma added_record_is_found_by_its_id_witness :
  numbered (ProjectService.projects Sample.two_projects) [1; 2]%Z
  /\ Forall safe [1; 2]%Z
  /\ numbered (ArticleService.articles Sample.two_articles) [1; 2]%Z
  /\ ({[ "title" := VStr "Casa Z" ]} : record) !! "id" = None
  /\ exists r,
      last (ProjectService.projects
              (fst (snd (ProjectService.addProject (H := Sample.json)
                           {[ "title" := VStr "Casa Z" ]}
                           (Sample.two_projects, Sample.world ∅ false))))) = Some r
      /\ fst (ProjectService.getProjectById (ident r)
                (snd (ProjectService.addProject (H := Sample.json)
                        {[ "title" := VStr "Casa Z" ]}
                        (Sample.two_projects, Sample.world ∅ false))))
         = Return (Some r).
Proof.
  assert (H1 : numbered (ProjectService.projects Sample.two_projects) [1; 2]%Z)
    by reflexivity.
  assert (H2 : numbered (ArticleService.articles Sample.two_articles) [1; 2]%Z)
    by reflexivity.
  assert (H3 : ({[ "title" := VStr "Casa Z" ]} : record) !! "id" = None)
    by reflexivity.
  assert (Hs : Forall safe [1; 2]%Z) by (repeat constructor; unfold safe; lia).
  split; [exact H1|]. split; [exact Hs|]. split; [exact H2|]. split; [exact H3|].
  destruct (added_record_is_found_by_its_id (H := Sample.json)
              Sample.two_projects Sample.two_articles (Sample.world ∅ false)
              [1; 2]%Z [1; 2]%Z {[ "title" := VStr "Casa Z" ]} H1 Hs H2 Hs H3)
    as [(r & Hlast & Hget & _) _].
  exists r. split; assumption.
Defined.

Lemma project_file_after_mutation `{JSON}
    (ps : ProjectService.t) (w : World) (data patch : record) (id : value) :
  (forall r ps' w',
      ProjectService.addProject data (ps, w) = (Return r, (ps', w')) ->
      files w' !! ProjectService.DATA_FILE_PATH
      = Some (JSON_stringify (ProjectService.projects ps')))
  /\ (forall r ps' w',
      ProjectService.updateProject id patch (ps, w) = (Return (Some r), (ps', w')) ->
      files w' !! ProjectService.DATA_FILE_PATH
      = Some (JSON_stringify (ProjectService.projects ps')))
  /\ (forall r ps' w',
      ProjectService.deleteProject id (ps, w) = (Return (Some r), (ps', w')) ->
      files w' !! ProjectService.DATA_FILE_PATH
      = Some (JSON_stringify (ProjectService.projects ps'))).
Proof.
  split; [|split].
  - intros r ps' w'. unfold ProjectService.addProject, ProjectService._save.
    run_method. destruct (disk_ok w); simpl; intros [= <- <- <-]; simpl.
    apply lookup_insert_eq.
  - intros r ps' w'. unfold ProjectService.updateProject, ProjectService._save.
    run_method.
    destruct (findIndex _ _) as [i|]; [|discriminate].
    destruct (ProjectService.projects ps !! i); [|discriminate]. simpl.
    destruct (disk_ok w); simpl; intros [= <- <- <-]; simpl.
    apply lookup_insert_eq.
  - intros r ps' w'. unfold ProjectService.deleteProject, ProjectService._save.
    run_method.
    destruct (findIndex _ _) as [i|]; [|discriminate].
    destruct (ProjectService.projects ps !! i); [|discriminate]. simpl.
    destruct (disk_ok w); simpl; intros [= <- <- <-]; simpl.
    apply lookup_insert_eq.
Qed.

Lemma article_file_after_mutation `{JSON}
    (ars : ArticleService.t) (w : World) (data patch : record) (id : value) :
  (forall r ars' w',
      ArticleService.addArticle data (ars, w) = (Return r, (ars', w')) ->
      files w' !! ArticleService.DATA_FILE_PATH
      = Some (JSON_stringify (ArticleService.articles ars')))
  /\ (forall r ars' w',
      ArticleService.updateArticle id patch (ars, w) = (Return (Some r), (ars', w')) ->
      files w' !! ArticleService.DATA_FILE_PATH
      = Some (JSON_stringify (ArticleService.articles ars')))
  /\ (forall r ars' w',
      ArticleService.deleteArticle id (ars, w) = (Return (Some r), (ars', w')) ->
      files w' !! ArticleService.DATA_FILE_PATH
      = Some (JSON_stringify (ArticleService.articles ars'))).
Proof.
  split; [|split].
  - intros r ars' w'. unfold ArticleService.addArticle, ArticleService._save.
    run_method. destruct (disk_ok w); simpl; intros [= <- <- <-]; simpl.
    apply lookup_insert_eq.
  - intros r ars' w'. unfold ArticleService.updateArticle, ArticleService._save.
    run_method.
    destruct (findIndex _ _) as [i|]; [|discriminate].
    destruct (ArticleService.articles ars !! i); [|discriminate]. simpl.
    destruct (disk_ok w); simpl; intros [= <- <- <-]; simpl.
    apply lookup_insert_eq.
  - intros r ars' w'. unfold ArticleService.deleteArticle, ArticleService._save.
    run_method.
    destruct (findIndex _ _) as [i|]; [|discriminate].
    destruct (ArticleService.articles ars !! i); [|discriminate]. simpl.
    destruct (disk_ok w); simpl; intros [= <- <- <-]; simpl.
    apply lookup_insert_eq.
Qed.

(** X2. When [add], [update] or [delete] returns normally after changing
    the list, the file of the store holds the text of the whole in-memory
    list as it is after the change.  Both stores behave so. *)
Theorem successful_mutation_rewrites_the_whole_file `{JSON}
    (ps : ProjectService.t) (ars : ArticleService.t) (w : World)
    (data patch : record) (id : value) :
  (forall r ps' w',
      ProjectService.addProject data (ps, w) = (Return r, (ps', w')) ->
      files w' !! ProjectService.DATA_FILE_PATH
      = Some (JSON_stringify (ProjectService.projects ps')))
  /\ (forall r ps' w',
      ProjectService.updateProject id patch (ps, w) = (Return (Some r), (ps', w')) ->
      files w' !! ProjectService.DATA_FILE_PATH
      = Some (JSON_stringify (ProjectService.projects ps')))
  /\ (forall r ps' w',
      ProjectService.deleteProject id (ps, w) = (Return (Some r), (ps', w')) ->
      files w' !! ProjectService.DATA_FILE_PATH
      = Some (JSON_stringify (ProjectService.projects ps')))
  /\ (forall r ars' w',
      ArticleService.addArticle data (ars, w) = (Return r, (ars', w')) ->
      files w' !! ArticleService.DATA_FILE_PATH
      = Some (JSON_stringify (ArticleService.articles ars')))
  /\ (forall r ars' w',
      ArticleService.updateArticle id patch (ars, w) = (Return (Some r), (ars', w')) ->
      files w' !! ArticleService.DATA_FILE_PATH
      = Some (JSON_stringify (ArticleService.articles ars')))
  /\ (forall r ars' w',
      ArticleService.deleteArticle id (ars, w) = (Return (Some r), (ars', w')) ->
      files w' !! ArticleService.DATA_FILE_PATH
      = Some (JSON_stringify (ArticleService.articles ars'))).
Proof.
  destruct (project_file_after_mutation ps w data patch id) as (P1 & P2 & P3).
  destruct (article_file_after_mutation ars w data patch id) as (A1 & A2 & A3).
  repeat split; assumption.
Qed.

(** X3. When the rewrite of the file fails, [update] and [delete] of a
    record that is in the store throw the error of [_save]; the record is
    nevertheless replaced, respectively removed, in memory, and the file is
    left as it was.  Both stores behave so. *)
Theorem update_and_delete_keep_their_change_when_write_fails `{JSON}
    (id : value) (patch : record)
    (ps : ProjectService.t) (ars : ArticleService.t) (w : World)
    (i j : nat) (old old' : record) :
  disk_ok w = false ->
  ProjectService.projects ps !! i = Some old ->
  strict_eq (ident old) (Number_ id) = true ->
  absent id (take i (ProjectService.projects ps)) ->
  ArticleService.articles ars !! j = Some old' ->
  strict_eq (ident old') (Number_ id) = true ->
  absent id (take j (ArticleService.articles ars)) ->
  (exists w',
      ProjectService.updateProject id patch (ps, w)
      = (Throw "Failed to save project data",
         (ProjectService.mk (<[i := spread old patch]> (ProjectService.projects ps))
                            (ProjectService.initialized ps), w'))
      /\ files w' = files w)
  /\ (exists w',
      ProjectService.deleteProject id (ps, w)
      = (Throw "Failed to save project data",
         (ProjectService.mk (delete i (ProjectService.projects ps))
                            (ProjectService.initialized ps), w'))
      /\ files w' = files w)
  /\ (exists w',
      ArticleService.updateArticle id patch (ars, w)
      = (Throw "Failed to save article data",
         (ArticleService.mk (<[j := spread old' patch]> (ArticleService.articles ars))
                            (ArticleService.initialized ars), w'))
      /\ files w' = files w)
  /\ (exists w',
      ArticleService.deleteArticle id (ars, w)
      = (Throw "Failed to save article data",
         (ArticleService.mk (delete j (ArticleService.articles ars))
                            (ArticleService.initialized ars), w'))
      /\ files w' = files w).
Proof.
  intros Hw Hl Hp Hf Hl' Hp' Hf'.
  pose proof (findIndex_first
                (fun p => strict_eq (get p "id") (Number_ id)) _ _ _ Hl Hp Hf) as Hi.
  pose proof (findIndex_first
                (fun p => strict_eq (get p "id") (Number_ id)) _ _ _ Hl' Hp' Hf') as Hj.
  split; [|split; [|split]].
  - unfold ProjectService.updateProject, ProjectService._save. run_method.
    rewrite Hi, Hl. simpl. rewrite Hw. simpl.
    eexists. split; reflexivity.
  - unfold ProjectService.deleteProject, ProjectService._save. run_method.
    rewrite Hi, Hl. simpl. rewrite Hw. simpl.
    eexists. split; reflexivity.
  - unfold ArticleService.updateArticle, ArticleService._save. run_method.
    rewrite Hj, Hl'. simpl. rewrite Hw. simpl.
    eexists. split; reflexivity.
  - unfold ArticleService.deleteArticle, ArticleService._save. run_method.
    rewrite Hj, Hl'. simpl. rewrite Hw. simpl.
    eexists. split; reflexivity.
Qed.

Lemma update_and_delete_keep_their_change_when_write_fails_witness :
  let w := Sample.world ∅ false in
  disk_ok w = false
  /\ ProjectService.projects Sample.two_projects !! 1%nat
     = Some (Sample.project 2 "Torre Y")
  /\ exists w',
      ProjectService.deleteProject (H := Sample.json) (VStr "2")
        (Sample.two_projects, w)
      = (Throw "Failed to save project data",
         (ProjectService.mk [Sample.project 1 "Ponte X"] true, w'))
      /\ files w' = files w.
Proof.
  intros w. split; [reflexivity|]. split; [reflexivity|].
  exact (proj1 (proj2
    (update_and_delete_keep_their_change_when_write_fails (H := Sample.json)
       (VStr "2") ∅ Sample.two_projects Sample.two_articles w 1%nat 1%nat
       (Sample.project 2 "Torre Y") (Sample.project 2 "Nota B")
       eq_refl eq_refl eq_refl ltac:(repeat constructor)
       eq_refl eq_refl ltac:(repeat constructor)))).
Defined.

Lemma successful_mutation_rewrites_the_whole_file_witness :
  let w := Sample.world ∅ true in
  let run := ProjectService.deleteProject (H := Sample.json) (VStr "1")
               (Sample.two_projects, w) in
  fst run = Return (Some (Sample.project 1 "Ponte X"))
  /\ files (snd (snd run)) !! ProjectService.DATA_FILE_PATH
     = Some (JSON_stringify (JSON := Sample.json)
               (ProjectService.projects (fst (snd run)))).
Proof.
  intros w run.
  assert (Hrun : run = (Return (Some (Sample.project 1 "Ponte X")),
                        (fst (snd run), snd (snd run))))
    by (vm_compute; reflexivity).
  split; [rewrite Hrun; reflexivity|].
  exact (proj1 (proj2 (proj2
    (successful_mutation_rewrites_the_whole_file (H := Sample.json)
       Sample.two_projects Sample.two_articles w ∅ ∅ (VStr "1"))))
    _ _ _ Hrun).
Defined.

Lemma find_findIndex {A} (pred : A -> bool) (l : list A) :
  find pred l = findIndex pred l ≫= (fun i => l !! i).
Proof.
  induction l as [|x l IH]; simpl; [reflexivity|].
  destruct (pred x); [reflexivity|]. rewrite IH.
  destruct (findIndex pred l); reflexivity.
Qed.

Lemma findIndex_insert_same {A} (pred : A -> bool) (l : list A) (i : nat) (y : A) :
  findIndex pred l = Some i -> pred y = true ->
  findIndex pred (<[i := y]> l) = Some i.
Proof.
  intros Hi Hy. destruct (findIndex_Some _ _ _ Hi) as (x & Hx & Hpx & Hf).
  apply (findIndex_first pred _ i y).
  - apply list_lookup_insert_eq. eapply lookup_lt_Some; exact Hx.
  - exact Hy.
  - rewrite take_insert_ge by lia. exact Hf.
Qed.

Lemma find_insert_other {A} (pred : A -> bool) (l : list A) (i : nat) (x y : A) :
  l !! i = Some x -> pred x = false -> pred y = false ->
  find pred (<[i := y]> l) = find pred l.
Proof.
  revert i; induction l as [|z l IH]; intros [|i]; simpl; try discriminate.
  - intros [= ->] Hx Hy. rewrite Hx, Hy. reflexivity.
  - intros Hl Hx Hy. destruct (pred z); [reflexivity|]. exact (IH i Hl Hx Hy).
Qed.

Lemma strict_eq_eq (a b : value) : strict_eq a b = true -> a = b.
Proof.
  destruct a, b; simpl; try discriminate; intros Hab; try reflexivity.
  - apply Bool.eqb_prop in Hab. congruence.
  - apply Z.eqb_eq in Hab. congruence.
  - apply String.eqb_eq in Hab. congruence.
  - apply andb_true_iff in Hab as [Hm Hk].
    apply Z.eqb_eq in Hm. apply Pos.eqb_eq in Hk. congruence.
  - apply Bool.eqb_prop in Hab. congruence.
Qed.

Lemma ident_spread_no_id (old patch : record) :
  patch !! "id" = None -> ident (spread old patch) = ident old.
Proof.
  intros Hp. unfold ident, get. rewrite spread_lookup, Hp. reflexivity.
Qed.

Lemma spread_twice (old patch : record) :
  spread (spread old patch) patch = spread old patch.
Proof.
  apply map_eq. intros k. rewrite !spread_lookup.
  destruct (patch !! k); reflexivity.
Qed.

Lemma map_ident_insert (l : list record) (i : nat) (old new : record) :
  l !! i = Some old -> ident new = ident old ->
  map ident (<[i := new]> l) = map ident l.
Proof.
  intros Hl Hid. rewrite !map_is_fmap, list_fmap_insert, Hid.
  apply list_insert_id. rewrite list_lookup_fmap, Hl. reflexivity.
Qed.

(** X4. After [update(id, patch)] with a patch that has no [id] field,
    whether or not the rewrite succeeded: [getById(id)] returns the merged
    record, the ids of the store and their order are what they were, and
    [getById] of any id that converts to another number returns what it
    returned before.  Both stores behave so. *)
Theorem updated_record_is_found_and_others_untouched `{JSON}
    (id : value) (patch : record)
    (ps : ProjectService.t) (ars : ArticleService.t) (w : World)
    (i j : nat) (old old' : record) :
  patch !! "id" = None ->
  ProjectService.projects ps !! i = Some old ->
  strict_eq (ident old) (Number_ id) = true ->
  absent id (take i (ProjectService.projects ps)) ->
  ArticleService.articles ars !! j = Some old' ->
  strict_eq (ident old') (Number_ id) = true ->
  absent id (take j (ArticleService.articles ars)) ->
  let s1 := snd (ProjectService.updateProject id patch (ps, w)) in
  let a1 := snd (ArticleService.updateArticle id patch (ars, w)) in
  fst (ProjectService.getProjectById id s1) = Return (Some (spread old patch))
  /\ map ident (ProjectService.projects (fst s1))
     = map ident (ProjectService.projects ps)
  /\ (forall id', Number_ id' <> Number_ id ->
        fst (ProjectService.getProjectById id' s1)
        = fst (ProjectService.getProjectById id' (ps, w)))
  /\ fst (ArticleService.getArticleById id a1) = Return (Some (spread old' patch))
  /\ map ident (ArticleService.articles (fst a1))
     = map ident (ArticleService.articles ars)
  /\ (forall id', Number_ id' <> Number_ id ->
        fst (ArticleService.getArticleById id' a1)
        = fst (ArticleService.getArticleById id' (ars, w))).
Proof.
  intros Hpatch Hl Hp Hf Hl' Hp' Hf' s1 a1.
  pose proof (findIndex_first
                (fun p => strict_eq (get p "id") (Number_ id)) _ _ _ Hl Hp Hf) as Hi.
  pose proof (findIndex_first
                (fun p => strict_eq (get p "id") (Number_ id)) _ _ _ Hl' Hp' Hf') as Hj.
  assert (Hs1 : fst s1
                = ProjectService.mk (<[i := spread old patch]> (ProjectService.projects ps))
                                    (ProjectService.initialized ps)).
  { unfold s1, ProjectService.updateProject, ProjectService._save. run_method.
    rewrite Hi, Hl. simpl. destruct (disk_ok w); reflexivity. }
  assert (Ha1 : fst a1
                = ArticleService.mk (<[j := spread old' patch]> (ArticleService.articles ars))
                                    (ArticleService.initialized ars)).
  { unfold a1, ArticleService.updateArticle, ArticleService._save. run_method.
    rewrite Hj, Hl'. simpl. destruct (disk_ok w); reflexivity. }
  assert (Hnew : forall o, strict_eq (ident o) (Number_ id) = true ->
                 strict_eq (get (spread o patch) "id") (Number_ id) = true).
  { intros o Ho. fold (ident (spread o patch)).
    rewrite (ident_spread_no_id _ _ Hpatch). exact Ho. }
  assert (Hother : forall o id', strict_eq (ident o) (Number_ id) = true ->
                   Number_ id' <> Number_ id ->
                   strict_eq (get o "id") (Number_ id') = false
                   /\ strict_eq (get (spread o patch) "id") (Number_ id') = false).
  { intros o id' Ho Hne.
    assert (Hf0 : strict_eq (ident o) (Number_ id') = false).
    { destruct (strict_eq (ident o) (Number_ id')) eqn:E; [|reflexivity].
      exfalso. apply Hne. apply strict_eq_eq in Ho, E. congruence. }
    split; [exact Hf0|]. fold (ident (spread o patch)).
    rewrite (ident_spread_no_id _ _ Hpatch). exact Hf0. }
  split; [|split; [|split; [|split; [|split]]]].
  - unfold ProjectService.getProjectById. run_method. rewrite Hs1. simpl.
    rewrite find_findIndex, (findIndex_insert_same _ _ _ _ Hi (Hnew old Hp)). simpl.
    rewrite list_lookup_insert_eq by (eapply lookup_lt_Some; exact Hl). reflexivity.
  - rewrite Hs1. simpl. apply (map_ident_insert _ _ old); [exact Hl|].
    apply ident_spread_no_id; exact Hpatch.
  - intros id' Hne. unfold ProjectService.getProjectById. run_method.
    rewrite Hs1. simpl. destruct (Hother old id' Hp Hne) as [H1 H2].
    rewrite (find_insert_other _ _ _ _ _ Hl H1 H2). reflexivity.
  - unfold ArticleService.getArticleById. run_method. rewrite Ha1. simpl.
    rewrite find_findIndex, (findIndex_insert_same _ _ _ _ Hj (Hnew old' Hp')). simpl.
    rewrite list_lookup_insert_eq by (eapply lookup_lt_Some; exact Hl'). reflexivity.
  - rewrite Ha1. simpl. apply (map_ident_insert _ _ old'); [exact Hl'|].
    apply ident_spread_no_id; exact Hpatch.
  - intros id' Hne. unfold ArticleService.getArticleById. run_method.
    rewrite Ha1. simpl. destruct (Hother old' id' Hp' Hne) as [H1 H2].
    rewrite (find_insert_other _ _ _ _ _ Hl' H1 H2). reflexivity.
Qed.

Lemma updated_record_is_found_and_others_untouched_witness :
  let patch : record := {[ "title" := VStr "Torre Z" ]} in
  let w := Sample.world ∅ true in
  patch !! "id" = None
  /\ ProjectService.projects Sample.two_projects !! 1%nat
     = Some (Sample.project 2 "Torre Y")
  /\ strict_eq (ident (Sample.project 2 "Torre Y")) (Number_ (VStr "2")) = true
  /\ fst (ProjectService.getProjectById (VStr "2")
            (snd (ProjectService.updateProject (H := Sample.json) (VStr "2") patch
                    (Sample.two_projects, w))))
     = Return (Some (spread (Sample.project 2 "Torre Y") patch)).
Proof.
  intros patch w.
  split; [reflexivity|]. split; [reflexivity|]. split; [reflexivity|].
  exact (proj1
    (updated_record_is_found_and_others_untouched (H := Sample.json)
       (VStr "2") patch Sample.two_projects Sample.two_articles w 1%nat 1%nat
       (Sample.project 2 "Torre Y") (Sample.project 2 "Nota B")
       eq_refl eq_refl eq_refl ltac:(repeat constructor)
       eq_refl eq_refl ltac:(repeat constructor))).
Defined.

(** X5. Applying [update(id, patch)] a second time with the same patch (a
    patch without [id] field) leaves the in-memory list as the first
    application left it, and when the rewrite succeeds the second call
    returns the merged record both as the updated and as the prior record.
    Both stores behave so. *)
Theorem update_twice_is_update_once `{JSON}
    (id : value) (patch : record)
    (ps : ProjectService.t) (ars : ArticleService.t) (w : World)
    (i j : nat) (old old' : record) :
  patch !! "id" = None ->
  ProjectService.projects ps !! i = Some old ->
  strict_eq (ident old) (Number_ id) = true ->
  absent id (take i (ProjectService.projects ps)) ->
  ArticleService.articles ars !! j = Some old' ->
  strict_eq (ident old') (Number_ id) = true ->
  absent id (take j (ArticleService.articles ars)) ->
  let s1 := snd (ProjectService.updateProject id patch (ps, w)) in
  let a1 := snd (ArticleService.updateArticle id patch (ars, w)) in
  fst (snd (ProjectService.updateProject id patch s1)) = fst s1
  /\ (disk_ok w = true ->
      fst (ProjectService.updateProject id patch s1)
      = Return (Some (spread old patch, spread old patch)))
  /\ fst (snd (ArticleService.updateArticle id patch a1)) = fst a1
  /\ (disk_ok w = true ->
      fst (ArticleService.updateArticle id patch a1)
      = Return (Some (spread old' patch, spread old' patch))).
Proof.
  intros Hpatch Hl Hp Hf Hl' Hp' Hf' s1 a1.
  pose proof (findIndex_first
                (fun p => strict_eq (get p "id") (Number_ id)) _ _ _ Hl Hp Hf) as Hi.
  pose proof (findIndex_first
                (fun p => strict_eq (get p "id") (Number_ id)) _ _ _ Hl' Hp' Hf') as Hj.
  assert (Hnew : forall o, strict_eq (ident o) (Number_ id) = true ->
                 strict_eq (get (spread o patch) "id") (Number_ id) = true).
  { intros o Ho. fold (ident (spread o patch)).
    rewrite (ident_spread_no_id _ _ Hpatch). exact Ho. }
  pose proof (findIndex_insert_same _ _ _ _ Hi (Hnew old Hp)) as Hi2.
  pose proof (findIndex_insert_same _ _ _ _ Hj (Hnew old' Hp')) as Hj2.
  assert (Hlt : (i < length (ProjectService.projects ps))%nat)
    by (eapply lookup_lt_Some; exact Hl).
  assert (Hlt' : (j < length (ArticleService.articles ars))%nat)
    by (eapply lookup_lt_Some; exact Hl').
  assert (Hs1 : exists w1, s1
                = (ProjectService.mk (<[i := spread old patch]> (ProjectService.projects ps))
                                     (ProjectService.initialized ps), w1)
                  /\ disk_ok w1 = disk_ok w).
  { unfold s1, ProjectService.updateProject, ProjectService._save. run_method.
    rewrite Hi, Hl. simpl. destruct (disk_ok w) eqn:Hw; simpl; eexists;
      (split; [reflexivity | simpl; first [exact Hw | reflexivity]]). }
  assert (Ha1 : exists w1, a1
                = (ArticleService.mk (<[j := spread old' patch]> (ArticleService.articles ars))
                                     (ArticleService.initialized ars), w1)
                  /\ disk_ok w1 = disk_ok w).
  { unfold a1, ArticleService.updateArticle, ArticleService._save. run_method.
    rewrite Hj, Hl'. simpl. destruct (disk_ok w) eqn:Hw; simpl; eexists;
      (split; [reflexivity | simpl; first [exact Hw | reflexivity]]). }
  destruct Hs1 as (w1 & Hs1 & Hw1), Ha1 as (w1' & Ha1 & Hw1').
  rewrite Hs1, Ha1. clear s1 a1 Hs1 Ha1.
  split; [|split; [|split]].
  - unfold ProjectService.updateProject, ProjectService._save. run_method.
    rewrite Hi2, (list_lookup_insert_eq _ _ _ Hlt). simpl.
    rewrite spread_twice, list_insert_insert_eq.
    destruct (disk_ok w1); reflexivity.
  - intros Hw. rewrite Hw in Hw1.
    unfold ProjectService.updateProject, ProjectService._save. run_method.
    rewrite Hi2, (list_lookup_insert_eq _ _ _ Hlt). simpl.
    rewrite spread_twice, Hw1. reflexivity.
  - unfold ArticleService.updateArticle, ArticleService._save. run_method.
    rewrite Hj2, (list_lookup_insert_eq _ _ _ Hlt'). simpl.
    rewrite spread_twice, list_insert_insert_eq.
    destruct (disk_ok w1'); reflexivity.
  - intros Hw. rewrite Hw in Hw1'.
    unfold ArticleService.updateArticle, ArticleService._save. run_method.
    rewrite Hj2, (list_lookup_insert_eq _ _ _ Hlt'). simpl.
    rewrite spread_twice, Hw1'. reflexivity.
Qed.

Lemma update_twice_is_update_once_witness :
  let patch : record := {[ "title" := VStr "Torre Z" ]} in
  let w := Sample.world ∅ true in
  let s1 := snd (ProjectService.updateProject (H := Sample.json) (VStr "2") patch
                   (Sample.two_projects, w)) in
  patch !! "id" = None
  /\ ProjectService.projects Sample.two_projects !! 1%nat
     = Some (Sample.project 2 "Torre Y")
  /\ fst (snd (ProjectService.updateProject (H := Sample.json) (VStr "2") patch s1))
     = fst s1.
Proof.
  intros patch w s1.
  split; [reflexivity|]. split; [reflexivity|].
  exact (proj1
    (update_twice_is_update_once (H := Sample.json)
       (VStr "2") patch Sample.two_projects Sample.two_articles w 1%nat 1%nat
       (Sample.project 2 "Torre Y") (Sample.project 2 "Nota B")
       eq_refl eq_refl eq_refl ltac:(repeat constructor)
       eq_refl eq_refl ltac:(repeat constructor))).
Defined.

Lemma init_reads_file `{JSON} (path text : string) (w : World) :
  files w !! path = Some text ->
  (path = ProjectService.DATA_FILE_PATH ->
   fst (snd (ProjectService.init (ProjectService.new, w)))
   = ProjectService.mk (default [] (JSON_parse text)) true)
  /\ (path = ArticleService.DATA_FILE_PATH ->
      fst (snd (ArticleService.init (ArticleService.new, w)))
      = ArticleService.mk (default [] (JSON_parse text)) true).
Proof.
  intros Hf. split; intros ->.
  - unfold ProjectService.init. run_method. rewrite Hf. simpl.
    destruct (JSON_parse text); reflexivity.
  - unfold ArticleService.init. run_method. rewrite Hf.
    try (rewrite bool_decide_eq_true_2 by eauto). simpl. rewrite Hf. simpl.
    destruct (JSON_parse text); reflexivity.
Qed.

(** X6. What a restart finds: after an [add], [update] or [delete] that
    returned normally, a store constructed anew and initialised from the
    resulting disk holds what [JSON.parse] reads in the text that
    [JSON.stringify] has printed for the list the mutated store holds in
    memory, and the empty list when that text does not parse.  No round
    trip of the two functions is assumed: the restarted store holds the
    list of the mutated one exactly when that list survives it.  Both
    stores behave so. *)
Theorem restart_after_mutation_reads_what_was_written `{JSON}
    (ps : ProjectService.t) (ars : ArticleService.t) (w : World)
    (data patch : record) (id : value) :
  let reread (l : list record) := default [] (JSON_parse (JSON_stringify l)) in
  (forall r ps' w',
      ProjectService.addProject data (ps, w) = (Return r, (ps', w')) ->
      fst (snd (ProjectService.init (ProjectService.new, w')))
      = ProjectService.mk (reread (ProjectService.projects ps')) true)
  /\ (forall r ps' w',
      ProjectService.updateProject id patch (ps, w) = (Return (Some r), (ps', w')) ->
      fst (snd (ProjectService.init (ProjectService.new, w')))
      = ProjectService.mk (reread (ProjectService.projects ps')) true)
  /\ (forall r ps' w',
      ProjectService.deleteProject id (ps, w) = (Return (Some r), (ps', w')) ->
      fst (snd (ProjectService.init (ProjectService.new, w')))
      = ProjectService.mk (reread (ProjectService.projects ps')) true)
  /\ (forall r ars' w',
      ArticleService.addArticle data (ars, w) = (Return r, (ars', w')) ->
      fst (snd (ArticleService.init (ArticleService.new, w')))
      = ArticleService.mk (reread (ArticleService.articles ars')) true)
  /\ (forall r ars' w',
      ArticleService.updateArticle id patch (ars, w) = (Return (Some r), (ars', w')) ->
      fst (snd (ArticleService.init (ArticleService.new, w')))
      = ArticleService.mk (reread (ArticleService.articles ars')) true)
  /\ (forall r ars' w',
      ArticleService.deleteArticle id (ars, w) = (Return (Some r), (ars', w')) ->
      fst (snd (ArticleService.init (ArticleService.new, w')))
      = ArticleService.mk (reread (ArticleService.articles ars')) true).
Proof.
  intros reread.
  destruct (project_file_after_mutation ps w data patch id) as (F1 & F2 & F3).
  destruct (article_file_after_mutation ars w data patch id) as (F4 & F5 & F6).
  split; [|split; [|split; [|split; [|split]]]]; intros r o' w' Hrun.
  - exact (proj1 (init_reads_file _ _ _ (F1 _ _ _ Hrun)) eq_refl).
  - exact (proj1 (init_reads_file _ _ _ (F2 _ _ _ Hrun)) eq_refl).
  - exact (proj1 (init_reads_file _ _ _ (F3 _ _ _ Hrun)) eq_refl).
  - exact (proj2 (init_reads_file _ _ _ (F4 _ _ _ Hrun)) eq_refl).
  - exact (proj2 (init_reads_file _ _ _ (F5 _ _ _ Hrun)) eq_refl).
  - exact (proj2 (init_reads_file _ _ _ (F6 _ _ _ Hrun)) eq_refl).
Qed.

Lemma restart_after_mutation_reads_what_was_written_witness :
  let added := [Sample.project 1 "Ponte X"; Sample.project 2 "Torre Y";
                {[ "id" := VNum 3; "title" := VStr "Casa Z" ]}] in
  let J := Sample.json_knowing added "[Ponte X, Torre Y, Casa Z]" in
  let w := Sample.world ∅ true in
  let add := ProjectService.addProject (H := J) {[ "title" := VStr "Casa Z" ]}
               (Sample.two_projects, w) in
  let update := ProjectService.updateProject (H := Sample.json) (VStr "2")
                  {[ "title" := VStr "Torre Z" ]} (Sample.two_projects, w) in
  fst add = Return {[ "id" := VNum 3; "title" := VStr "Casa Z" ]}
  /\ fst (snd (ProjectService.init (H := J) (ProjectService.new, snd (snd add))))
     = ProjectService.mk added true
  /\ ProjectService.projects (fst (snd update))
     = [Sample.project 1 "Ponte X"; Sample.project 2 "Torre Z"]
  /\ fst (snd (ProjectService.init (H := Sample.json)
                 (ProjectService.new, snd (snd update))))
     = ProjectService.mk [] true.
Proof.
  intros added J w add update.
  assert (Hadd : add = (Return {[ "id" := VNum 3; "title" := VStr "Casa Z" ]},
                        (fst (snd add), snd (snd add))))
    by (vm_compute; reflexivity).
  assert (Hupdate : update
                    = (Return (Some (Sample.project 2 "Torre Z",
                                     Sample.project 2 "Torre Y")),
                       (fst (snd update), snd (snd update))))
    by (vm_compute; reflexivity).
  split; [rewrite Hadd; reflexivity|].
  split.
  - rewrite (proj1 (restart_after_mutation_reads_what_was_written (H := J)
                      Sample.two_projects Sample.two_articles w
                      {[ "title" := VStr "Casa Z" ]} ∅ (VStr "1"))
               _ _ _ Hadd).
    vm_compute. reflexivity.
  - split; [vm_compute; reflexivity|].
    rewrite (proj1 (proj2 (restart_after_mutation_reads_what_was_written
                             (H := Sample.json)
                             Sample.two_projects Sample.two_articles w
                             ∅ {[ "title" := VStr "Torre Z" ]} (VStr "2")))
               _ _ _ Hupdate).
    vm_compute. reflexivity.
Defined.


(** * Further properties of the admin gate *)

Lemma split_chars_no_sep (sep : ascii) (l cur : list ascii) :
  Forall (fun c => c <> sep) cur ->
  Forall (Forall (fun c => c <> sep)) (Str.split_chars sep cur l).
Proof.
  revert cur; induction l as [|c l IH]; intros cur Hcur; simpl.
  - constructor; [|constructor]. apply Forall_rev. exact Hcur.
  - destruct (Ascii.eqb_spec c sep) as [->|Hne].
    + constructor; [apply Forall_rev; exact Hcur|]. apply IH. constructor.
    + apply IH. constructor; assumption.
Qed.

Lemma split_no_sep (sep : ascii) (s piece : string) :
  piece ∈ Str.split sep s -> sep ∉ list_ascii_of_string piece.
Proof.
  unfold Str.split. rewrite map_is_fmap. intros Hin.
  apply list_elem_of_fmap in Hin as (cs & -> & Hcs).
  rewrite list_ascii_of_string_of_list_ascii.
  pose proof (split_chars_no_sep sep (list_ascii_of_string s) [] (List.Forall_nil _))
    as Hall.
  pose proof (proj1 (Forall_forall _ _) Hall cs Hcs) as Hno.
  intros Hsep. exact (proj1 (Forall_forall _ _) Hno sep Hsep eq_refl).
Qed.

(** X7. The gate calls [next()] only for a request whose Authorization
    header starts with [Bearer ] and whose second space-separated piece, a
    text without spaces, is the non-empty expected token.  Hence in
    production no request passes while [ADMIN_TOKEN] is unset or empty, or
    when it contains a space; outside production the fallback token is
    expected when [ADMIN_TOKEN] is unset. *)
Theorem gate_passes_only_the_expected_token (env : Env) (req : Request) (st : State) :
  (fst (fst (adminAuth env req st)) = Next ->
   exists header token,
     authorization req = Some header
     /\ Str.startsWith header "Bearer " = true
     /\ Str.split " " header !! 1%nat = Some token
     /\ (" "%char ∉ list_ascii_of_string token)
     /\ token <> ""
     /\ expected_token env = Some token
     /\ snd (fst (adminAuth env req st)) = [])
  /\ (NODE_ENV env = Some "production" ->
      (Str.truthy (ADMIN_TOKEN env) = false
       \/ exists t, ADMIN_TOKEN env = Some t /\ " "%char ∈ list_ascii_of_string t) ->
      fst (fst (adminAuth env req st)) <> Next)
  /\ (NODE_ENV env <> Some "production" -> ADMIN_TOKEN env = None ->
      expected_token env = Some "admin_secret_token").
Proof.
  assert (Hpass : fst (fst (adminAuth env req st)) = Next ->
   exists header token,
     authorization req = Some header
     /\ Str.startsWith header "Bearer " = true
     /\ Str.split " " header !! 1%nat = Some token
     /\ (" "%char ∉ list_ascii_of_string token)
     /\ token <> ""
     /\ expected_token env = Some token
     /\ snd (fst (adminAuth env req st)) = []).
  { unfold adminAuth. destruct (ipBlocked env (lazy_init env st) req);
      [simpl; discriminate|]. simpl.
    unfold tokenCheck. fold (expected_token env).
    destruct (authorization req) as [h|]; [|simpl; discriminate].
    destruct (nonempty h && Str.startsWith h "Bearer ") eqn:Hh; [|simpl; discriminate].
    apply andb_true_iff in Hh as [_ Hstart].
    destruct (negb (Str.truthy (expected_token env))
              || negb (bool_decide (Str.split " " h !! 1%nat = expected_token env)))
      eqn:Hcmp; [simpl; discriminate|].
    apply orb_false_iff in Hcmp as [Htr Heq].
    apply negb_false_iff in Htr, Heq. apply bool_decide_eq_true in Heq.
    destruct (expected_token env) as [t|] eqn:Hexp; [|discriminate].
    intros _. exists h, t. split; [reflexivity|]. split; [exact Hstart|].
    split; [exact Heq|]. split; [|split; [|split; reflexivity]].
    - apply (split_no_sep " " h). apply list_elem_of_lookup. eauto.
    - simpl in Htr. intros ->. discriminate. }
  split; [exact Hpass|]. split.
  - intros Hprod Hbad Hnext.
    destruct (Hpass Hnext) as (h & t & _ & _ & _ & Hsp & Hne & Hexp & _).
    unfold expected_token, isLocalDev in Hexp.
    rewrite bool_decide_eq_true_2 in Hexp by exact Hprod. simpl in Hexp.
    destruct Hbad as [Hf|(t' & Ht' & Hin)].
    + rewrite Hexp in Hf. simpl in Hf. apply negb_false_iff, String.eqb_eq in Hf.
      contradiction.
    + rewrite Hexp in Ht'. injection Ht' as <-. contradiction.
  - intros Hdev Htok. unfold expected_token, isLocalDev.
    rewrite bool_decide_eq_false_2 by exact Hdev. rewrite Htok. reflexivity.
Qed.

Lemma gate_passes_only_the_expected_token_witness :
  let env := mkEnv (Some "*") (Some "production") (Some "s3cret") in
  let req := mkRequest (Some "203.0.113.7") None "/api/admin/projects"
               (Some "Bearer s3cret") in
  fst (fst (adminAuth env req initial)) = Next
  /\ exists header token,
      authorization req = Some header
      /\ Str.split " " header !! 1%nat = Some token
      /\ expected_token env = Some token.
Proof.
  intros env req.
  assert (H1 : fst (fst (adminAuth env req initial)) = Next) by reflexivity.
  split; [exact H1|].
  destruct (proj1 (gate_passes_only_the_expected_token env req initial) H1)
    as (h & t & Ha & _ & Hs & _ & _ & He & _).
  exists h, t. repeat split; assumption.
Defined.

(** X8. The allowlist fails closed: in production, while
    [ADMIN_ALLOWED_IPS] is unset or empty and nothing has been cached,
    every request is answered 403, whatever its IP and its token. *)
Theorem gate_without_allowlist_blocks_everything
    (env : Env) (req : Request) (st : State) :
  NODE_ENV env = Some "production" ->
  allowedIpsStr st = "" ->
  (ADMIN_ALLOWED_IPS env = None \/ ADMIN_ALLOWED_IPS env = Some "") ->
  fst (adminAuth env req st)
  = (Respond 403 "Forbidden: IP not authorized",
     [Event "admin_ip_blocked" (clientIp req) (path req)]).
Proof.
  intros Hprod Hst Henv. unfold adminAuth.
  assert (Hstr : allowedIpsStr (lazy_init env st) = "").
  { unfold lazy_init. destruct Henv as [-> | ->]; [exact Hst|].
    rewrite Hst. reflexivity. }
  unfold ipBlocked, isLocalDev.
  rewrite bool_decide_eq_true_2 by exact Hprod. rewrite Hstr. reflexivity.
Qed.

Lemma gate_without_allowlist_blocks_everything_witness :
  let env := mkEnv None (Some "production") (Some "s3cret") in
  let req := mkRequest (Some "127.0.0.1") None "/api/admin/projects"
               (Some "Bearer s3cret") in
  NODE_ENV env = Some "production"
  /\ allowedIpsStr initial = ""
  /\ fst (adminAuth env req initial)
     = (Respond 403 "Forbidden: IP not authorized",
        [Event "admin_ip_blocked" (Some "127.0.0.1") "/api/admin/projects"]).
Proof.
  intros env req. split; [reflexivity|]. split; [reflexivity|].
  exact (gate_without_allowlist_blocks_everything env req initial
           eq_refl eq_refl (or_introl eq_refl)).
Defined.

Lemma trim_idempotent (s : string) : Js.trim (Js.trim s) = Js.trim s.
Proof.
  unfold Js.trim. rewrite list_ascii_of_string_of_list_ascii, trim_chars_idempotent.
  reflexivity.
Qed.

(** X9. The allowlist is parsed once and cached: its entries are the
    comma-separated pieces of the setting, trimmed, the empty ones dropped
    (so every entry is non-empty, has no surrounding white space and no
    comma); and once a non-empty setting has been read, the gate keeps it
    and decides as before whatever [ADMIN_ALLOWED_IPS] becomes. *)
Theorem allowlist_is_trimmed_and_cached
    (env env' : Env) (req req' : Request) (st : State) (v : string) :
  allowedIpsStr st = "" ->
  ADMIN_ALLOWED_IPS env = Some v -> v <> "" ->
  let st1 := snd (adminAuth env req st) in
  allowedIpsStr st1 = v
  /\ Forall (fun e => e <> "" /\ Js.trim e = e
                      /\ ","%char ∉ list_ascii_of_string e) (allowedIps st1)
  /\ (forall e, e ∈ allowedIps st1 <->
                e <> "" /\ exists piece, piece ∈ Str.split "," v /\ e = Js.trim piece)
  /\ snd (adminAuth env' req' st1) = st1
  /\ (forall other,
        adminAuth (mkEnv other (NODE_ENV env') (ADMIN_TOKEN env')) req' st1
        = adminAuth env' req' st1).
Proof.
  intros Hst Henv Hv st1.
  assert (Hst1 : st1 = mkState v (filter (fun ip => nonempty ip = true)
                                         (map Js.trim (Str.split "," v)))).
  { unfold st1, adminAuth. destruct (ipBlocked _ _ _); simpl;
      unfold lazy_init; rewrite Henv, Hst; reflexivity. }
  assert (Hmem : forall e, e ∈ allowedIps st1 <->
                e <> "" /\ exists piece, piece ∈ Str.split "," v /\ e = Js.trim piece).
  { intros e. rewrite Hst1. simpl. rewrite list_elem_of_filter, map_is_fmap,
      list_elem_of_fmap. unfold nonempty. rewrite negb_true_iff.
    split.
    - intros [Hne (p & -> & Hp)]. split; [|eauto].
      intros Hempty. rewrite Hempty in Hne. discriminate.
    - intros [Hne (p & Hp & ->)]. split; [|eauto].
      apply String.eqb_neq. exact Hne. }
  assert (Hkeep : forall e, lazy_init e st1 = st1).
  { intros e. unfold lazy_init. destruct (ADMIN_ALLOWED_IPS e); [|reflexivity].
    rewrite Hst1. simpl. unfold nonempty.
    destruct (String.eqb_spec v ""); [contradiction | reflexivity]. }
  split; [rewrite Hst1; reflexivity|]. split; [|split; [exact Hmem|split]].
  - apply Forall_forall. intros e He. apply Hmem in He as [Hne (p & Hp & ->)].
    split; [exact Hne|]. split; [apply trim_idempotent|].
    intros Hcomma. apply (split_no_sep "," v p Hp).
    unfold Js.trim in Hcomma. rewrite list_ascii_of_string_of_list_ascii in Hcomma.
    destruct (trim_chars_prefix_suffix (list_ascii_of_string p))
      as (pre & post & Heq & _).
    rewrite Heq. apply elem_of_app. right. apply elem_of_app. left. exact Hcomma.
  - unfold adminAuth. rewrite Hkeep. destruct (ipBlocked _ _ _); reflexivity.
  - intros other. unfold adminAuth. rewrite !Hkeep. reflexivity.
Qed.

Lemma allowlist_is_trimmed_and_cached_witness :
  let env := mkEnv (Some " 10.0.0.1 ,,10.0.0.2 ") (Some "production") (Some "s3cret") in
  let req := mkRequest (Some "10.0.0.2") None "/api/admin/projects"
               (Some "Bearer s3cret") in
  allowedIpsStr initial = ""
  /\ ADMIN_ALLOWED_IPS env = Some " 10.0.0.1 ,,10.0.0.2 "
  /\ " 10.0.0.1 ,,10.0.0.2 " <> ""
  /\ allowedIps (snd (adminAuth env req initial)) = ["10.0.0.1"; "10.0.0.2"]
  /\ snd (adminAuth (mkEnv (Some "*") None None) req (snd (adminAuth env req initial)))
     = snd (adminAuth env req initial).
Proof.
  intros env req.
  split; [reflexivity|]. split; [reflexivity|]. split; [discriminate|].
  split; [reflexivity|].
  exact (proj1 (proj2 (proj2 (proj2
    (allowlist_is_trimmed_and_cached env (mkEnv (Some "*") None None) req req
       initial " 10.0.0.1 ,,10.0.0.2 " eq_refl eq_refl ltac:(discriminate)))))).
Defined.

(** X10. Every rejection of the gate is a 403 or a 401 with exactly one
    security event that carries the client IP and the path of the request;
    an accepted request logs nothing. *)
Theorem gate_logs_one_event_per_rejection (env : Env) (req : Request) (st : State) :
  (fst (fst (adminAuth env req st)) = Next /\ snd (fst (adminAuth env req st)) = [])
  \/ (exists message name,
        fst (adminAuth env req st)
        = (Respond 403 message, [Event name (clientIp req) (path req)])
        /\ name = "admin_ip_blocked")
  \/ (exists message name,
        fst (adminAuth env req st)
        = (Respond 401 message, [Event name (clientIp req) (path req)])
        /\ (name = "admin_auth_missing" \/ name = "admin_auth_failed")).
Proof.
  unfold adminAuth. destruct (ipBlocked _ _ _); simpl.
  - right. left. eexists _, _. split; reflexivity.
  - unfold tokenCheck. destruct (authorization req) as [h|].
    + destruct (nonempty h && Str.startsWith h "Bearer ").
      * destruct (negb _ || negb _).
        -- right. right. eexists _, _. split; [reflexivity | right; reflexivity].
        -- left. split; reflexivity.
      * right. right. eexists _, _. split; [reflexivity | left; reflexivity].
    + right. right. eexists _, _. split; [reflexivity | left; reflexivity].
Qed.


(** * Further properties of the per-email limiter *)

Lemma check_other_key (now : Z) (email : string) (max : nat) (W : Z)
    (m : gmap string (list Z)) (k : string) :
  k <> Str.toLowerCase email ->
  snd (checkEmailRateLimit now email max W m) !! k = m !! k.
Proof.
  intros Hk. unfold checkEmailRateLimit.
  set (key := Str.toLowerCase email) in *.
  set (m1 := match m !! key with Some _ => m | None => <[key := []]> m end).
  assert (Hm1 : m1 !! k = m !! k).
  { unfold m1. destruct (m !! key); [reflexivity|].
    apply lookup_insert_ne. congruence. }
  destruct (max <=? _)%nat; simpl; [exact Hm1|].
  rewrite lookup_insert_ne by congruence. exact Hm1.
Qed.

Lemma check_stored (now : Z) (email : string) (max : nat) (W : Z)
    (m : gmap string (list Z)) :
  let k := Str.toLowerCase email in
  let valid := List.filter (fun time => (now - time <? W)%Z) (stored m k) in
  stored (snd (checkEmailRateLimit now email max W m)) k
  = if (max <=? length valid)%nat then stored m k else valid ++ [now].
Proof.
  intros k valid. unfold checkEmailRateLimit. fold k.
  assert (Hst : default [] (match m !! k with
                            | Some _ => m
                            | None => <[k := []]> m
                            end !! k) = stored m k).
  { unfold stored. destruct (m !! k) eqn:Hk; [rewrite Hk; reflexivity|].
    rewrite lookup_insert_eq. reflexivity. }
  rewrite Hst. fold valid. destruct (max <=? length valid)%nat; simpl.
  - exact Hst.
  - unfold stored. rewrite lookup_insert_eq. reflexivity.
Qed.

(** X11. The limiter keeps one record per lower-cased address: a check of
    one address leaves the record of every other address as it was, so the
    submissions of one address never count against another; and two
    spellings of an address that differ only in case share one record. *)
Theorem email_limit_is_per_address (now : Z) (email email' : string)
    (max : nat) (W : Z) (m : gmap string (list Z)) :
  (forall k, k <> Str.toLowerCase email ->
             snd (checkEmailRateLimit now email max W m) !! k = m !! k)
  /\ (Str.toLowerCase email' = Str.toLowerCase email ->
      checkEmailRateLimit now email' max W m = checkEmailRateLimit now email max W m).
Proof.
  split.
  - intros k Hk. apply check_other_key. exact Hk.
  - intros Heq. unfold checkEmailRateLimit. rewrite Heq. reflexivity.
Qed.

Lemma email_limit_is_per_address_witness :
  let m : gmap string (list Z) := {[ "bia@example.com" := [10; 20]%Z ]} in
  "bia@example.com" <> Str.toLowerCase "Ana@Example.com"
  /\ snd (checkEmailRateLimit 30 "Ana@Example.com" 5 3600000 m) !! "bia@example.com"
     = Some [10; 20]%Z
  /\ Str.toLowerCase "ANA@example.COM" = Str.toLowerCase "Ana@Example.com"
  /\ checkEmailRateLimit 30 "ANA@example.COM" 5 3600000 m
     = checkEmailRateLimit 30 "Ana@Example.com" 5 3600000 m.
Proof.
  intros m.
  assert (H1 : "bia@example.com" <> Str.toLowerCase "Ana@Example.com")
    by (vm_compute; discriminate).
  assert (H2 : Str.toLowerCase "ANA@example.COM" = Str.toLowerCase "Ana@Example.com")
    by reflexivity.
  split; [exact H1|].
  split; [exact (proj1 (email_limit_is_per_address 30 "Ana@Example.com"
                          "ANA@example.COM" 5 3600000 m) _ H1)|].
  split; [exact H2|].
  exact (proj2 (email_limit_is_per_address 30 "Ana@Example.com"
                  "ANA@example.COM" 5 3600000 m) H2).
Defined.

(** X12. A refused check is not recorded: the record of the address is
    what it was, so attempts made while the address is blocked do not
    prolong the block; the answer carries [remaining = 0] and, when at
    least one submission is allowed per window, as reset time the first
    recorded instant still in the window plus the window length. *)
Theorem refused_check_is_not_recorded (now : Z) (email : string)
    (max : nat) (W : Z) (m : gmap string (list Z)) :
  let k := Str.toLowerCase email in
  let valid := List.filter (fun time => (now - time <? W)%Z) (stored m k) in
  (max <= length valid)%nat ->
  let limit := fst (checkEmailRateLimit now email max W m) in
  let m' := snd (checkEmailRateLimit now email max W m) in
  allowed limit = false
  /\ remaining limit = 0%Z
  /\ stored m' k = stored m k
  /\ (forall k', k' <> k -> m' !! k' = m !! k')
  /\ ((0 < max)%nat ->
      exists first, valid !! 0%nat = Some first
                    /\ resetTime limit = VNum (first + W)
                    /\ (now < first + W)%Z).
Proof.
  intros k valid Hlen.
  pose proof (check_verdict now email max W m) as Hv. cbv zeta in Hv.
  pose proof (fun k' => check_other_key now email max W m k') as Hframe.
  fold k in Hv, Hframe. fold valid in Hv.
  unfold checkEmailRateLimit in *. fold k in Hv, Hframe |- *.
  set (m1 := match m !! k with Some _ => m | None => <[k := []]> m end) in *.
  assert (Hst : default [] (m1 !! k) = stored m k).
  { unfold m1, stored. destruct (m !! k) eqn:Hk; [rewrite Hk; reflexivity|].
    rewrite lookup_insert_eq. reflexivity. }
  rewrite Hst in *. fold valid in Hframe |- *.
  destruct (Nat.leb_spec max (length valid)) as [_|Hlt]; [|lia].
  simpl in Hframe |- *.
  split; [reflexivity|]. split; [reflexivity|]. split; [exact Hst|].
  split; [exact Hframe|].
  intros Hpos. destruct valid as [|t valid'] eqn:Hvalid; [simpl in Hlen; lia|].
  exists t. split; [reflexivity|]. split; [reflexivity|].
  assert (Hin : In t (List.filter (fun time => (now - time <? W)%Z) (stored m k)))
    by (fold valid; rewrite Hvalid; left; reflexivity).
  apply List.filter_In in Hin as [_ Hw]. apply Z.ltb_lt in Hw. lia.
Qed.

Lemma refused_check_is_not_recorded_witness :
  let m : gmap string (list Z) := {[ "ana@example.com" := [0; 1; 2; 3; 4]%Z ]} in
  (5 <= length (List.filter (fun time => (100 - time <? 3600000)%Z)
                  (stored m (Str.toLowerCase "Ana@example.com"))))%nat
  /\ stored (snd (checkEmailRateLimit 100 "Ana@example.com" 5 3600000 m))
            (Str.toLowerCase "Ana@example.com")
     = stored m (Str.toLowerCase "Ana@example.com").
Proof.
  intros m.
  assert (H1 : (5 <= length (List.filter (fun time => (100 - time <? 3600000)%Z)
                  (stored m (Str.toLowerCase "Ana@example.com"))))%nat)
    by (vm_compute; lia).
  split; [exact H1|].
  destruct (refused_check_is_not_recorded 100 "Ana@example.com" 5 3600000 m H1)
    as (_ & _ & Hst & _).
  exact Hst.
Defined.

Lemma filter_none_pass (now W : Z) (l : list Z) :
  Forall (fun time => (W <= now - time)%Z) l ->
  List.filter (fun time => (now - time <? W)%Z) l = [].
Proof.
  induction 1 as [|t l Ht _ IH]; simpl; [reflexivity|].
  destruct (Z.ltb_spec (now - t) W); [lia | exact IH].
Qed.

(** X13. An allowed check slides the window: the record of the address
    becomes the recorded instants still in the window followed by the
    instant of the check, the older ones being forgotten, and [remaining]
    is what is left of the maximum.  In particular an address whose every
    recorded submission has left the window is admitted again, with a record
    of that one check. *)
Theorem allowed_check_slides_the_window (now : Z) (email : string)
    (max : nat) (W : Z) (m : gmap string (list Z)) :
  let k := Str.toLowerCase email in
  let valid := List.filter (fun time => (now - time <? W)%Z) (stored m k) in
  let limit := fst (checkEmailRateLimit now email max W m) in
  let m' := snd (checkEmailRateLimit now email max W m) in
  (length valid < max)%nat ->
  allowed limit = true
  /\ resetTime limit = VNull
  /\ remaining limit = (Z.of_nat max - Z.of_nat (length valid) - 1)%Z
  /\ (0 <= remaining limit)%Z
  /\ stored m' k = valid ++ [now]
  /\ (Forall (fun time => (W <= now - time)%Z) (stored m k) -> stored m' k = [now]).
Proof.
  intros k valid limit m' Hlen.
  assert (Hst : default [] (match m !! k with
                            | Some _ => m
                            | None => <[k := []]> m
                            end !! k) = stored m k).
  { unfold stored. destruct (m !! k) eqn:Hk; [rewrite Hk; reflexivity|].
    rewrite lookup_insert_eq. reflexivity. }
  assert (Hrun : limit = mkLimit true
                   (Z.of_nat max - Z.of_nat (length (valid ++ [now]))) VNull
                 /\ stored m' k = valid ++ [now]).
  { unfold limit, m', checkEmailRateLimit. fold k. rewrite Hst. fold valid.
    destruct (Nat.leb_spec max (length valid)) as [Hge|_]; [lia|]. simpl.
    split; [reflexivity|]. unfold stored. rewrite lookup_insert_eq. reflexivity. }
  destruct Hrun as [-> Hrec]. simpl.
  rewrite length_app. simpl.
  split; [reflexivity|]. split; [reflexivity|]. split; [lia|]. split; [lia|].
  split; [exact Hrec|].
  intros Hold. rewrite Hrec. unfold valid.
  rewrite (filter_none_pass _ _ _ Hold). reflexivity.
Qed.

Lemma allowed_check_slides_the_window_witness :
  let m : gmap string (list Z) := {[ "ana@example.com" := [0; 1; 2; 3; 4]%Z ]} in
  (length (List.filter (fun time => (3600004 - time <? 3600000)%Z)
             (stored m (Str.toLowerCase "ana@example.com"))) < 5)%nat
  /\ Forall (fun time => (3600000 <= 3600004 - time)%Z)
            (stored m (Str.toLowerCase "ana@example.com"))
  /\ stored (snd (checkEmailRateLimit 3600004 "ana@example.com" 5 3600000 m))
            (Str.toLowerCase "ana@example.com") = [3600004]%Z.
Proof.
  intros m.
  assert (H1 : (length (List.filter (fun time => (3600004 - time <? 3600000)%Z)
             (stored m (Str.toLowerCase "ana@example.com"))) < 5)%nat)
    by (vm_compute; lia).
  assert (H2 : Forall (fun time => (3600000 <= 3600004 - time)%Z)
            (stored m (Str.toLowerCase "ana@example.com")))
    by (replace (stored m (Str.toLowerCase "ana@example.com"))
          with [0; 1; 2; 3; 4]%Z by (vm_compute; reflexivity);
        repeat constructor; lia).
  split; [exact H1|]. split; [exact H2|].
  destruct (allowed_check_slides_the_window 3600004 "ana@example.com" 5 3600000 m H1)
    as (_ & _ & _ & _ & _ & Hre).
  exact (Hre H2).
Defined.

Lemma check_keeps_bound (now : Z) (email : string) (max : nat) (W : Z)
    (m : gmap string (list Z)) (k : string) :
  (length (stored m k) <= max)%nat ->
  (length (stored (snd (checkEmailRateLimit now email max W m)) k) <= max)%nat.
Proof.
  intros Hb. destruct (decide (k = Str.toLowerCase email)) as [->|Hk].
  - rewrite check_stored.
    destruct (Nat.leb_spec max
                (length (List.filter (fun time => (now - time <? W)%Z)
                           (stored m (Str.toLowerCase email))))) as [Hge|Hlt];
      [exact Hb|].
    rewrite length_app. simpl. lia.
  - unfold stored. rewrite (check_other_key _ _ _ _ _ _ Hk). exact Hb.
Qed.

Lemma check_record_provenance (now : Z) (email : string) (max : nat) (W : Z)
    (m : gmap string (list Z)) (k : string) (t : Z) :
  t ∈ stored (snd (checkEmailRateLimit now email max W m)) k ->
  t ∈ stored m k \/ (t = now /\ k = Str.toLowerCase email).
Proof.
  intros Ht. destruct (decide (k = Str.toLowerCase email)) as [->|Hk].
  - rewrite check_stored in Ht.
    destruct (_ <=? _)%nat; [left; exact Ht|].
    apply elem_of_app in Ht as [Ht|Ht].
    + left. apply list_elem_of_In, List.filter_In in Ht as [Ht _].
      apply list_elem_of_In. exact Ht.
    + right. apply list_elem_of_singleton in Ht. split; [exact Ht | reflexivity].
  - left. unfold stored in *. rewrite (check_other_key _ _ _ _ _ _ Hk) in Ht. exact Ht.
Qed.

(** X14. Whatever the sequence of checks, the record of an address never
    holds more instants than the maximum of 5 once it holds no more, so from
    the empty map every record stays within 5; and every recorded instant
    was already recorded or is the instant of one of the checks of that
    address. *)
Theorem email_records_stay_bounded (subs : list (Z * string))
    (m : gmap string (list Z)) (k : string) :
  ((length (stored m k) <= 5)%nat ->
   (length (stored (snd (check_all subs m)) k) <= 5)%nat)
  /\ (length (stored (snd (check_all subs ∅)) k) <= 5)%nat
  /\ (forall t, t ∈ stored (snd (check_all subs m)) k ->
        t ∈ stored m k
        \/ exists e, (t, e) ∈ subs /\ k = Str.toLowerCase e).
Proof.
  assert (Hbound : forall subs m,
             (length (stored m k) <= 5)%nat ->
             (length (stored (snd (check_all subs m)) k) <= 5)%nat).
  { clear subs m. induction subs as [|[t e] subs IH]; intros m Hb; [exact Hb|].
    simpl. pose proof (check_keeps_bound t e 5 3600000 m k Hb) as Hb1.
    destruct (checkEmailRateLimit t e 5 3600000 m) as [l m1].
    specialize (IH m1 Hb1). destruct (check_all subs m1) as [ls m2]. exact IH. }
  split; [apply Hbound|].
  split; [apply Hbound; unfold stored; rewrite lookup_empty; simpl; lia|].
  revert m. induction subs as [|[t e] subs IH]; intros m t0 Ht0; [left; exact Ht0|].
  simpl in Ht0.
  pose proof (check_record_provenance t e 5 3600000 m k) as Hprov.
  destruct (checkEmailRateLimit t e 5 3600000 m) as [l m1].
  specialize (IH m1 t0). destruct (check_all subs m1) as [ls m2].
  simpl in Ht0, Hprov. destruct (IH Ht0) as [Hin|(e' & Hin & Hk)].
  - destruct (Hprov t0 Hin) as [Hold|[-> Hk]]; [left; exact Hold|].
    right. exists e. split; [left | exact Hk].
  - right. exists e'. split; [right; exact Hin | exact Hk].
Qed.

Lemma email_records_stay_bounded_witness :
  let subs := [(0, "a@x.com"); (1, "a@x.com"); (2, "a@x.com"); (3, "A@x.com");
               (4, "a@x.com"); (5, "a@X.com"); (6, "a@x.com")]%Z in
  (length (stored ∅ "a@x.com") <= 5)%nat
  /\ (length (stored (snd (check_all subs ∅)) "a@x.com") <= 5)%nat.
Proof.
  intros subs.
  assert (H0 : (length (stored ∅ "a@x.com") <= 5)%nat) by (vm_compute; lia).
  split; [exact H0|].
  exact (proj1 (email_records_stay_bounded subs ∅ "a@x.com") H0).
Defined.

(** X15. The quota is spent by the attempt, not by the delivery: when the
    check allows the submission, the handler records it whether
    [sendContactEmail] then succeeds or throws, and answers 200 with the
    message id or 500 with the message of the error; when the check refuses,
    the outcome of sending plays no part and the answer is the 429. *)
Theorem quota_is_spent_even_when_sending_fails
    (t_check t_reply : Z) (email : string) (send : string + string)
    (m : gmap string (list Z)) :
  let k := Str.toLowerCase email in
  let valid := List.filter (fun time => (t_check - time <? 3600000)%Z) (stored m k) in
  ((length valid < 5)%nat ->
   fst (Contact.handler t_check t_reply email send m)
   = match send with
     | inl messageId => Contact.Sent messageId
     | inr error => Contact.Failed error
     end
   /\ stored (snd (Contact.handler t_check t_reply email send m)) k
      = valid ++ [t_check])
  /\ ((5 <= length valid)%nat ->
      forall send',
        Contact.handler t_check t_reply email send' m
        = Contact.handler t_check t_reply email send m
        /\ exists r, fst (Contact.handler t_check t_reply email send m)
                     = Contact.TooMany r).
Proof.
  intros k valid.
  pose proof (check_verdict t_check email 5 3600000 m) as Hv.
  pose proof (check_stored t_check email 5 3600000 m) as Hst.
  cbv zeta in Hv, Hst. fold k in Hv, Hst. fold valid in Hv, Hst.
  unfold Contact.handler.
  destruct (checkEmailRateLimit t_check email 5 3600000 m) as [l m1].
  cbn [fst snd] in Hv, Hst |- *. rewrite Hv.
  split.
  - intros Hlt. apply Nat.leb_gt in Hlt. rewrite Hlt in Hst |- *. simpl.
    destruct send; simpl; split; first [reflexivity | exact Hst].
  - intros Hge send'. apply Nat.leb_le in Hge. rewrite Hge. simpl.
    split; [reflexivity | eauto].
Qed.

Lemma quota_is_spent_even_when_sending_fails_witness :
  let m : gmap string (list Z) := {[ "ana@example.com" := [0; 1]%Z ]} in
  (length (List.filter (fun time => (10 - time <? 3600000)%Z)
             (stored m (Str.toLowerCase "ana@example.com"))) < 5)%nat
  /\ fst (Contact.handler 10 11 "ana@example.com"
            (inr "Falha ao enviar e-mail. Tente novamente mais tarde.") m)
     = Contact.Failed "Falha ao enviar e-mail. Tente novamente mais tarde."
  /\ stored (snd (Contact.handler 10 11 "ana@example.com"
                    (inr "Falha ao enviar e-mail. Tente novamente mais tarde.") m))
            (Str.toLowerCase "ana@example.com")
     = [0; 1; 10]%Z.
Proof.
  intros m.
  assert (H1 : (length (List.filter (fun time => (10 - time <? 3600000)%Z)
             (stored m (Str.toLowerCase "ana@example.com"))) < 5)%nat)
    by (vm_compute; lia).
  split; [exact H1|].
  exact (proj1 (quota_is_spent_even_when_sending_fails 10 11 "ana@example.com"
                  (inr "Falha ao enviar e-mail. Tente novamente mais tarde.") m) H1).
Defined.


(** * Further properties of the message sanitizer *)

Lemma trim_chars_no_lead (l : list ascii) :
  starts_with_space (trim_chars l) = false
  /\ starts_with_space (rev (trim_chars l)) = false.
Proof.
  unfold trim_chars.
  set (L := trimStart l). set (U := trimStart (rev L)).
  split; [|rewrite rev_involutive; apply trimStart_no_lead].
  destruct (trimStart_suffix (rev L)) as (pre & HR & _). fold U in HR.
  apply (f_equal (@rev ascii)) in HR.
  rewrite rev_involutive, rev_app_distr in HR.
  pose proof (trimStart_no_lead l) as HL. fold L in HL. rewrite HR in HL.
  destruct (rev U); [reflexivity | exact HL].
Qed.

Lemma trim_chars_id (l : list ascii) :
  starts_with_space l = false -> starts_with_space (rev l) = false ->
  trim_chars l = l.
Proof.
  intros H1 H2. unfold trim_chars.
  rewrite (trimStart_id _ H1), (trimStart_id _ H2). apply rev_involutive.
Qed.

(** X16. Whatever the input, the white space of the sanitized message is
    normalised: every white-space character in it is a single space standing
    between two other characters, it neither begins nor ends with white
    space, and it holds no NUL character. *)
Theorem sanitized_message_is_single_spaced (text : value) :
  let cs := list_ascii_of_string (sanitizeMessage text) in
  single_spaced cs = true
  /\ starts_with_space cs = false
  /\ starts_with_space (rev cs) = false
  /\ Forall (fun c => c <> zero) cs.
Proof.
  intros cs. unfold cs, sanitizeMessage.
  destruct text as [| | | | |s| |]; try (repeat split; constructor).
  destruct (String.eqb s ""); [repeat split; constructor|].
  rewrite list_ascii_of_string_of_list_ascii.
  destruct (sanitize_chars_normal (list_ascii_of_string s)) as [Hs Ht].
  split; [exact Hs|]. rewrite <- Ht.
  split; [apply trim_chars_no_lead|]. split; [apply trim_chars_no_lead|].
  rewrite Ht. eapply Forall_impl; [apply sanitize_chars_harmless|].
  intros c (_ & _ & Hn). unfold is_nul in Hn. apply Ascii.eqb_neq. exact Hn.
Qed.

(** X17. A plain message goes through unchanged: a non-empty text without
    angle bracket or NUL, whose white space is already normalised and in
    which neither the event-handler pattern nor a [javascript:] or [data:]
    scheme occurs, is its own sanitized form. *)
Theorem plain_message_is_unchanged (s : string) :
  let cs := list_ascii_of_string s in
  Forall harmless cs ->
  single_spaced cs = true ->
  starts_with_space cs = false ->
  starts_with_space (rev cs) = false ->
  test re_event_handler cs = false ->
  test re_protocol cs = false ->
  sanitizeMessage (VStr s) = s.
Proof.
  intros cs Hh Hs H1 H2 Hev Hpr. unfold sanitizeMessage.
  destruct (String.eqb_spec s "") as [->|_]; [reflexivity|].
  fold cs. rewrite (sanitize_chars_fixed cs Hh Hs (trim_chars_id _ H1 H2) Hev Hpr).
  apply string_of_list_ascii_of_string.
Qed.

Lemma plain_message_is_unchanged_witness :
  let s := "Preciso de um orcamento para um projeto residencial." in
  Forall harmless (list_ascii_of_string s)
  /\ single_spaced (list_ascii_of_string s) = true
  /\ test re_event_handler (list_ascii_of_string s) = false
  /\ test re_protocol (list_ascii_of_string s) = false
  /\ sanitizeMessage (VStr s) = s.
Proof.
  intros s.
  assert (H0 : Forall harmless (list_ascii_of_string s))
    by (repeat constructor).
  assert (H1 : single_spaced (list_ascii_of_string s) = true) by reflexivity.
  assert (H2 : test re_event_handler (list_ascii_of_string s) = false)
    by (vm_compute; reflexivity).
  assert (H3 : test re_protocol (list_ascii_of_string s) = false)
    by (vm_compute; reflexivity).
  split; [exact H0|]. split; [exact H1|]. split; [exact H2|]. split; [exact H3|].
  exact (plain_message_is_unchanged s H0 H1 eq_refl eq_refl H2 H3).
Defined.

Lemma replace_removal_length (r : regex) (s : list ascii) :
  forall skip, (length (replace_from r [] skip s) <= length s)%nat.
Proof.
  induction s as [|c s IH]; intros skip; simpl.
  - destruct skip; [destruct (match_here r [] [])|]; simpl; lia.
  - destruct skip as [|k]; [|specialize (IH k); lia].
    destruct (match_here r [] (c :: s)) as [[|n]|]; simpl.
    + specialize (IH 0%nat); lia.
    + specialize (IH n); lia.
    + specialize (IH 0%nat); lia.
Qed.

Lemma collapse_length (p : ascii -> bool) (c0 : ascii) (s : list ascii) :
  forall skip, (length (replace_from [Plus p] [c0] skip s) <= length s)%nat.
Proof.
  induction s as [|c s IH]; intros skip.
  - destruct skip; simpl; lia.
  - destruct skip as [|k]; [|simpl; specialize (IH k); lia].
    cbn [replace_from]. rewrite plus_match.
    destruct (p c); simpl.
    + specialize (IH (run p s)); lia.
    + specialize (IH 0%nat); lia.
Qed.

Lemma trim_chars_length (l : list ascii) : (length (trim_chars l) <= length l)%nat.
Proof.
  destruct (trim_chars_prefix_suffix l) as (pre & post & Heq & _).
  rewrite Heq at 2. rewrite !length_app. lia.
Qed.

Lemma flat_map_compose {A B C : Type} (f : A -> list B) (g : B -> list C)
    (l : list A) :
  flat_map g (flat_map f l) = flat_map (fun a => flat_map g (f a)) l.
Proof.
  induction l as [|a l IH]; simpl; [reflexivity|].
  rewrite flat_map_app, IH. reflexivity.
Qed.

Lemma flat_map_length_bound {A B : Type} (f : A -> list B) (n : nat) (l : list A) :
  (forall a, (length (f a) <= n)%nat) ->
  (length (flat_map f l) <= n * length l)%nat.
Proof.
  intros Hf. induction l as [|a l IH]; simpl; [lia|].
  rewrite length_app. specialize (Hf a). lia.
Qed.

Lemma escape_brackets_length (s : list ascii) :
  (length (replace [Class is_gt] "&gt;" (replace [Class is_lt] "&lt;" s))
   <= 4 * length s)%nat.
Proof.
  unfold replace. rewrite !replace_class, flat_map_compose.
  apply flat_map_length_bound. intros c.
  destruct c as [[] [] [] [] [] [] [] []]; vm_compute; lia.
Qed.

Lemma string_length_chars (l : list ascii) :
  String.length (string_of_list_ascii l) = length l.
Proof. induction l as [|c l IH]; simpl; [reflexivity | rewrite IH; reflexivity]. Qed.

(** X18. The sanitized message is at most four times as long as the input,
    the growth coming from the escaping of angle brackets alone (the text
    [<] becomes the four characters [&lt;]). *)
Theorem sanitized_message_length_bound (s : string) :
  (String.length (sanitizeMessage (VStr s)) <= 4 * String.length s)%nat
  /\ String.length (sanitizeMessage (VStr "<")) = 4%nat.
Proof.
  split; [|vm_compute; reflexivity].
  unfold sanitizeMessage. destruct (String.eqb s ""); [simpl; lia|].
  rewrite <- (string_of_list_ascii_of_string s) at 2.
  rewrite !string_length_chars.
  set (cs := list_ascii_of_string s). unfold sanitize_chars.
  set (s1 := replace re_script_block "" cs).
  set (s2 := replace re_event_handler "" s1).
  set (s3 := replace re_protocol "" s2).
  set (s4 := replace re_embed_block "" s3).
  set (s5 := replace re_style_block "" s4).
  set (s6 := replace dangerousTags "" s5).
  set (s8 := replace [Class is_gt] "&gt;" (replace [Class is_lt] "&lt;" s6)).
  set (s9 := replace [Class is_nul] "" s8).
  set (s10 := replace [Plus is_space] " " s9).
  assert (H1 : (length s1 <= length cs)%nat) by apply replace_removal_length.
  assert (H2 : (length s2 <= length s1)%nat) by apply replace_removal_length.
  assert (H3 : (length s3 <= length s2)%nat) by apply replace_removal_length.
  assert (H4 : (length s4 <= length s3)%nat) by apply replace_removal_length.
  assert (H5 : (length s5 <= length s4)%nat) by apply replace_removal_length.
  assert (H6 : (length s6 <= length s5)%nat) by apply replace_removal_length.
  assert (H8 : (length s8 <= 4 * length s6)%nat) by apply escape_brackets_length.
  assert (H9 : (length s9 <= length s8)%nat) by apply replace_removal_length.
  assert (H10 : (length s10 <= length s9)%nat) by apply collapse_length.
  pose proof (trim_chars_length s10). lia.
Qed.


(** * The escaping of the mail templates *)

(** The five passes amount to one pass that writes, for every character,
    its entity or the character itself. *)
Lemma escape_chars_pointwise (s : list ascii) :
  escape_chars s = flat_map escape_char s.
Proof.
  unfold escape_chars, replace. rewrite !replace_class, !flat_map_compose.
  apply flat_map_ext. intros c.
  destruct c as [[] [] [] [] [] [] [] []]; vm_compute; reflexivity.
Qed.

Lemma escape_char_clean (c : ascii) :
  Forall (fun x => markup_char x = false) (escape_char c).
Proof.
  unfold escape_char.
  destruct (is_amp c); [repeat constructor|].
  destruct (is_lt c) eqn:H1; [repeat constructor|].
  destruct (is_gt c) eqn:H2; [repeat constructor|].
  destruct (is_dquote c) eqn:H3; [repeat constructor|].
  destruct (is_squote c) eqn:H4; [repeat constructor|].
  constructor; [|constructor]. unfold markup_char. rewrite H1, H2, H3, H4. reflexivity.
Qed.

Lemma unescape_escape (s : list ascii) : unescape (flat_map escape_char s) = s.
Proof.
  induction s as [|c s IH]; [reflexivity|].
  cbn [flat_map].
  destruct c as [[] [] [] [] [] [] [] []]; simpl; rewrite IH; reflexivity.
Qed.

(** X19. Whatever [escapeHtml] returns holds none of the characters that
    open or close a tag or an attribute value: no angle bracket, no double
    and no single quote. *)
Theorem escaped_text_has_no_markup_character (text : value) (out : string) :
  escapeHtml text = Some out ->
  Forall (fun c => markup_char c = false) (list_ascii_of_string out).
Proof.
  unfold escapeHtml. destruct (truthy text); simpl.
  - destruct text as [| | | | |s| |]; try discriminate. intros [= <-].
    rewrite list_ascii_of_string_of_list_ascii, escape_chars_pointwise.
    induction (list_ascii_of_string s) as [|c l IH]; simpl; [constructor|].
    apply Forall_app. split; [apply escape_char_clean | exact IH].
  - intros [= <-]. constructor.
Qed.

Lemma escaped_text_has_no_markup_character_witness :
  escapeHtml (VStr "<b title='x'>Tom & Ana</b>")
  = Some "&lt;b title=&#039;x&#039;&gt;Tom &amp; Ana&lt;/b&gt;"
  /\ Forall (fun c => markup_char c = false)
       (list_ascii_of_string "&lt;b title=&#039;x&#039;&gt;Tom &amp; Ana&lt;/b&gt;").
Proof.
  split; [vm_compute; reflexivity|].
  apply (escaped_text_has_no_markup_character (VStr "<b title='x'>Tom & Ana</b>")).
  vm_compute. reflexivity.
Defined.

(** X20. Escaping loses nothing: a string is escaped without error, and
    reading the entities of the result back gives the string; hence two
    different strings are never escaped to the same text. *)
Theorem escaped_text_reads_back (s : string) :
  (exists out, escapeHtml (VStr s) = Some out
               /\ unescape (list_ascii_of_string out) = list_ascii_of_string s)
  /\ (forall s', escapeHtml (VStr s) = escapeHtml (VStr s') -> s = s').
Proof.
  assert (Hrt : forall x, exists out, escapeHtml (VStr x) = Some out
            /\ unescape (list_ascii_of_string out) = list_ascii_of_string x).
  { intros x. unfold escapeHtml. simpl.
    destruct (String.eqb_spec x "") as [->|_]; simpl.
    - exists "". split; reflexivity.
    - eexists. split; [reflexivity|].
      rewrite list_ascii_of_string_of_list_ascii, escape_chars_pointwise.
      apply unescape_escape. }
  split; [apply Hrt|].
  intros s' Heq.
  destruct (Hrt s) as (o & Ho & Hu). destruct (Hrt s') as (o' & Ho' & Hu').
  rewrite Ho, Ho' in Heq. injection Heq as ->.
  rewrite <- (string_of_list_ascii_of_string s), <- (string_of_list_ascii_of_string s').
  congruence.
Qed.


(** * The detection of attack patterns *)

Lemma test_class (p : ascii -> bool) (s : list ascii) :
  test [Class p] s = existsb p s.
Proof.
  induction s as [|c s IH]; [reflexivity|].
  cbn [test match_here existsb]. destruct (p c); simpl; [reflexivity | exact IH].
Qed.

Lemma test_class_head (p : ascii -> bool) (r : regex) (s : list ascii) :
  test (Class p :: r) s = true -> existsb p s = true.
Proof.
  induction s as [|c s IH]; [discriminate|].
  cbn [test match_here existsb]. destruct (p c); simpl; [reflexivity|exact IH].
Qed.

Lemma detect_names (text : string) (name : string) :
  name ∈ detectAttackPatterns text <->
  exists f, (name, f) ∈ patterns /\ f (list_ascii_of_string text) = true.
Proof.
  unfold detectAttackPatterns.
  rewrite list_elem_of_In, in_map_iff. split.
  - intros ([n f] & <- & Hin). apply filter_In in Hin as [Hin Hf].
    exists f. split; [apply list_elem_of_In; exact Hin | exact Hf].
  - intros (f & Hin & Hf). exists (name, f). split; [reflexivity|].
    apply filter_In. split; [apply list_elem_of_In; exact Hin | exact Hf].
Qed.

Lemma commandInjection_class (s : list ascii) :
  test_any commandInjection s = existsb is_shell_meta s.
Proof.
  unfold test_any, commandInjection. cbn [existsb].
  rewrite test_class, orb_false_r.
  destruct (existsb is_shell_meta s) eqn:He; [reflexivity|]. simpl.
  apply orb_false_intro; apply not_true_is_false; intros Ht;
    apply test_class_head in Ht; apply existsb_exists in Ht as (c & Hc & Hx);
    apply Ascii.eqb_eq in Hx; subst c;
    (assert (existsb is_shell_meta s = true) as Hy
       by (apply existsb_exists; eexists; split; [exact Hc | reflexivity]));
    congruence.
Qed.

(** X21. A text is reported as a command injection exactly when it holds
    one of the twelve characters of the class: semicolon, ampersand, bar,
    backquote, dollar, a round, curly or square bracket, or a backslash.
    The alternatives for the doubled bar and the doubled ampersand add
    nothing. *)
Theorem command_injection_is_one_character (text : string) :
  "commandInjection" ∈ detectAttackPatterns text
  <-> Exists (fun c => is_shell_meta c = true) (list_ascii_of_string text).
Proof.
  rewrite detect_names, List.Exists_exists.
  rewrite <- (existsb_exists is_shell_meta), <- commandInjection_class.
  split.
  - intros (f & Hin & Hf). unfold patterns in Hin.
    rewrite !elem_of_cons in Hin.
    destruct Hin as [H|[H|[H|[H|[H|H]]]]];
      try (inversion H; fail); try discriminate H.
    injection H as <-. exact Hf.
  - intros H. eexists. split; [|exact H]. unfold patterns.
    do 3 apply list_elem_of_further. apply list_elem_of_here.
Qed.

(** Induction on the values of a body: the property holds of an array or
    of an object as soon as it holds of every value in it. *)
Fixpoint jsonValue_induction (P : jsonValue -> Prop)
    (HNull : P JNull) (HBool : forall b, P (JBool b)) (HNum : forall n, P (JNum n))
    (HStr : forall s, P (JStr s))
    (HArr : forall items, List.Forall P items -> P (JArr items))
    (HObj : forall entries, List.Forall (fun e => P (snd e)) entries -> P (JObj entries))
    (v : jsonValue) : P v :=
  match v with
  | JNull => HNull
  | JBool b => HBool b
  | JNum n => HNum n
  | JStr s => HStr s
  | JArr items =>
      HArr items
        ((fix all (xs : list jsonValue) : List.Forall P xs :=
            match xs with
            | [] => @List.Forall_nil _ P
            | x :: xs' =>
                @List.Forall_cons _ P x xs'
                  (jsonValue_induction P HNull HBool HNum HStr HArr HObj x) (all xs')
            end) items)
  | JObj entries =>
      HObj entries
        ((fix all (es : list (string * jsonValue))
            : List.Forall (fun e => P (snd e)) es :=
            match es with
            | [] => @List.Forall_nil _ (fun e => P (snd e))
            | e :: es' =>
                @List.Forall_cons _ (fun e => P (snd e)) e es'
                  (jsonValue_induction P HNull HBool HNum HStr HArr HObj (snd e))
                  (all es')
            end) entries)
  end.

Lemma first_flagged_app (l1 l2 : list (string * string)) :
  first_flagged (l1 ++ l2)
  = match first_flagged l1 with
    | Some x => Some x
    | None => first_flagged l2
    end.
Proof.
  induction l1 as [|[p s] l1 IH]; simpl; [reflexivity|].
  destruct (flagged s); [reflexivity | exact IH].
Qed.

(** The loop with its early exit reports the first flagged leaf. *)
Lemma checkEntry_first_flagged (v : jsonValue) :
  forall path, checkEntry v path = report_of <$> first_flagged (leaves v path).
Proof.
  induction v as [| | |s|items IH|entries IH] using jsonValue_induction;
    intros path; try reflexivity.
  - cbn [checkEntry leaves first_flagged]. unfold checkValue, flagged.
    destruct (0 <? _)%nat; reflexivity.
  - cbn [checkEntry leaves]. generalize 0%nat as i.
    induction IH as [|x xs Hx _ IHxs]; intros i; [reflexivity|].
    rewrite first_flagged_app, Hx, IHxs.
    destruct (first_flagged (leaves x _)); reflexivity.
  - cbn [checkEntry leaves].
    induction IH as [|[k x] es Hx _ IHes]; [reflexivity|].
    simpl in Hx. rewrite first_flagged_app, Hx, IHes.
    destruct (first_flagged (leaves x _)); reflexivity.
Qed.

Lemma first_flagged_spec (l : list (string * string)) :
  match first_flagged l with
  | Some leaf =>
      exists pre post, l = pre ++ leaf :: post
                       /\ flagged (snd leaf) = true
                       /\ Forall (fun x => flagged (snd x) = false) pre
  | None => Forall (fun x => flagged (snd x) = false) l
  end.
Proof.
  induction l as [|[p s] l IH]; simpl; [constructor|].
  destruct (flagged s) eqn:Hs.
  - exists [], l. repeat split; [exact Hs | constructor].
  - destruct (first_flagged l) as [leaf|].
    + destruct IH as (pre & post & -> & Hf & Hpre).
      exists ((p, s) :: pre), post. repeat split; [exact Hf|].
      constructor; [exact Hs | exact Hpre].
    + constructor; [exact Hs | exact IH].
Qed.

Lemma substring_head (n : nat) (s : string) :
  (String.length (String.substring 0 n s) <= n)%nat
  /\ String.prefix (String.substring 0 n s) s = true.
Proof.
  revert n. induction s as [|c s IH]; intros [|n]; simpl; try (split; [lia|reflexivity]).
  destruct (IH n) as [Hl Hp]. split; [lia|].
  destruct (ascii_dec c c) as [_|Hne]; [exact Hp | contradiction].
Qed.

Lemma check_request (query body : list (string * jsonValue)) :
  attackPatternCheck query body
  = match first_flagged (leaves (JObj query) "" ++ leaves (JObj body) "") with
    | Some leaf => (Block403, [report_of leaf])
    | None => (CallNext, [])
    end.
Proof.
  unfold attackPatternCheck, checkObject.
  rewrite !checkEntry_first_flagged, first_flagged_app.
  destruct (first_flagged (leaves (JObj query) "")); [reflexivity|].
  destruct (first_flagged (leaves (JObj body) "")); reflexivity.
Qed.

(** X22. The check looks at the string values of the query and of the
    body, at any depth, the query first, and at nothing else: neither at
    keys nor at numbers, booleans or null.  The request goes on exactly
    when no such string is flagged, and then nothing is written to the
    console.  Otherwise it is answered 403 and one report is written, about
    the first flagged string: its path, the patterns detected in it, and
    its first hundred characters at most. *)
Theorem attack_check_reports_first_flagged_string
    (query body : list (string * jsonValue)) :
  let strings := leaves (JObj query) "" ++ leaves (JObj body) "" in
  match attackPatternCheck query body with
  | (CallNext, log) =>
      log = [] /\ Forall (fun leaf => flagged (snd leaf) = false) strings
  | (Block403, log) =>
      exists pre leaf post,
        strings = pre ++ leaf :: post
        /\ Forall (fun x => flagged (snd x) = false) pre
        /\ flagged (snd leaf) = true
        /\ log = [mkReport (fst leaf) (detectAttackPatterns (snd leaf))
                           (logged (report_of leaf))]
        /\ (String.length (logged (report_of leaf)) <= 100)%nat
        /\ String.prefix (logged (report_of leaf)) (snd leaf) = true
  end.
Proof.
  intros strings. rewrite check_request. fold strings.
  pose proof (first_flagged_spec strings) as H.
  destruct (first_flagged strings) as [leaf|].
  - destruct H as (pre & post & Heq & Hf & Hpre).
    exists pre, leaf, post. repeat split; try assumption;
      apply (substring_head 100 (snd leaf)).
  - split; [reflexivity | exact H].
Qed.

Lemma shell_character_flagged (s : string) (c : ascii) :
  c ∈ list_ascii_of_string s -> is_shell_meta c = true -> flagged s = true.
Proof.
  intros Hc Hm.
  assert (Hin : "commandInjection" ∈ detectAttackPatterns s).
  { apply detect_names. eexists. split.
    - unfold patterns. do 3 apply list_elem_of_further. apply list_elem_of_here.
    - rewrite commandInjection_class. apply existsb_exists.
      exists c. split; [apply list_elem_of_In; exact Hc | exact Hm]. }
  unfold flagged. destruct (detectAttackPatterns s); [inversion Hin | reflexivity].
Qed.

Lemma flagged_leaf_blocks (query body : list (string * jsonValue)) (p s : string) :
  (p, s) ∈ leaves (JObj query) "" ++ leaves (JObj body) "" ->
  flagged s = true ->
  exists r, attackPatternCheck query body = (Block403, [r]).
Proof.
  intros Hin Hf. rewrite check_request.
  pose proof (first_flagged_spec (leaves (JObj query) "" ++ leaves (JObj body) "")) as H.
  destruct (first_flagged _) as [leaf|]; [eexists; reflexivity|].
  rewrite Forall_forall in H. specialize (H _ Hin). simpl in H. congruence.
Qed.

(** X23. A request is answered 403 as soon as one string of its query or
    body, at any depth, holds a round, curly or square bracket, a
    semicolon, an ampersand, a bar, a backquote, a dollar or a backslash:
    a telephone number written with its area code in brackets is enough. *)
Theorem bracket_in_any_field_blocks_the_request
    (query body : list (string * jsonValue)) (path s : string) (c : ascii) :
  (path, s) ∈ leaves (JObj query) "" ++ leaves (JObj body) "" ->
  c ∈ list_ascii_of_string s ->
  is_shell_meta c = true ->
  fst (attackPatternCheck query body) = Block403.
Proof.
  intros Hin Hc Hm.
  destruct (flagged_leaf_blocks query body path s Hin
              (shell_character_flagged s c Hc Hm)) as [r ->].
  reflexivity.
Qed.

Lemma bracket_in_any_field_blocks_the_request_witness :
  let body := [("name", JStr "Ana Souza"); ("email", JStr "ana@example.com");
               ("phone", JStr "(11) 98765-4321");
               ("message", JStr "Gostaria de um orcamento.")] in
  fst (attackPatternCheck [] body) = Block403
  /\ snd (attackPatternCheck [] body)
     = [mkReport "phone" ["commandInjection"] "(11) 98765-4321"].
Proof.
  intros body. split; [|vm_compute; reflexivity].
  apply (bracket_in_any_field_blocks_the_request [] body "phone" "(11) 98765-4321" "(").
  - simpl. apply list_elem_of_further, list_elem_of_further, list_elem_of_here.
  - apply list_elem_of_here.
  - reflexivity.
Defined.

Lemma is_word_fold_case (c : ascii) : is_word (fold_case c) = is_word c.
Proof. destruct c as [[] [] [] [] [] [] [] []]; reflexivity. Qed.

Lemma starts_with_word_fold (a b : list ascii) :
  map fold_case a = map fold_case b -> starts_with_word a = starts_with_word b.
Proof.
  destruct a as [|x a], b as [|y b]; simpl; try discriminate; [reflexivity|].
  intros [= Hxy _]. rewrite <- (is_word_fold_case x), Hxy. apply is_word_fold_case.
Qed.

Lemma strip_prefix_ci_fold (k w post : list ascii) :
  map fold_case w = map fold_case k -> strip_prefix_ci k (w ++ post) = Some post.
Proof.
  revert w. induction k as [|a k IH]; intros [|x w]; simpl; try discriminate;
    [reflexivity|].
  intros [= Hx Hw]. unfold eq_ci. rewrite Hx, Ascii.eqb_refl. apply IH, Hw.
Qed.

Lemma test_keyword_skip (pre rest : list ascii) (before : bool) :
  test_keyword (fold_left (fun _ c => is_word c) pre before) rest = true ->
  test_keyword before (pre ++ rest) = true.
Proof.
  revert before. induction pre as [|c pre IH]; intros before H; [exact H|].
  cbn [app test_keyword]. apply orb_true_intro. right. apply IH. exact H.
Qed.

Lemma last_is_word (pre : list ascii) :
  fold_left (fun _ c => is_word c) pre false = starts_with_word (rev pre).
Proof.
  induction pre as [|x pre _] using rev_ind; [reflexivity|].
  rewrite fold_left_app, rev_app_distr. reflexivity.
Qed.

(** X24. One of the words SELECT, INSERT, UPDATE, DELETE, DROP, UNION, EXEC
    and SCRIPT, in any mix of upper and lower case, standing in a text as
    a word of its own (neither preceded nor followed by a letter, a digit
    or an underscore), makes the text an SQL injection. *)
Theorem sql_keyword_as_a_word_is_flagged (pre w post : list ascii) (k : string) :
  k ∈ sql_keywords ->
  map fold_case w = map fold_case (list_ascii_of_string k) ->
  starts_with_word (rev pre) = false ->
  starts_with_word post = false ->
  "sqlInjection" ∈ detectAttackPatterns (string_of_list_ascii (pre ++ w ++ post)).
Proof.
  intros Hk Hw Hpre Hpost.
  apply detect_names. exists sqlInjection. split; [apply list_elem_of_here|].
  rewrite list_ascii_of_string_of_list_ascii.
  unfold sqlInjection. apply orb_true_intro. left.
  apply test_keyword_skip. rewrite last_is_word, Hpre.
  assert (Hlen : length w = length (list_ascii_of_string k)).
  { rewrite <- (length_map fold_case w), Hw. apply length_map. }
  assert (Hends : starts_with_word w = true
                  /\ starts_with_word (rev w) = true).
  { rewrite (starts_with_word_fold _ _ Hw).
    rewrite (starts_with_word_fold (rev w) (rev (list_ascii_of_string k)))
      by (rewrite !map_rev; f_equal; exact Hw).
    unfold sql_keywords in Hk. rewrite !elem_of_cons in Hk.
    destruct Hk as [->|[->|[->|[->|[->|[->|[->|[->|Hk]]]]]]]];
      [split; reflexivity.. | inversion Hk]. }
  destruct Hends as [Hhead Hlast].
  assert (Hboundary : boundary false (w ++ post) = true).
  { unfold boundary. destruct w; [discriminate Hhead | exact Hhead]. }
  assert (Hhere : keyword_here false (w ++ post) = true).
  { unfold keyword_here. rewrite Hboundary. cbn [andb].
    apply existsb_exists. exists k. split; [apply list_elem_of_In; exact Hk|].
    cbv zeta. rewrite (strip_prefix_ci_fold _ w post Hw).
    rewrite <- Hlen, take_app_length, Hlast. unfold boundary. rewrite Hpost.
    reflexivity. }
  destruct (w ++ post); cbn [test_keyword]; rewrite Hhere; reflexivity.
Qed.

Lemma sql_keyword_as_a_word_is_flagged_witness :
  detectAttackPatterns "Please Update my address" = ["sqlInjection"]
  /\ "sqlInjection" ∈ detectAttackPatterns "Please Update my address".
Proof.
  split; [vm_compute; reflexivity|].
  apply (sql_keyword_as_a_word_is_flagged
           (list_ascii_of_string "Please ") (list_ascii_of_string "Update")
           (list_ascii_of_string " my address") "UPDATE").
  - unfold sql_keywords. do 2 apply list_elem_of_further. apply list_elem_of_here.
  - reflexivity.
  - reflexivity.
  - reflexivity.
Defined.

Lemma all_ascii_complete (x : ascii) : In x all_ascii.
Proof.
  unfold all_ascii. rewrite <- (ascii_nat_embedding x).
  apply in_map, in_seq. pose proof (nat_ascii_bounded x). lia.
Qed.

Lemma forallb_all_ascii (f : ascii -> bool) (x : ascii) :
  forallb f all_ascii = true -> f x = true.
Proof. intros H. rewrite forallb_forall in H. apply H, all_ascii_complete. Qed.

Lemma existsb_suffix (q : ascii -> bool) (s s' : list ascii) :
  s' `suffix_of` s -> existsb q s' = true -> existsb q s = true.
Proof. intros [k ->] H. rewrite existsb_app, H. apply orb_true_r. Qed.

Lemma strip_prefix_ci_suffix (p s s' : list ascii) :
  strip_prefix_ci p s = Some s' -> s' `suffix_of` s.
Proof.
  revert s. induction p as [|a p IH]; intros [|c s]; simpl; try discriminate.
  - intros [= <-]. reflexivity.
  - intros [= <-]. reflexivity.
  - destruct (eq_ci a c); [|discriminate]. intros H.
    apply suffix_cons_r, IH, H.
Qed.

Lemma greedy_continues (p : ascii -> bool) (k : list ascii -> option nat)
    (s : list ascii) (n : nat) :
  greedy p k s = Some n -> exists s' n', s' `suffix_of` s /\ k s' = Some n'.
Proof.
  revert n. induction s as [|c s IH]; intros n; simpl.
  - intros H. exists [], n. split; [reflexivity | exact H].
  - destruct (p c).
    + destruct (greedy p k s) as [m|] eqn:E.
      * intros _. destruct (IH m eq_refl) as (s' & n' & Hs & Hk).
        exists s', n'. split; [apply suffix_cons_r, Hs | exact Hk].
      * intros H. exists (c :: s), n. split; [reflexivity | exact H].
    + intros H. exists (c :: s), n. split; [reflexivity | exact H].
Qed.

Lemma lazy_continues (p : ascii -> bool) (k : list ascii -> option nat)
    (s : list ascii) (n : nat) :
  lazy p k s = Some n -> exists s' n', s' `suffix_of` s /\ k s' = Some n'.
Proof.
  revert n. induction s as [|c s IH]; intros n; simpl.
  - destruct (k []) as [m|] eqn:E; [|discriminate].
    intros _. exists [], m. split; [reflexivity | exact E].
  - destruct (k (c :: s)) as [m|] eqn:E.
    + intros _. exists (c :: s), m. split; [reflexivity | exact E].
    + destruct (p c); [|discriminate].
      destruct (lazy p k s) as [m|] eqn:E'; [|discriminate].
      intros _. destruct (IH m eq_refl) as (s' & n' & Hs & Hk).
      exists s', n'. split; [apply suffix_cons_r, Hs | exact Hk].
Qed.

Lemma alternatives_continue (ws : list string)
    (k : list ascii -> list ascii -> option nat) (s : list ascii) (n : nat) :
  alternatives ws k s = Some n ->
  exists cap s' n', s' `suffix_of` s /\ k cap s' = Some n'.
Proof.
  induction ws as [|w ws IH]; simpl; [discriminate|].
  destruct (strip_prefix_ci (list_ascii_of_string w) s) as [s'|] eqn:E; [|exact IH].
  destruct (k (take (length (list_ascii_of_string w)) s) s') as [m|] eqn:Ek; [|exact IH].
  intros _. exists (take (length (list_ascii_of_string w)) s), s', m.
  split; [eapply strip_prefix_ci_suffix, E | exact Ek].
Qed.

(** After its first atom a match goes on, on a suffix of the text. *)
Lemma match_continues (a : atom) (r : regex) (cap s : list ascii) (n : nat) :
  match_here (a :: r) cap s = Some n ->
  exists cap' s' n', s' `suffix_of` s /\ match_here r cap' s' = Some n'.
Proof.
  destruct a as [l|p|p|p|p|ws|]; cbn [match_here].
  - destruct (strip_prefix_ci _ s) as [s'|] eqn:E; [|discriminate].
    destruct (match_here r cap s') as [m|] eqn:Em; [|discriminate].
    intros _. exists cap, s', m. split; [eapply strip_prefix_ci_suffix, E | exact Em].
  - destruct s as [|c s]; [discriminate|]. destruct (p c); [|discriminate].
    destruct (match_here r cap s) as [m|] eqn:Em; [|discriminate].
    intros _. exists cap, s, m. split; [apply suffix_cons_r; reflexivity | exact Em].
  - intros H. destruct (greedy_continues _ _ _ _ H) as (s' & n' & Hs & Hk).
    exists cap, s', n'. split; assumption.
  - destruct s as [|c s]; [discriminate|]. destruct (p c); [|discriminate].
    destruct (greedy p (match_here r cap) s) as [m|] eqn:Em; [|discriminate].
    intros _. destruct (greedy_continues _ _ _ _ Em) as (s' & n' & Hs & Hk).
    exists cap, s', n'. split; [apply suffix_cons_r, Hs | exact Hk].
  - intros H. destruct (lazy_continues _ _ _ _ H) as (s' & n' & Hs & Hk).
    exists cap, s', n'. split; assumption.
  - intros H. destruct (alternatives_continue _ _ _ _ H) as (cap' & s' & n' & Hs & Hk).
    exists cap', s', n'. split; assumption.
  - destruct (strip_prefix_ci cap s) as [s'|] eqn:E; [|discriminate].
    destruct (match_here r cap s') as [m|] eqn:Em; [|discriminate].
    intros _. exists cap, s', m. split; [eapply strip_prefix_ci_suffix, E | exact Em].
Qed.

Lemma strip_prefix_ci_demand (q d : ascii -> bool) (l s s' : list ascii) :
  (forall a c, d a = true -> eq_ci a c = true -> q c = true) ->
  existsb d l = true ->
  strip_prefix_ci l s = Some s' -> existsb q s = true.
Proof.
  intros Hdq. revert s.
  induction l as [|a l IH]; intros [|c s]; cbn [strip_prefix_ci existsb];
    try discriminate.
  destruct (eq_ci a c) eqn:Hac; [|discriminate].
  intros Hd Hs. apply orb_true_iff in Hd as [Hd|Hd].
  - rewrite (Hdq a c Hd Hac). reflexivity.
  - rewrite (IH s Hd Hs). apply orb_true_r.
Qed.

Lemma match_demand (q : ascii -> bool) (r : regex) :
  existsb (demands q) r = true ->
  forall cap s n, match_here r cap s = Some n -> existsb q s = true.
Proof.
  induction r as [|a r IH]; [discriminate|].
  cbn [existsb]. intros Hd cap s n Hm.
  apply orb_true_iff in Hd as [Hd|Hd].
  - destruct a as [l|p|p|p|p|ws|]; try discriminate; cbn [match_here demands] in *.
    + destruct (strip_prefix_ci _ s) as [s'|] eqn:E; [|discriminate].
      eapply strip_prefix_ci_demand; [|exact Hd|exact E].
      intros a c Ha Hac. apply (forallb_all_ascii _ c) in Ha.
      cbv beta in Ha. rewrite Hac in Ha. exact Ha.
    + destruct s as [|c s]; [discriminate|]. destruct (p c) eqn:Hp; [|discriminate].
      apply (forallb_all_ascii _ c) in Hd. cbv beta in Hd. rewrite Hp in Hd.
      cbn [existsb]. cbn [implb] in Hd. rewrite Hd. reflexivity.
  - destruct (match_continues _ _ _ _ _ Hm) as (cap' & s' & n' & Hs & Hk).
    eapply existsb_suffix; [exact Hs|]. eapply IH; eassumption.
Qed.

Lemma test_demand (q : ascii -> bool) (r : regex) (s : list ascii) :
  existsb (demands q) r = true ->
  Forall (fun c => q c = false) s ->
  test r s = false.
Proof.
  intros Hd. induction s as [|c s IH]; intros Hq.
  - simpl. destruct (match_here r [] []) as [n|] eqn:E; [|reflexivity].
    apply (match_demand q r Hd) in E. discriminate.
  - cbn [test]. destruct (match_here r [] (c :: s)) as [n|] eqn:E.
    + apply (match_demand q r Hd) in E.
      apply existsb_exists in E as (x & Hx & Hqx).
      rewrite Forall_forall in Hq. apply list_elem_of_In in Hx.
      rewrite (Hq x Hx) in Hqx. discriminate.
    + apply IH. apply Forall_cons in Hq as [_ Hq]. exact Hq.
Qed.

(** X25. In a text without any of the twenty characters that the patterns
    other than the SQL keywords need (the twelve of the command class, the
    less-than sign, the colon, the equals sign, the hyphen, the hash, the
    slash, the asterisk, the percent sign), nothing is detected unless one
    of the SQL keywords stands there as a word, and then the SQL injection
    alone. *)
Theorem quiet_text_is_flagged_for_keywords_only (text : string) :
  Forall (fun c => loud c = false) (list_ascii_of_string text) ->
  detectAttackPatterns text
  = if test_keyword false (list_ascii_of_string text) then ["sqlInjection"] else [].
Proof.
  intros Hq.
  assert (Hno : forall rs,
             forallb (fun r => existsb (demands loud) r) rs = true ->
             test_any rs (list_ascii_of_string text) = false).
  { intros rs Hrs. unfold test_any. apply not_true_is_false. intros Ht.
    apply existsb_exists in Ht as (r & Hr & Ht).
    rewrite forallb_forall in Hrs.
    rewrite (test_demand loud r _ (Hrs r Hr) Hq) in Ht. discriminate. }
  unfold detectAttackPatterns, patterns, sqlInjection. cbn [List.filter snd].
  rewrite !Hno by (vm_compute; reflexivity).
  rewrite orb_false_r.
  destruct (test_keyword false (list_ascii_of_string text)); reflexivity.
Qed.

Lemma quiet_text_is_flagged_for_keywords_only_witness :
  let text := "Bom dia, gostaria de um orcamento para a reforma. Obrigado!" in
  Forall (fun c => loud c = false) (list_ascii_of_string text)
  /\ detectAttackPatterns text = [].
Proof.
  intros text.
  assert (H : Forall (fun c => loud c = false) (list_ascii_of_string text))
    by (repeat constructor).
  split; [exact H|].
  exact (quiet_text_is_flagged_for_keywords_only text H).
Defined.


(** * The format of an e-mail address *)

Lemma greedy_some (p : ascii -> bool) (k : list ascii -> option nat)
    (s : list ascii) :
  is_Some (greedy p k s)
  <-> exists pre rest, s = pre ++ rest
                       /\ Forall (fun c => p c = true) pre /\ is_Some (k rest).
Proof.
  split.
  - induction s as [|c s IH]; simpl.
    + intros H. exists [], []. repeat split; [constructor | exact H].
    + destruct (p c) eqn:Hp.
      * destruct (greedy p k s) as [m|] eqn:E.
        -- intros _. destruct IH as (pre & rest & -> & Hpre & Hk); [eexists; reflexivity|].
           exists (c :: pre), rest. repeat split; [constructor; assumption | exact Hk].
        -- intros H. exists [], (c :: s). repeat split; [constructor | exact H].
      * intros H. exists [], (c :: s). repeat split; [constructor | exact H].
  - intros (pre & rest & -> & Hpre & Hk).
    induction Hpre as [|c pre Hc _ IH]; simpl.
    + destruct rest as [|c rest]; simpl; [exact Hk|].
      destruct (p c); [|exact Hk].
      destruct (greedy p k rest); [eexists; reflexivity | exact Hk].
    + rewrite Hc. destruct IH as [m ->]. eexists; reflexivity.
Qed.

Lemma plus_some (p : ascii -> bool) (r : regex) (s : list ascii) :
  is_Some (match_end (Plus p :: r) [] s)
  <-> exists pre rest, pre <> [] /\ s = pre ++ rest
                       /\ Forall (fun c => p c = true) pre
                       /\ is_Some (match_end r [] rest).
Proof.
  cbn [match_end]. split.
  - destruct s as [|c s]; [intros [? [=]]|].
    destruct (p c) eqn:Hp; [|intros [? [=]]].
    rewrite fmap_is_Some, greedy_some. intros (pre & rest & -> & Hpre & Hk).
    exists (c :: pre), rest. repeat split; [discriminate | constructor; assumption | exact Hk].
  - intros (pre & rest & Hne & -> & Hpre & Hk).
    destruct pre as [|c pre]; [contradiction|]. simpl.
    apply Forall_cons in Hpre as [Hc Hpre]. rewrite Hc.
    rewrite fmap_is_Some, greedy_some. exists pre, rest. repeat split; assumption.
Qed.

Lemma class_some (p : ascii -> bool) (r : regex) (s : list ascii) :
  is_Some (match_end (Class p :: r) [] s)
  <-> exists c rest, s = c :: rest /\ p c = true /\ is_Some (match_end r [] rest).
Proof.
  cbn [match_end]. split.
  - destruct s as [|c s]; [intros [? [=]]|].
    destruct (p c) eqn:Hp; [|intros [? [=]]].
    rewrite fmap_is_Some. intros Hk. exists c, s. repeat split; assumption.
  - intros (c & rest & -> & Hc & Hk). rewrite Hc, fmap_is_Some. exact Hk.
Qed.

Lemma end_some (s : list ascii) : is_Some (match_end [] [] s) <-> s = [].
Proof.
  destruct s; simpl; split; intros H; try reflexivity; try discriminate.
  - eexists; reflexivity.
  - destruct H as [? [=]].
Qed.

Lemma test_whole_some (r : regex) (s : list ascii) :
  test_whole r s = true <-> is_Some (match_end r [] s).
Proof.
  unfold test_whole. destruct (match_end r [] s); split; intros H;
    try reflexivity; try discriminate; [eexists; reflexivity | destruct H as [? [=]]].
Qed.

(** The pattern accepts exactly the texts of the shape. *)
Lemma emailRegex_shape (s : list ascii) :
  test_whole emailRegex s = true <-> exists local a b, address_shape s local a b.
Proof.
  rewrite test_whole_some. unfold emailRegex, address_shape.
  rewrite plus_some. split.
  - intros (local & r1 & Hl & -> & Hpl & H1).
    apply class_some in H1 as (c1 & r2 & -> & Hc1 & H2).
    apply plus_some in H2 as (a & r3 & Ha & -> & Hpa & H3).
    apply class_some in H3 as (c2 & r4 & -> & Hc2 & H4).
    apply plus_some in H4 as (b & r5 & Hb & -> & Hpb & H5).
    apply end_some in H5 as ->.
    apply Ascii.eqb_eq in Hc1 as ->. apply Ascii.eqb_eq in Hc2 as ->.
    exists local, a, b. rewrite app_nil_r. repeat split; try assumption.
    rewrite !Forall_app. repeat split; assumption.
  - intros (local & a & b & -> & Hl & Ha & Hb & Hall).
    rewrite !Forall_app in Hall. destruct Hall as (Hpl & Hpa & Hpb).
    exists local, ("@"%char :: a ++ "."%char :: b). repeat split; try assumption.
    apply class_some. exists "@"%char, (a ++ "."%char :: b). repeat split.
    apply plus_some. exists a, ("."%char :: b). repeat split; try assumption.
    apply class_some. exists "."%char, b. repeat split.
    apply plus_some. exists b, []. rewrite app_nil_r. repeat split; try assumption.
    apply end_some. reflexivity.
Qed.

Lemma split_chars_whole (sep : ascii) (l cur : list ascii) :
  Forall (fun c => Ascii.eqb c sep = false) l ->
  Str.split_chars sep cur l = [rev cur ++ l].
Proof.
  intros H. revert cur. induction H as [|c l Hc _ IH]; intros cur; simpl.
  - rewrite app_nil_r. reflexivity.
  - rewrite Hc, IH. simpl. rewrite <- app_assoc. reflexivity.
Qed.

Lemma split_chars_cut (sep : ascii) (l1 l2 cur : list ascii) :
  Forall (fun c => Ascii.eqb c sep = false) l1 ->
  Str.split_chars sep cur (l1 ++ sep :: l2)
  = (rev cur ++ l1) :: Str.split_chars sep [] l2.
Proof.
  intros H. revert cur. induction H as [|c l Hc _ IH]; intros cur; simpl.
  - rewrite Ascii.eqb_refl, app_nil_r. reflexivity.
  - rewrite Hc, IH. simpl. rewrite <- app_assoc. reflexivity.
Qed.

Lemma plain_not_at (l : list ascii) :
  Forall (fun c => plain c = true) l ->
  Forall (fun c => Ascii.eqb c "@" = false) l.
Proof.
  intros H. eapply Forall_impl; [exact H|].
  intros c Hc. unfold plain, is_at in Hc.
  apply andb_true_iff in Hc as [_ Hc]. apply negb_true_iff in Hc. exact Hc.
Qed.

(** The second piece of an address of the shape is its domain. *)
Lemma address_domain (email : string) (local a b : list ascii) :
  address_shape (list_ascii_of_string email) local a b ->
  Str.split "@" email !! 1%nat = Some (string_of_list_ascii (a ++ "."%char :: b)).
Proof.
  intros (Heq & _ & _ & _ & Hall).
  rewrite !Forall_app in Hall. destruct Hall as (Hpl & Hpa & Hpb).
  unfold Str.split. rewrite Heq.
  rewrite split_chars_cut by (apply plain_not_at; exact Hpl).
  rewrite split_chars_whole; [reflexivity|].
  apply Forall_app. split; [apply plain_not_at; exact Hpa|].
  constructor; [reflexivity | apply plain_not_at; exact Hpb].
Qed.

(** X26. [isValidEmail] answers every string: the undefined domain, on
    which it would throw, is never reached.  It answers [true] exactly for
    the addresses made of a local part, one at sign and a domain with a dot
    inside, where no part is empty or holds white space, and where the
    domain, put in lower case, is none of the eight disposable domains. *)
Theorem valid_email_shape (email : string) :
  (exists verdict, isValidEmail email = Some verdict)
  /\ (isValidEmail email = Some true
      <-> exists local a b,
            address_shape (list_ascii_of_string email) local a b
            /\ Str.toLowerCase (string_of_list_ascii (a ++ "."%char :: b))
               ∉ disposableDomains).
Proof.
  unfold isValidEmail.
  destruct (test_whole emailRegex (list_ascii_of_string email)) eqn:Ht; cbn [negb].
  - pose proof (proj1 (emailRegex_shape _) Ht) as (local & a & b & Hshape).
    rewrite (address_domain email local a b Hshape). cbv zeta.
    set (domain := Str.toLowerCase _).
    assert (Hinc : Str.includes disposableDomains (Some domain) = true
                   <-> domain ∈ disposableDomains).
    { unfold Str.includes. rewrite existsb_exists. split.
      - intros (x & Hx & He). apply String.eqb_eq in He as ->.
        apply list_elem_of_In. exact Hx.
      - intros Hin. exists domain. split; [apply list_elem_of_In; exact Hin|].
        apply String.eqb_refl. }
    split.
    + destruct (Str.includes _ _); eexists; reflexivity.
    + split.
      * intros Hv. exists local, a, b. split; [exact Hshape|]. fold domain.
        intros Hin. apply Hinc in Hin. rewrite Hin in Hv. discriminate.
      * intros (local' & a' & b' & Hshape' & Hnot).
        pose proof (address_domain email local' a' b' Hshape') as Hd.
        rewrite (address_domain email local a b Hshape) in Hd.
        injection Hd as Hd. rewrite <- Hd in Hnot. fold domain in Hnot.
        destruct (Str.includes disposableDomains (Some domain)) eqn:E; [|reflexivity].
        exfalso. apply Hnot, Hinc. reflexivity.
  - split; [eexists; reflexivity|]. split; [discriminate|].
    intros (local & a & b & Hshape & _).
    assert (test_whole emailRegex (list_ascii_of_string email) = true)
      by (apply emailRegex_shape; exists local, a, b; exact Hshape).
    congruence.
Qed.

(** The domain is compared in lower case, and as a whole: a subdomain of a
    disposable domain is accepted. *)
Example isValidEmail_samples :
  isValidEmail "ana@example.com" = Some true
  /\ isValidEmail "ana@Mailinator.COM" = Some false
  /\ isValidEmail "ana@mail.mailinator.com" = Some true
  /\ isValidEmail "ana@example" = Some false
  /\ isValidEmail "ana maria@example.com" = Some false
  /\ isValidEmail "a@b@example.com" = Some false.
Proof. vm_compute. repeat split. Qed.


(** * The redaction of log entries *)

Lemma exposes_assign (key : string) (v : jsonValue)
    (rest : list (string * jsonValue)) :
  (sensitive key && negb (is_redacted v)) || exposes v = false ->
  exposes (JObj rest) = false ->
  exposes (JObj (assign_entry key v rest)) = false.
Proof.
  intros Hv Hrest. unfold assign_entry.
  destruct (String.eqb key "__proto__"); [exact Hrest|].
  cbn [exposes existsb fst snd] in *. rewrite Hv, Hrest. reflexivity.
Qed.

Lemma redacted_or_sanitized (key : string) (value : jsonValue) :
  exposes (sanitizeObject value) = false ->
  (sensitive key && negb (is_redacted (sanitize_value key value)))
  || exposes (sanitize_value key value)
  = false.
Proof.
  intros H. unfold sanitize_value. destruct (sensitive key); [reflexivity|].
  destruct value; first [exact H | reflexivity].
Qed.

(** X27. In what [sanitizeObject] returns no entry, at any depth, has a key
    containing one of the eleven sensitive names, in whatever case, with a
    value other than the text [[REDACTED]]: the password of a nested
    object or of an element of an array is redacted as well. *)
Theorem sanitized_object_exposes_nothing (obj : jsonValue) :
  exposes (sanitizeObject obj) = false.
Proof.
  induction obj as [| | |s|items IH|entries IH] using jsonValue_induction;
    try reflexivity.
  - cbn [sanitizeObject]. generalize 0%nat as i.
    induction IH as [|x xs Hx _ IHxs]; intros i; [reflexivity|].
    apply exposes_assign; [apply redacted_or_sanitized, Hx | apply IHxs].
  - cbn [sanitizeObject].
    induction IH as [|[k x] es Hx _ IHes]; [reflexivity|].
    apply exposes_assign; [apply redacted_or_sanitized, Hx | apply IHes].
Qed.

Lemma sanitizeObject_entries (es : list (string * jsonValue)) :
  sanitizeObject (JObj es) = JObj (sanitize_entries es).
Proof.
  reflexivity.
Qed.

Lemma sanitizeObject_items (xs : list jsonValue) :
  sanitizeObject (JArr xs) = JObj (sanitize_items 0 xs).
Proof.
  reflexivity.
Qed.

(** The decimal numeral of an index begins with a digit. *)
Lemma pretty_N_go_head (x : N) :
  forall s, (0 < x)%N ->
  exists c rest, pretty_N_go x s = String c rest /\ Ascii.eqb c "_" = false.
Proof.
  induction (N.lt_wf_0 x) as [x _ IH]. intros s Hx.
  rewrite pretty_N_go_step by exact Hx.
  destruct (N.eq_dec (x `div` 10)%N 0%N) as [Hz|Hnz].
  - rewrite Hz, pretty_N_go_0. eexists _, _. split; [reflexivity|].
    unfold pretty_N_char. repeat case_match; reflexivity.
  - apply IH; [apply N.div_lt; [exact Hx | reflexivity] | apply N.neq_0_lt_0; exact Hnz].
Qed.

Lemma index_is_not_proto (i : nat) : String.eqb (pretty i) "__proto__" = false.
Proof.
  unfold pretty, pretty_nat, pretty, pretty_N.
  destruct (decide (N.of_nat i = 0%N)) as [_|Hne]; [reflexivity|].
  destruct (pretty_N_go_head (N.of_nat i) "" ltac:(lia)) as (c & rest & -> & Hc).
  simpl. rewrite Hc. reflexivity.
Qed.

Lemma sanitize_value_twice (key : string) (value : jsonValue) :
  sanitizeObject (sanitizeObject value) = sanitizeObject value ->
  sanitize_value key (sanitize_value key value) = sanitize_value key value.
Proof.
  intros H. unfold sanitize_value. destruct (sensitive key) eqn:Hs; [reflexivity|].
  destruct value; first [reflexivity | exact H].
Qed.

Lemma sanitizeObject_idempotent (obj : jsonValue) :
  sanitizeObject (sanitizeObject obj) = sanitizeObject obj.
Proof.
  induction obj as [| | |s|items IH|entries IH] using jsonValue_induction;
    try reflexivity.
  - rewrite sanitizeObject_items, sanitizeObject_entries. f_equal.
    generalize 0%nat as i.
    induction IH as [|x xs Hx _ IHxs]; intros i; [reflexivity|].
    cbn [sanitize_items]. unfold assign_entry. rewrite index_is_not_proto.
    cbn [sanitize_entries]. unfold assign_entry. rewrite index_is_not_proto.
    rewrite (sanitize_value_twice _ _ Hx), IHxs. reflexivity.
  - rewrite !sanitizeObject_entries. f_equal.
    induction IH as [|[k x] es Hx _ IHes]; [reflexivity|].
    cbn [sanitize_entries]. unfold assign_entry.
    destruct (String.eqb k "__proto__") eqn:Hk; [exact IHes|].
    cbn [sanitize_entries]. unfold assign_entry. rewrite Hk.
    cbn [snd] in Hx. rewrite (sanitize_value_twice _ _ Hx), IHes. reflexivity.
Qed.

(** X28. Sanitizing twice is sanitizing once.  Hence [sanitizeFormat],
    which sanitizes the property [metadata] twice, amounts to one pass over
    the properties of the log entry: a property whose value is an object or
    an array is replaced by its sanitized value, and every other property
    is written as it is, whatever its key. *)
Theorem sanitizing_twice_is_sanitizing_once
    (obj : jsonValue) (info : list (string * jsonValue)) :
  sanitizeObject (sanitizeObject obj) = sanitizeObject obj
  /\ sanitizeFormat info
     = map (fun e => if is_object (snd e) then (fst e, sanitizeObject (snd e)) else e)
           info.
Proof.
  split; [apply sanitizeObject_idempotent|].
  unfold sanitizeFormat. rewrite map_map. apply map_ext. intros [k v].
  cbn [fst snd].
  destruct (String.eqb k "metadata" && json_truthy v); [|reflexivity].
  cbn [fst snd].
  destruct v as [| | | |items|entries]; try reflexivity.
  - rewrite sanitizeObject_idempotent, sanitizeObject_items. reflexivity.
  - rewrite sanitizeObject_idempotent, sanitizeObject_entries. reflexivity.
Qed.

(** A nested password and the token of an array element are redacted; the
    token at the top of the log entry is not. *)
Example sanitizeFormat_entry :
  sanitizeFormat
    [("message", JStr "login");
     ("token", JStr "abc");
     ("body", JObj [("user", JStr "ana"); ("Password", JStr "x");
                    ("items", JArr [JObj [("apiToken", JNum 7)]])])]
  = [("message", JStr "login");
     ("token", JStr "abc");
     ("body", JObj [("user", JStr "ana"); ("Password", JStr "[REDACTED]");
                    ("items", JObj [("0", JObj [("apiToken", JStr "[REDACTED]")])])])].
Proof. vm_compute. reflexivity. Qed.


(** * The update of an article through its route *)

Lemma updateArticle_found `{JSON} (id : value) (patch : record)
    (ars : ArticleService.t) (w : World) (i : nat) (old : record) :
  ArticleService.articles ars !! i = Some old ->
  strict_eq (ident old) (Number_ id) = true ->
  absent id (take i (ArticleService.articles ars)) ->
  exists w',
    ArticleService.updateArticle id patch (ars, w)
    = (if disk_ok w then Return (Some (spread old patch, old))
       else Throw "Failed to save article data",
       (ArticleService.mk (<[i := spread old patch]> (ArticleService.articles ars))
                          (ArticleService.initialized ars), w')).
Proof.
  intros Hl Hp Hf.
  pose proof (findIndex_first
                (fun p => strict_eq (get p "id") (Number_ id)) _ _ _ Hl Hp Hf) as Hi.
  unfold ArticleService.updateArticle, ArticleService._save. run_method.
  rewrite Hi, Hl. simpl.
  destruct (disk_ok w); simpl; eexists; reflexivity.
Qed.

Lemma lookup_when_truthy (k k' : string) (v : value) :
  ArticlesRoute.when_truthy k v !! k'
  = if String.eqb k' k && truthy v then Some v else None.
Proof.
  unfold ArticlesRoute.when_truthy.
  destruct (String.eqb_spec k' k) as [->|Hne]; destruct (truthy v); simpl;
    try apply lookup_empty.
  - apply lookup_singleton_eq.
  - apply lookup_singleton_ne. congruence.
Qed.

Lemma updateData_lookup (req : ArticlesRoute.PutRequest) (k : string) :
  ArticlesRoute.updateData req !! k
  = if writes req k then Some (new_value req k) else None.
Proof.
  unfold ArticlesRoute.updateData. cbv zeta.
  rewrite !spread_lookup, !lookup_when_truthy, lookup_empty.
  unfold writes, new_value, article_fields. cbn [existsb].
  destruct (String.eqb_spec k "imageUrl") as [->|_].
  { cbn. destruct (truthy (ArticlesRoute.image_of req)); reflexivity. }
  destruct (String.eqb_spec k "date") as [->|_].
  { cbn. destruct (truthy (get (ArticlesRoute.body req) "date")); reflexivity. }
  destruct (String.eqb_spec k "category") as [->|_].
  { cbn. destruct (truthy (get (ArticlesRoute.body req) "category")); reflexivity. }
  destruct (String.eqb_spec k "author") as [->|_].
  { cbn. destruct (truthy (get (ArticlesRoute.body req) "author")); reflexivity. }
  destruct (String.eqb_spec k "content") as [->|_].
  { cbn. destruct (truthy (get (ArticlesRoute.body req) "content")); reflexivity. }
  destruct (String.eqb_spec k "title") as [->|_].
  { cbn. destruct (truthy (get (ArticlesRoute.body req) "title")); reflexivity. }
  reflexivity.
Qed.

(** X29. Through the route an update writes nothing but the six fields
    title, content, author, category, date and imageUrl, and each of them
    only with a truthy value of the request: the stored article becomes
    the old one with those fields replaced, so its id and every other field
    stay, and no field is emptied or set to [undefined], whatever else the
    body holds.  The article is replaced in memory even when the rewrite of
    the file fails and the answer is 500. *)
Theorem put_writes_only_truthy_listed_fields `{JSON}
    (req : ArticlesRoute.PutRequest) (ars : ArticleService.t) (w : World)
    (i : nat) (old : record) :
  ArticleService.articles ars !! i = Some old ->
  strict_eq (ident old) (Number_ (ArticlesRoute.params_id req)) = true ->
  absent (ArticlesRoute.params_id req) (take i (ArticleService.articles ars)) ->
  exists updated,
    ArticleService.articles (fst (snd (ArticlesRoute.put req (ars, w))))
    = <[i := updated]> (ArticleService.articles ars)
    /\ (forall k, updated !! k
                  = if writes req k then Some (new_value req k) else old !! k)
    /\ ident updated = ident old
    /\ (disk_ok w = false ->
        fst (ArticlesRoute.put req (ars, w))
        = Return (ArticlesRoute.Answer_json 500 "Failed to save article data" None,
                  None)).
Proof.
  intros Hl Hp Hf.
  destruct (updateArticle_found (ArticlesRoute.params_id req)
              (ArticlesRoute.updateData req) ars w i old Hl Hp Hf) as [w' Hrun].
  assert (Hk : forall k, spread old (ArticlesRoute.updateData req) !! k
                         = if writes req k then Some (new_value req k) else old !! k).
  { intros k. rewrite spread_lookup, updateData_lookup.
    destruct (writes req k); reflexivity. }
  exists (spread old (ArticlesRoute.updateData req)).
  split; [|split; [exact Hk|split]].
  - unfold ArticlesRoute.put, Sys.try_catch, Sys.bind. rewrite Hrun.
    destruct (disk_ok w); [|reflexivity].
    unfold ArticlesRoute.old_image.
    destruct (truthy _ && truthy _); [|reflexivity].
    destruct (get old "imageUrl"); reflexivity.
  - unfold ident, get. rewrite Hk. reflexivity.
  - intros Hw. unfold ArticlesRoute.put, Sys.try_catch, Sys.bind.
    rewrite Hrun, Hw. reflexivity.
Qed.

Lemma put_writes_only_truthy_listed_fields_witness :
  let req := ArticlesRoute.mkPutRequest (VStr "2")
               {[ "title" := VStr "Nota nova"; "id" := VNum 99;
                  "content" := VStr "" ]} None in
  let w := Sample.world ∅ true in
  ArticleService.articles Sample.two_articles !! 1%nat = Some (Sample.project 2 "Nota B")
  /\ exists updated,
       ArticleService.articles
         (fst (snd (ArticlesRoute.put (H := Sample.json) req (Sample.two_articles, w))))
       = <[1%nat := updated]> (ArticleService.articles Sample.two_articles)
       /\ ident updated = VNum 2
       /\ updated !! "title" = Some (VStr "Nota nova")
       /\ updated !! "content" = None.
Proof.
  intros req w.
  assert (Hl : ArticleService.articles Sample.two_articles !! 1%nat
               = Some (Sample.project 2 "Nota B")) by reflexivity.
  assert (Hp : strict_eq (ident (Sample.project 2 "Nota B"))
                 (Number_ (ArticlesRoute.params_id req)) = true)
    by (vm_compute; reflexivity).
  assert (Hf : absent (ArticlesRoute.params_id req)
                 (take 1 (ArticleService.articles Sample.two_articles)))
    by (repeat constructor).
  split; [exact Hl|].
  destruct (put_writes_only_truthy_listed_fields (H := Sample.json) req
              Sample.two_articles w 1 (Sample.project 2 "Nota B") Hl Hp Hf)
    as (updated & Hst & Hk & Hid & _).
  exists updated. split; [exact Hst|]. split; [rewrite Hid; reflexivity|].
  split; [rewrite Hk; vm_compute; reflexivity|].
  rewrite Hk. vm_compute. reflexivity.
Defined.


(** * The origin check *)

Lemma includes_elem_of (l : list string) (o : string) :
  Str.includes l (Some o) = true <-> o ∈ l.
Proof.
  unfold Str.includes. rewrite existsb_exists. split.
  - intros (x & Hx & He). apply String.eqb_eq in He as ->.
    apply list_elem_of_In. exact Hx.
  - intros Hin. exists o. split; [apply list_elem_of_In; exact Hin|].
    apply String.eqb_refl.
Qed.

(** X30. A request without an [Origin] header, or with an empty one, is
    always allowed.  Any other origin is allowed exactly when it is, to the
    letter, one of the comma-separated pieces of [CORS_ORIGIN], trimmed, or,
    when [CORS_ORIGIN] is unset or empty, the development origin
    [http://localhost:5173].  No piece acts as a wildcard, and an allowed
    origin never has surrounding white space or a comma. *)
Theorem cors_allows_exactly_the_listed_origins
    (CORS_ORIGIN : option string) (o : string) :
  Cors.origin CORS_ORIGIN None = Cors.Allow
  /\ Cors.origin CORS_ORIGIN (Some "") = Cors.Allow
  /\ (o <> "" ->
      (Cors.origin CORS_ORIGIN (Some o) = Cors.Allow
       <-> if Str.truthy CORS_ORIGIN
           then exists v piece, CORS_ORIGIN = Some v
                                /\ piece ∈ Str.split "," v /\ o = Js.trim piece
           else o = "http://localhost:5173")
      /\ (Cors.origin CORS_ORIGIN (Some o) = Cors.Allow ->
          Str.truthy CORS_ORIGIN = true ->
          Js.trim o = o /\ ","%char ∉ list_ascii_of_string o)).
Proof.
  split; [reflexivity|]. split; [reflexivity|]. intros Ho.
  assert (Hallow : Cors.origin CORS_ORIGIN (Some o) = Cors.Allow
                   <-> o ∈ Cors.allowedOrigins CORS_ORIGIN).
  { unfold Cors.origin. cbv zeta. simpl Str.truthy at 1.
    destruct (String.eqb_spec o "") as [->|_]; [contradiction|]. cbn [negb].
    rewrite <- includes_elem_of.
    destruct (Str.includes _ _); split; intros H; try reflexivity; discriminate. }
  assert (Hlist : o ∈ Cors.allowedOrigins CORS_ORIGIN
                  <-> if Str.truthy CORS_ORIGIN
                      then exists v piece, CORS_ORIGIN = Some v
                             /\ piece ∈ Str.split "," v /\ o = Js.trim piece
                      else o = "http://localhost:5173").
  { unfold Cors.allowedOrigins. destruct CORS_ORIGIN as [v|].
    - destruct (Str.truthy (Some v)).
      + rewrite map_is_fmap, list_elem_of_fmap. split.
        * intros (p & -> & Hp). exists v, p. repeat split; assumption.
        * intros (v' & p & [= <-] & Hp & ->). exists p. split; [reflexivity | exact Hp].
      + rewrite list_elem_of_singleton. reflexivity.
    - simpl. rewrite list_elem_of_singleton. reflexivity. }
  split; [rewrite Hallow; exact Hlist|].
  intros Ha Ht. apply Hallow, Hlist in Ha. rewrite Ht in Ha.
  destruct Ha as (v & p & _ & Hp & ->).
  split; [apply trim_idempotent|].
  intros Hcomma. apply (split_no_sep "," v p Hp).
  unfold Js.trim in Hcomma. rewrite list_ascii_of_string_of_list_ascii in Hcomma.
  destruct (trim_chars_prefix_suffix (list_ascii_of_string p))
    as (pre & post & Heq & _).
  rewrite Heq. apply elem_of_app. right. apply elem_of_app. left. exact Hcomma.
Qed.

Lemma cors_allows_exactly_the_listed_origins_witness :
  let env := Some "https://gkl.example , https://www.gkl.example" in
  "https://www.gkl.example" <> ""
  /\ Cors.origin env (Some "https://www.gkl.example") = Cors.Allow
  /\ Js.trim "https://www.gkl.example" = "https://www.gkl.example"
  /\ Cors.origin (Some "*") (Some "https://evil.example")
     = Cors.Deny "CORS blocked request from: https://evil.example".
Proof.
  intros env.
  assert (Hne : "https://www.gkl.example" <> "") by discriminate.
  assert (Ha : Cors.origin env (Some "https://www.gkl.example") = Cors.Allow)
    by reflexivity.
  split; [exact Hne|]. split; [exact Ha|].
  split; [|reflexivity].
  exact (proj1 (proj2 (proj2 (proj2
    (cors_allows_exactly_the_listed_origins env "https://www.gkl.example")) Hne)
    Ha eq_refl)).
Defined.
